(** * rtsp-simple-server: fMP4 playback segments and the RTSP source worker

    A shallow embedding of two Go files of the server:

    - the [playback] package file with [durationGoToMp4], [durationMp4ToGo],
      [segmentFMP4CanBeConcatenated], [segmentFMP4ReadMaxDuration],
      [segmentFMP4SeekAndMuxParts] and [segmentFMP4WriteParts];
    - [internal/core/rtsp_source.go] with [rtspSource.close], [rtspSource.run]
      and [rtspSource.runInner].

    Go's fixed-width integers are integers of [Z] with the wrap-around
    written out; [time.Duration] is an [int64] count of nanoseconds; byte
    slices are lists of [Byte.byte]. *)

From Stdlib Require Import ZArith List Lia Bool String.
From Stdlib.Strings Require Import Byte.
Import ListNotations.
Local Open Scope Z_scope.

(** ** Fixed-width integers *)

Module MachineInt.

Definition two32 : Z := 2 ^ 32.
Definition two63 : Z := 2 ^ 63.
Definition two64 : Z := 2 ^ 64.

(** [uint32(x)], [uint64(x)], [int64(x)], [int32(x)]: the value of [x]
    reduced to the width of the type. *)
Definition u32 (x : Z) : Z := x mod two32.
Definition u64 (x : Z) : Z := x mod two64.
Definition i64 (x : Z) : Z := (x + two63) mod two64 - two63.
Definition i32 (x : Z) : Z := (x + 2 ^ 31) mod two32 - 2 ^ 31.

End MachineInt.
Import MachineInt.

(** ** Time arithmetic *)

(** [time.Duration]: nanoseconds, [int64]. *)
Definition Duration := Z.

Definition Nanosecond : Duration := 1.
Definition Millisecond : Duration := 1000000.
Definition Second : Duration := 1000000000.

Definition sampleFlagIsNonSyncSample : Z := Z.shiftl 1 16.
Definition concatenationTolerance : Duration := 500 * Millisecond.
Definition fmp4Timescale : Z := 90000.

(** Go's [/] and [%] on signed integers truncate toward zero ([Z.quot],
    [Z.rem]); on unsigned integers they are [Z.div] and [Z.modulo]. *)
Definition durationGoToMp4 (v : Duration) (timeScale : Z) : Z :=
  let timeScale64 := u64 timeScale in
  let secs := Z.quot v Second in
  let dec := Z.rem v Second in
  u64 (u64 (u64 secs * timeScale64)
       + u64 (u64 dec * timeScale64) / u64 Second).

Definition durationMp4ToGo (v : Z) (timeScale : Z) : Duration :=
  let timeScale64 := u64 timeScale in
  let secs := v / timeScale64 in
  let dec := v mod timeScale64 in
  i64 (i64 (i64 secs * Second)
       + Z.quot (i64 (i64 dec * Second)) (i64 timeScale64)).

(** ** Concatenation of segments *)

(** [bytes.Equal]: same length and same bytes; a nil slice equals an empty
    one, as the two are the same list here. *)
Fixpoint bytesEqual (a b : list byte) : bool :=
  match a, b with
  | [], [] => true
  | x :: a', y :: b' => Byte.eqb x y && bytesEqual a' b'
  | _, _ => false
  end.

(** [time.Time], as the instant it denotes: nanoseconds since a fixed epoch.
    The location and the monotonic reading of Go's [Time] play no part in
    [Add], [Before] and [After] on wall-clock times. *)
Definition Time := Z.

Definition timeAdd (t : Time) (d : Duration) : Time := t + d.
Definition timeBefore (t u : Time) : bool := t <? u.
Definition timeAfter (t u : Time) : bool := u <? t.

Definition segmentFMP4CanBeConcatenated
    (prevInit : list byte) (prevEnd : Time)
    (curInit : list byte) (curStart : Time) : bool :=
  bytesEqual prevInit curInit
  && negb (timeBefore curStart (timeAdd prevEnd (- concatenationTolerance)))
  && negb (timeAfter curStart (timeAdd prevEnd concatenationTolerance)).

(** ** Errors and results *)

(** The [error] values the two files produce or pass on. *)
Inductive error : Type :=
| ErrEOF                         (* io.EOF *)
| ErrUnexpectedEOF               (* io.ErrUnexpectedEOF *)
| ErrNegativePosition            (* Seek to a negative offset *)
| ErrDevice (code : Z)           (* any other failure of the reader *)
| ErrBoxNotFound (tag : string)  (* fmt.Errorf("<tag> box not found") *)
| ErrNoMoofBoxes                 (* fmt.Errorf("no moof boxes found") *)
| ErrInvalidBox (tag : string)   (* fmt.Errorf("invalid <tag> box: %w", err) *)
| ErrBoxStructure (code : Z)     (* an error of go-mp4 reading the boxes *)
| ErrMuxer (code : Z)            (* an error returned by muxer.flush *)
| errTerminated                  (* errors.New("terminated") *)
| errNoSegmentsFound.

(** The outcome of a call: a value, a Go [error], a run-time panic, or (for
    the loops that take fuel) fuel exhausted. *)
Inductive result (A : Type) : Type :=
| Ok (a : A)
| Err (e : error)
| Panicked
| OutOfFuel.
Arguments Ok {A} a.
Arguments Err {A} e.
Arguments Panicked {A}.
Arguments OutOfFuel {A}.

Definition error_eqb (a b : error) : bool :=
  match a, b with
  | ErrEOF, ErrEOF | ErrUnexpectedEOF, ErrUnexpectedEOF
  | ErrNegativePosition, ErrNegativePosition
  | ErrNoMoofBoxes, ErrNoMoofBoxes
  | errTerminated, errTerminated | errNoSegmentsFound, errNoSegmentsFound => true
  | ErrDevice x, ErrDevice y | ErrMuxer x, ErrMuxer y
  | ErrBoxStructure x, ErrBoxStructure y => x =? y
  | ErrBoxNotFound s, ErrBoxNotFound t | ErrInvalidBox s, ErrInvalidBox t =>
      String.eqb s t
  | _, _ => false
  end.


Definition is_no_fragments_found (e : error) : bool :=
  match e with ErrNoMoofBoxes | errNoSegmentsFound => true | _ => false end.

Definition is_io_error (e : error) : bool :=
  match e with
  | ErrEOF | ErrUnexpectedEOF | ErrNegativePosition | ErrDevice _ => true
  | _ => false
  end.

(** ** io.ReadSeeker *)

Inductive whence : Type := SeekStart | SeekCurrent | SeekEnd.

Definition returns_io {A} (res : result A) : Prop :=
  match res with
  | Ok _ => True
  | Err e => is_io_error e = true
  | _ => False
  end.

(** The interface [io.ReadSeeker], through the two calls the code makes:
    [io.ReadFull(r, buf)] with [len(buf) = n], and [r.Seek(offset, whence)].
    Both leave a new reader state behind. *)
Class ReadSeeker (R : Type) : Type := {
  readFull : Z -> R -> R * result (list byte);
  seek : Z -> whence -> R -> R * result Z;
  (* the calls return a value or an I/O error: the sentinel errors of the
     package and its panics are not theirs *)
  readFull_io : forall n r, returns_io (snd (readFull n r));
  seek_io : forall off w r, returns_io (snd (seek off w r))
}.

(** A reader over a byte sequence held in memory, positioned at [pos]; this
    is how [bytes.Reader] and a regular file behave: a read of [n > 0] bytes
    fails when fewer than [n] remain (EOF when none, unexpected EOF when
    some); a seek fails only on a negative target and may go past the end. *)
Record memReader : Type := MemReader { mr_data : list byte; mr_pos : Z }.

Definition mr_len (r : memReader) : Z := Z.of_nat (List.length (mr_data r)).

Definition slice (data : list byte) (from n : Z) : list byte :=
  firstn (Z.to_nat n) (skipn (Z.to_nat from) data).

Definition mem_readFull (n : Z) (r : memReader) : memReader * result (list byte) :=
  if n <=? 0 then (r, Ok [])
  else if mr_pos r + n <=? mr_len r
       then (MemReader (mr_data r) (mr_pos r + n), Ok (slice (mr_data r) (mr_pos r) n))
       else if mr_len r <=? mr_pos r
            then (r, Err ErrEOF)
            else (MemReader (mr_data r) (mr_len r), Err ErrUnexpectedEOF).

Definition mem_seek (offset : Z) (w : whence) (r : memReader) : memReader * result Z :=
  let abs := match w with
             | SeekStart => offset
             | SeekCurrent => mr_pos r + offset
             | SeekEnd => mr_len r + offset
             end in
  if abs <? 0 then (r, Err ErrNegativePosition)
  else (MemReader (mr_data r) abs, Ok abs).

Lemma mem_readFull_io n r : returns_io (snd (mem_readFull n r)).
Proof.
  unfold mem_readFull.
  repeat match goal with |- context [if ?c then _ else _] => destruct c end;
    exact I || reflexivity.
Qed.

Lemma mem_seek_io off w r : returns_io (snd (mem_seek off w r)).
Proof. unfold mem_seek. destruct (_ <? 0); exact I || reflexivity. Qed.

#[export] Instance memReader_ReadSeeker : ReadSeeker memReader :=
  {| readFull := mem_readFull; seek := mem_seek;
     readFull_io := mem_readFull_io; seek_io := mem_seek_io |}.

(** A reader on a device that fails: the same bytes, but the operation
    number [fr_fault] (counting reads and seeks from 0) and every operation
    after it return a device error. *)
Record faultyReader : Type :=
  FaultyReader { fr_mem : memReader; fr_fault : nat }.

Definition faulty_readFull (n : Z) (r : faultyReader) : faultyReader * result (list byte) :=
  match fr_fault r with
  | O => (r, Err (ErrDevice 5))
  | S k => let '(m, res) := mem_readFull n (fr_mem r) in (FaultyReader m k, res)
  end.

Definition faulty_seek (offset : Z) (w : whence) (r : faultyReader) : faultyReader * result Z :=
  match fr_fault r with
  | O => (r, Err (ErrDevice 5))
  | S k => let '(m, res) := mem_seek offset w (fr_mem r) in (FaultyReader m k, res)
  end.

Lemma faulty_readFull_io n r : returns_io (snd (faulty_readFull n r)).
Proof.
  unfold faulty_readFull. destruct (fr_fault r); [reflexivity |].
  pose proof (mem_readFull_io n (fr_mem r)). now destruct (mem_readFull n (fr_mem r)).
Qed.

Lemma faulty_seek_io off w r : returns_io (snd (faulty_seek off w r)).
Proof.
  unfold faulty_seek. destruct (fr_fault r); [reflexivity |].
  pose proof (mem_seek_io off w (fr_mem r)). now destruct (mem_seek off w (fr_mem r)).
Qed.

#[export] Instance faultyReader_ReadSeeker : ReadSeeker faultyReader :=
  {| readFull := faulty_readFull; seek := faulty_seek;
     readFull_io := faulty_readFull_io; seek_io := faulty_seek_io |}.

(** ** go-mp4 on the reader *)

(** [mp4.ReadBoxStructure] works on the same [r] as the handlers it calls:
    it reads the header of each box from [r], seeks to the payload of a box
    and decodes it, seeks to the end of a box. The library is not among
    these files; with an [io.ReadSeeker] it can only call [Read] and [Seek].
    Its accesses to [r] are numbered in the order it makes them, and
    [libraryCalls k] are the calls of access number [k]; what the library
    makes of their results is in the tree of boxes below. *)
Inductive readerCall : Type :=
| CallRead (n : Z)
| CallSeek (offset : Z) (w : whence).

Class BoxLibrary : Type := { libraryCalls : nat -> list readerCall }.

Definition runCall {R : Type} `{ReadSeeker R} (r : R) (c : readerCall) : R :=
  match c with
  | CallRead n => fst (readFull n r)
  | CallSeek offset w => fst (seek offset w r)
  end.

Definition runCalls {R : Type} `{ReadSeeker R} (cs : list readerCall) (r : R) : R :=
  fold_left runCall cs r.


(** ** Box headers *)

Definition byteZ (b : byte) : Z := Z.of_N (Byte.to_N b).

(** [uint32(buf[0])<<24 | uint32(buf[1])<<16 | uint32(buf[2])<<8 | uint32(buf[3])] *)
Definition boxSize (buf : list byte) : Z :=
  Z.lor (Z.lor (Z.lor (Z.shiftl (byteZ (nth 0 buf x00)) 24)
                      (Z.shiftl (byteZ (nth 1 buf x00)) 16))
               (Z.shiftl (byteZ (nth 2 buf x00)) 8))
        (byteZ (nth 3 buf x00)).

(** [bytes.Equal(buf[4:], []byte{...})] *)
Definition hasTag (buf : list byte) (tag : string) : bool :=
  bytesEqual (skipn 4 buf) (list_byte_of_string tag).

(** Box headers and boxes as bytes, to write segments down. *)
Definition byteOfZ (z : Z) : byte :=
  match Byte.of_N (Z.to_N (z mod 256)) with Some b => b | None => x00 end.

Definition be32 (n : Z) : list byte :=
  [byteOfZ (Z.shiftr n 24); byteOfZ (Z.shiftr n 16); byteOfZ (Z.shiftr n 8); byteOfZ n].

Definition boxHeader (size : Z) (tag : string) : list byte :=
  be32 size ++ list_byte_of_string tag.

Definition mkBox (tag : string) (body : list byte) : list byte :=
  boxHeader (8 + Z.of_nat (List.length body)) tag ++ body.

(** ** Parsed boxes (go-mp4's [Tfhd], [Tfdt], [Trun]) *)

Record Tfhd : Type := { TrackID : Z }.

Record Tfdt : Type := { BaseMediaDecodeTimeV1 : Z (* uint64 *) }.

Record TrunEntry : Type := {
  SampleDuration : Z;                   (* uint32 *)
  SampleSize : Z;                       (* uint32 *)
  SampleFlags : Z;                      (* uint32 *)
  SampleCompositionTimeOffsetV1 : Z     (* int32 *)
}.

Record Trun : Type := {
  DataOffset : Z;                       (* int32 *)
  Entries : list TrunEntry
}.

(** ** Calls on a reader, with errors *)

Definition io (R A : Type) : Type := R -> R * result A.

Definition ret {R A} (a : A) : io R A := fun r => (r, Ok a).

Definition fail {R A} (e : error) : io R A := fun r => (r, Err e).

Definition bind {R A B} (m : io R A) (k : A -> io R B) : io R B :=
  fun r =>
    match m r with
    | (r', Ok a) => k a r'
    | (r', Err e) => (r', Err e)
    | (r', Panicked) => (r', Panicked)
    | (r', OutOfFuel) => (r', OutOfFuel)
    end.

(** [v, err := call(); if err != nil { ...handled here... }]: the error
    becomes a value the caller branches on. *)
Definition tryIO {R A} (m : io R A) : io R (A + error) :=
  fun r =>
    match m r with
    | (r', Ok a) => (r', Ok (inl a))
    | (r', Err e) => (r', Ok (inr e))
    | (r', Panicked) => (r', Panicked)
    | (r', OutOfFuel) => (r', OutOfFuel)
    end.

Declare Scope io_scope.
Delimit Scope io_scope with io.
Notation "x <- m ;; k" := (bind m (fun x => k))
  (at level 61, m at next level, right associativity) : io_scope.
Notation "m ;; k" := (bind m (fun _ => k))
  (at level 61, right associativity) : io_scope.
Local Open Scope io_scope.

(** ** segmentFMP4ReadMaxDuration *)

Section ReadMaxDuration.

Context {R : Type} `{ReadSeeker R}.

(** [mp4.Unmarshal] of go-mp4 on the payload of a [tfdt] and of a [trun]
    box; [None] is its error. *)
Variable unmarshalTfdt : list byte -> option Tfdt.
Variable unmarshalTrun : list byte -> option Trun.

(** Read an 8-byte header and check its tag. *)
Definition readHeader (tag : string) : io R (list byte) :=
  buf <- readFull 8 ;;
  if negb (hasTag buf tag) then fail (ErrBoxNotFound tag) else ret buf.

(** The loop "find last valid moof and mdat": one iteration per
    [moof]/[mdat] pair; [break] returns the last position recorded. Only the
    position query at the head of an iteration returns its error. *)
Fixpoint scanPairs (fuel : nat) (lastMoofPos : Z) : io R Z :=
  match fuel with
  | O => fun r => (r, OutOfFuel)
  | S fuel' =>
      moofPos <- seek 0 SeekCurrent ;;
      rd <- tryIO (readFull 8) ;;
      match rd with
      | inr _ => ret lastMoofPos
      | inl buf =>
          if negb (hasTag buf "moof") then fail (ErrBoxNotFound "moof") else
          let moofSize := boxSize buf in
          sk <- tryIO (seek (moofSize - 8) SeekCurrent) ;;
          match sk with
          | inr _ => ret lastMoofPos
          | inl _ =>
              rd2 <- tryIO (readFull 8) ;;
              match rd2 with
              | inr _ => ret lastMoofPos
              | inl buf2 =>
                  if negb (hasTag buf2 "mdat") then fail (ErrBoxNotFound "mdat") else
                  let mdatSize := boxSize buf2 in
                  sk2 <- tryIO (seek (mdatSize - 8) SeekCurrent) ;;
                  match sk2 with
                  | inr _ => ret lastMoofPos
                  | inl _ => scanPairs fuel' moofPos
                  end
              end
          end
      end
  end.

(** [for _, entry := range trun.Entries { elapsed += uint64(entry.SampleDuration) }] *)
Definition sumDurations (elapsed : Z) (entries : list TrunEntry) : Z :=
  fold_left (fun acc e => u64 (acc + u32 (SampleDuration e))) entries elapsed.

(** The loop "foreach traf" of the last [moof]; it ends at the [mdat]
    header. *)
Fixpoint scanTrafs (fuel : nat) (maxElapsed : Z) : io R Z :=
  match fuel with
  | O => fun r => (r, OutOfFuel)
  | S fuel' =>
      buf <- readFull 8 ;;
      if negb (hasTag buf "traf") then
        if hasTag buf "mdat" then ret maxElapsed
        else fail (ErrBoxNotFound "traf")
      else
        (* skip tfhd *)
        buf <- readHeader "tfhd" ;;
        let tfhdSize := boxSize buf in
        _ <- seek (tfhdSize - 8) SeekCurrent ;;
        (* parse tfdt *)
        buf <- readHeader "tfdt" ;;
        let tfdtSize := boxSize buf in
        buf2 <- readFull (u32 (tfdtSize - 8)) ;;
        match unmarshalTfdt buf2 with
        | None => fail (ErrInvalidBox "tfdt")
        | Some tfdt =>
            (* parse trun *)
            buf <- readHeader "trun" ;;
            let trunSize := boxSize buf in
            buf2 <- readFull (u32 (trunSize - 8)) ;;
            match unmarshalTrun buf2 with
            | None => fail (ErrInvalidBox "trun")
            | Some trun =>
                let elapsed :=
                  sumDurations (u64 (BaseMediaDecodeTimeV1 tfdt)) (Entries trun) in
                scanTrafs fuel' (if elapsed >? maxElapsed then elapsed else maxElapsed)
            end
        end
  end.

(** "find and skip ftyp", "find and skip moov" *)
Definition skipInit : io R unit :=
  buf <- readHeader "ftyp" ;;
  let ftypSize := boxSize buf in
  _ <- seek ftypSize SeekStart ;;
  buf <- readHeader "moov" ;;
  let moovSize := boxSize buf in
  _ <- seek (moovSize - 8) SeekCurrent ;;
  ret tt.

(** "open last moof", "skip mfhd", "foreach traf" *)
Definition parseLastMoof (fuel : nat) (lastMoofPos : Z) : io R Duration :=
  _ <- seek (lastMoofPos + 8) SeekStart ;;
  _ <- readHeader "mfhd" ;;
  _ <- seek 8 SeekCurrent ;;
  maxElapsed <- scanTrafs fuel 0 ;;
  ret (durationMp4ToGo maxElapsed fmp4Timescale).

Definition segmentFMP4ReadMaxDuration (fuel : nat) : io R Duration :=
  skipInit ;;
  (* find last valid moof and mdat *)
  lastMoofPos <- scanPairs fuel (-1) ;;
  if lastMoofPos <? 0 then fail ErrNoMoofBoxes else
  parseLastMoof fuel lastMoofPos.

End ReadMaxDuration.

(** ** segmentFMP4ReadInit *)

Section ReadInit.

Context {R : Type} `{ReadSeeker R}.

(** The [ftyp] and [moov] boxes of a segment, as they are in the file; the
    length of the result is [ftypSize+moovSize] in [uint32]. *)
Definition segmentFMP4ReadInit : io R (list byte) :=
  (* find ftyp *)
  buf <- readHeader "ftyp" ;;
  let ftypSize := boxSize buf in
  _ <- seek ftypSize SeekStart ;;
  (* find moov *)
  buf <- readHeader "moov" ;;
  let moovSize := boxSize buf in
  _ <- seek 0 SeekStart ;;
  (* return ftyp and moov *)
  readFull (u32 (ftypSize + moovSize)).

End ReadInit.

(** ** The muxer *)

(** [fmp4.PartSample] of mediacommon. *)
Record PartSample : Type := {
  Duration_ : Z;            (* Duration, uint32 *)
  PTSOffset : Z;            (* int32 *)
  IsNonSyncSample : bool;
  Payload : list byte
}.

(** Modelled from the spec: the interface [muxer], declared in a file of the
    package that is not among the sources; section 4.3 gives its three
    capabilities, [set_track(id)], [write_sample(timestamp, sample)] and
    [flush()], the last one able to fail. *)
Class Muxer (M : Type) : Type := {
  setTrack : Z -> M -> M;
  writeSample : Z -> PartSample -> M -> M;
  flush : M -> M * option Z   (* nil, or the code of the muxer's error *)
}.

(** A muxer that records the calls it receives; its [flush] fails when the
    script [rm_flush] says so (an empty script: no failure). *)
Inductive muxCall : Type :=
| CallSetTrack (trackID : Z)
| CallWriteSample (timestamp : Z) (sample : PartSample)
| CallFlush.

Record recMuxer : Type := RecMuxer { rm_calls : list muxCall; rm_flush : list (option Z) }.

Definition rec_flush (m : recMuxer) : recMuxer * option Z :=
  match rm_flush m with
  | [] => (RecMuxer (rm_calls m ++ [CallFlush]) [], None)
  | o :: rest => (RecMuxer (rm_calls m ++ [CallFlush]) rest, o)
  end.

#[export] Instance recMuxer_Muxer : Muxer recMuxer :=
  {| setTrack := fun id m => RecMuxer (rm_calls m ++ [CallSetTrack id]) (rm_flush m);
     writeSample := fun ts s m => RecMuxer (rm_calls m ++ [CallWriteSample ts s]) (rm_flush m);
     flush := rec_flush |}.

Definition newRecMuxer : recMuxer := RecMuxer [] [].

(** The timestamps of the [writeSample] calls, in order. *)
Definition writtenTimestamps (calls : list muxCall) : list Z :=
  flat_map (fun c => match c with CallWriteSample ts _ => [ts] | _ => [] end) calls.

Definition writtenSamples (calls : list muxCall) : list (Z * PartSample) :=
  flat_map (fun c => match c with CallWriteSample ts s => [(ts, s)] | _ => [] end) calls.

(** ** mp4.ReadBoxStructure *)

(** What [h.ReadPayload()] gives on a box: the parsed box, or an error. *)
Inductive payload : Type :=
| PlTfhd (b : Tfhd)
| PlTfdt (b : Tfdt)
| PlTrun (b : Trun)
| PlOther
| PlError (code : Z).

(** What [mp4.ReadBoxStructure] of go-mp4 finds in the reader, as a tree:
    a box has its type, its offset in the file, its payload and its
    children; [Broken c] stands for a place where the library itself fails
    (a truncated header, a child larger than its parent, a failed seek to
    the end of a box), [c] telling the failures apart. The tree holds the
    results of the library; the calls it makes on the reader to get them
    are those of [libraryCalls]. *)
#[warnings="-register-all"]
Inductive box : Type :=
| Box (btype : string) (offset : Z) (pl : payload) (children : list box)
| Broken (code : Z).

(** The variables the two handler closures capture, with the reader and the
    muxer they act on, and the number of accesses the library has made to
    the reader. A nil [*mp4.Tfhd] or [*mp4.Tfdt] is [None]. *)
Record env (R M : Type) : Type := Env {
  rd : R;
  mx : M;
  moofOffset : Z;
  tfhd : option Tfhd;
  tfdt : option Tfdt;
  maxElapsed : Z;
  atLeastOnePartWritten : bool;
  accesses : nat
}.
Arguments Env {R M}.
Arguments rd {R M}.
Arguments mx {R M}.
Arguments moofOffset {R M}.
Arguments tfhd {R M}.
Arguments tfdt {R M}.
Arguments maxElapsed {R M}.
Arguments atLeastOnePartWritten {R M}.
Arguments accesses {R M}.

Section BoxWalk.

Context {R M : Type} `{ReadSeeker R} `{Muxer M} {L : BoxLibrary}.

Definition newEnv (r : R) (w : M) : env R M := Env r w 0 None None 0 false 0.

Definition onReader {A} (m : io R A) : io (env R M) A :=
  fun s =>
    let '(r', res) := m (rd s) in
    (Env r' (mx s) (moofOffset s) (tfhd s) (tfdt s) (maxElapsed s)
         (atLeastOnePartWritten s) (accesses s), res).

Definition onMuxer (f : M -> M) : io (env R M) unit :=
  fun s => (Env (rd s) (f (mx s)) (moofOffset s) (tfhd s) (tfdt s) (maxElapsed s)
                (atLeastOnePartWritten s) (accesses s), Ok tt).

Definition muxerFlush : io (env R M) unit :=
  fun s =>
    let '(w', o) := flush (mx s) in
    (Env (rd s) w' (moofOffset s) (tfhd s) (tfdt s) (maxElapsed s)
         (atLeastOnePartWritten s) (accesses s),
     match o with None => Ok tt | Some c => Err (ErrMuxer c) end).

Definition getEnv : io (env R M) (env R M) := fun s => (s, Ok s).

Definition setMoofOffset (v : Z) : io (env R M) unit :=
  fun s => (Env (rd s) (mx s) v (tfhd s) (tfdt s) (maxElapsed s)
                (atLeastOnePartWritten s) (accesses s), Ok tt).

Definition setTfhd (v : Tfhd) : io (env R M) unit :=
  fun s => (Env (rd s) (mx s) (moofOffset s) (Some v) (tfdt s) (maxElapsed s)
                (atLeastOnePartWritten s) (accesses s), Ok tt).

Definition setTfdt (v : Tfdt) : io (env R M) unit :=
  fun s => (Env (rd s) (mx s) (moofOffset s) (tfhd s) (Some v) (maxElapsed s)
                (atLeastOnePartWritten s) (accesses s), Ok tt).

Definition setMaxElapsed (v : Z) : io (env R M) unit :=
  fun s => (Env (rd s) (mx s) (moofOffset s) (tfhd s) (tfdt s) v
                (atLeastOnePartWritten s) (accesses s), Ok tt).

Definition setAtLeastOnePartWritten : io (env R M) unit :=
  fun s => (Env (rd s) (mx s) (moofOffset s) (tfhd s) (tfdt s) (maxElapsed s) true
                (accesses s), Ok tt).

Definition panic {A} : io (env R M) A := fun s => (s, Panicked).

(** One access of the library to the reader: its calls are made on [r],
    and the count goes up. *)
Definition libraryAccess : io (env R M) unit :=
  fun s => (Env (runCalls (libraryCalls (accesses s)) (rd s)) (mx s) (moofOffset s)
                (tfhd s) (tfdt s) (maxElapsed s) (atLeastOnePartWritten s)
                (S (accesses s)), Ok tt).

(** A handler receives the box ([h.BoxInfo], [h.ReadPayload]) and
    [h.Expand], which visits the children with the same handler. *)
Definition handler : Type :=
  string -> Z -> payload -> io (env R M) unit -> io (env R M) unit.

(** [mp4.ReadBoxStructure(r, handler)]: the boxes are visited in file
    order; the first error, of the handler or of the library, ends the
    visit and is returned. The library goes to the reader for the header of
    a box before it calls the handler, for the payload of a parent before it
    visits the children ([h.Expand]), and to leave a box once the handler
    has returned without an error; also where it fails. *)
Fixpoint visitBox (h : handler) (b : box) : io (env R M) unit :=
  match b with
  | Broken c => libraryAccess ;; fail (ErrBoxStructure c)
  | Box ty off pl children =>
      libraryAccess ;;
      h ty off pl
        (libraryAccess ;;
         (fix visitChildren (bs : list box) : io (env R M) unit :=
            match bs with
            | [] => ret tt
            | c :: cs => visitBox h c ;; visitChildren cs
            end) children) ;;
      libraryAccess
  end.

Fixpoint visitBoxes (h : handler) (bs : list box) : io (env R M) unit :=
  match bs with
  | [] => ret tt
  | b :: bs' => visitBox h b ;; visitBoxes h bs'
  end.

(** The walk starts with an access (the seek to the start of the file) and,
    when it has gone through the boxes, ends with one (the read that finds
    the end of the file). *)
Definition ReadBoxStructure (h : handler) (bs : list box) : io (env R M) unit :=
  libraryAccess ;; visitBoxes h bs ;; libraryAccess.

(** [box, _, err := h.ReadPayload(); if err != nil { return nil, err }]:
    the library reads the payload of the box from [r]. *)
Definition readPayload (pl : payload) : io (env R M) payload :=
  libraryAccess ;;
  match pl with
  | PlError c => fail (ErrBoxStructure c)
  | _ => ret pl
  end.

Definition partSampleOf (e : TrunEntry) (data : list byte) : PartSample :=
  {| Duration_ := u32 (SampleDuration e);
     PTSOffset := i32 (SampleCompositionTimeOffsetV1 e);
     IsNonSyncSample := negb (Z.land (u32 (SampleFlags e)) sampleFlagIsNonSyncSample =? 0);
     Payload := data |}.

(** *** segmentFMP4SeekAndMuxParts *)

(** [for _, e := range trun.Entries { ... }] of the "trun" case; the value
    is [elapsed] when the loop ends or breaks. *)
Fixpoint seekEntries (minTimeMP4 maxTimeMP4 : Z) (entries : list TrunEntry)
    (elapsed : Z) : io (env R M) Z :=
  match entries with
  | [] => ret elapsed
  | e :: rest =>
      data <- onReader (readFull (u32 (SampleSize e))) ;;
      if elapsed >=? maxTimeMP4 then ret elapsed else
      let normalizedElapsed := i64 (i64 elapsed - i64 minTimeMP4) in
      (if normalizedElapsed >=? 0 then setAtLeastOnePartWritten else ret tt) ;;
      onMuxer (writeSample normalizedElapsed (partSampleOf e data)) ;;
      seekEntries minTimeMP4 maxTimeMP4 rest (u64 (elapsed + u32 (SampleDuration e)))
  end.

Definition seekHandler (minTimeMP4 maxTimeMP4 : Z) : handler :=
  fun ty off pl expand =>
    if String.eqb ty "moof" then
      setMoofOffset off ;; expand
    else if String.eqb ty "traf" then
      expand
    else if String.eqb ty "tfhd" then
      b <- readPayload pl ;;
      match b with PlTfhd t => setTfhd t | _ => panic end
    else if String.eqb ty "tfdt" then
      b <- readPayload pl ;;
      match b with
      | PlTfdt t =>
          setTfdt t ;;
          if u64 (BaseMediaDecodeTimeV1 t) >=? maxTimeMP4 then fail errTerminated else
          s <- getEnv ;;
          match tfhd s with
          | None => panic
          | Some th => onMuxer (setTrack (u32 (TrackID th)))
          end
      | _ => panic
      end
    else if String.eqb ty "trun" then
      b <- readPayload pl ;;
      match b with
      | PlTrun trun =>
          s <- getEnv ;;
          let dataOffset := u64 (moofOffset s + u64 (i32 (DataOffset trun))) in
          _ <- onReader (seek (i64 dataOffset) SeekStart) ;;
          match tfdt s with
          | None => panic
          | Some td =>
              elapsed <- seekEntries minTimeMP4 maxTimeMP4 (Entries trun)
                           (u64 (BaseMediaDecodeTimeV1 td)) ;;
              s' <- getEnv ;;
              if elapsed >? maxElapsed s' then setMaxElapsed elapsed else ret tt
          end
      | _ => panic
      end
    else if String.eqb ty "mdat" then
      muxerFlush
    else ret tt.

Definition segmentFMP4SeekAndMuxParts (bs : list box) (r : R)
    (minTime maxTime : Duration) (w : M) : env R M * result Duration :=
  let minTimeMP4 := durationGoToMp4 minTime fmp4Timescale in
  let maxTimeMP4 := durationGoToMp4 maxTime fmp4Timescale in
  let '(s, res) := ReadBoxStructure (seekHandler minTimeMP4 maxTimeMP4) bs (newEnv r w) in
  let continue :=
    if negb (atLeastOnePartWritten s) then (s, Err errNoSegmentsFound) else
    (s, Ok (durationMp4ToGo (u64 (maxElapsed s - minTimeMP4)) fmp4Timescale)) in
  match res with
  | Ok _ => continue
  | Err e => if error_eqb e errTerminated then continue else (s, Err e)
  | Panicked => (s, Panicked)
  | OutOfFuel => (s, OutOfFuel)
  end.

(** *** segmentFMP4WriteParts *)

Fixpoint writeEntries (startTime : Duration) (maxTimeMP4 : Z) (entries : list TrunEntry)
    (elapsed : Z) : io (env R M) Z :=
  match entries with
  | [] => ret elapsed
  | e :: rest =>
      data <- onReader (readFull (u32 (SampleSize e))) ;;
      if elapsed >=? maxTimeMP4 then ret elapsed else
      let normalizedElapsed :=
        i64 (i64 elapsed + i64 (durationGoToMp4 startTime fmp4Timescale)) in
      onMuxer (writeSample normalizedElapsed (partSampleOf e data)) ;;
      writeEntries startTime maxTimeMP4 rest (u64 (elapsed + u32 (SampleDuration e)))
  end.

Definition writeHandler (startTime : Duration) (maxTimeMP4 : Z) : handler :=
  fun ty off pl expand =>
    if String.eqb ty "moof" then
      setMoofOffset off ;; expand
    else if String.eqb ty "traf" then
      expand
    else if String.eqb ty "tfhd" then
      b <- readPayload pl ;;
      match b with PlTfhd t => setTfhd t | _ => panic end
    else if String.eqb ty "tfdt" then
      b <- readPayload pl ;;
      match b with
      | PlTfdt t =>
          setTfdt t ;;
          if u64 (BaseMediaDecodeTimeV1 t) >=? maxTimeMP4 then fail errTerminated else
          s <- getEnv ;;
          match tfhd s with
          | None => panic
          | Some th => onMuxer (setTrack (u32 (TrackID th)))
          end
      | _ => panic
      end
    else if String.eqb ty "trun" then
      b <- readPayload pl ;;
      match b with
      | PlTrun trun =>
          s <- getEnv ;;
          let dataOffset := u64 (moofOffset s + u64 (i32 (DataOffset trun))) in
          _ <- onReader (seek (i64 dataOffset) SeekStart) ;;
          match tfdt s with
          | None => panic
          | Some td =>
              elapsed <- writeEntries startTime maxTimeMP4 (Entries trun)
                           (u64 (BaseMediaDecodeTimeV1 td)) ;;
              s' <- getEnv ;;
              if elapsed >? maxElapsed s' then setMaxElapsed elapsed else ret tt
          end
      | _ => panic
      end
    else if String.eqb ty "mdat" then
      muxerFlush
    else ret tt.

Definition segmentFMP4WriteParts (bs : list box) (r : R)
    (startTime maxTime : Duration) (w : M) : env R M * result Duration :=
  let maxTimeMP4 := durationGoToMp4 maxTime fmp4Timescale in
  let '(s, res) := ReadBoxStructure (writeHandler startTime maxTimeMP4) bs (newEnv r w) in
  let continue := (s, Ok (durationMp4ToGo (maxElapsed s) fmp4Timescale)) in
  match res with
  | Ok _ => continue
  | Err e => if error_eqb e errTerminated then continue else (s, Err e)
  | Panicked => (s, Panicked)
  | OutOfFuel => (s, OutOfFuel)
  end.

End BoxWalk.

(** ** Well-formed segments *)

(** A segment as section 3 of the spec has it: after [ftyp] and [moov], a
    sequence of fragments, each a [moof] (with its [mfhd] and its [traf]s,
    every [traf] holding one [tfhd], one [tfdt] and one [trun], in that
    order) followed by its [mdat]. *)
Record trackFragment : Type := {
  tf_trackID : Z;
  tf_base : Z;                  (* tfdt.BaseMediaDecodeTimeV1 *)
  tf_dataOffset : Z;            (* trun.DataOffset *)
  tf_entries : list TrunEntry
}.

Record fragment : Type := {
  fg_offset : Z;                (* offset of the moof box *)
  fg_trafs : list trackFragment
}.

Definition trafBox (t : trackFragment) : box :=
  Box "traf" 0 PlOther
    [ Box "tfhd" 0 (PlTfhd {| TrackID := tf_trackID t |}) [];
      Box "tfdt" 0 (PlTfdt {| BaseMediaDecodeTimeV1 := tf_base t |}) [];
      Box "trun" 0 (PlTrun {| DataOffset := tf_dataOffset t;
                              Entries := tf_entries t |}) [] ].

Definition fragmentBoxes (f : fragment) : list box :=
  [ Box "moof" (fg_offset f) PlOther
      (Box "mfhd" 0 PlOther [] :: map trafBox (fg_trafs f));
    Box "mdat" 0 PlOther [] ].

(** The boxes [mp4.ReadBoxStructure] visits on a well-formed segment. *)
Definition segmentBoxes (seg : list fragment) : list box :=
  Box "ftyp" 0 PlOther [] :: Box "moov" 0 PlOther [] :: flat_map fragmentBoxes seg.

(** The media times of the samples that are handed to the muxer, in the
    words of the spec (4.2.3 and 4.2.4): in each track fragment, [elapsed]
    starts at [tfdt.baseMediaDecodeTime] and advances by the duration of
    each sample; the samples of a track fragment are taken until
    [elapsed >= maxT]; the walk is given up at the first track fragment
    whose [baseMediaDecodeTime >= maxT]. Times are [uint64]. *)
Fixpoint elapsedOfEntries (maxT : Z) (elapsed : Z) (entries : list TrunEntry) : list Z :=
  match entries with
  | [] => []
  | e :: rest =>
      if elapsed >=? maxT then []
      else elapsed :: elapsedOfEntries maxT (u64 (elapsed + u32 (SampleDuration e))) rest
  end.

Fixpoint elapsedOfTrafs (maxT : Z) (ts : list trackFragment) : list Z :=
  match ts with
  | [] => []
  | t :: rest =>
      if u64 (tf_base t) >=? maxT then []
      else elapsedOfEntries maxT (u64 (tf_base t)) (tf_entries t)
           ++ elapsedOfTrafs maxT rest
  end.

Definition emittedElapsed (maxT : Z) (seg : list fragment) : list Z :=
  elapsedOfTrafs maxT (flat_map fg_trafs seg).

(** The samples themselves, in the words of the spec (3 and 4.2.3): a
    sample has its duration, its composition-time offset, the non-sync mark
    (bit 16, [0x00010000], of its flags) and its payload; the payloads of a
    track fragment lie one after the other in the file, from
    [moofOffset + trun.dataOffset] on. With each sample, the media time at
    which it is taken. *)
Definition sampleAt (data : list byte) (pos : Z) (e : TrunEntry) : PartSample :=
  {| Duration_ := SampleDuration e;
     PTSOffset := SampleCompositionTimeOffsetV1 e;
     IsNonSyncSample := Z.testbit (SampleFlags e) 16;
     Payload := slice data pos (SampleSize e) |}.

Fixpoint samplesOfEntries (data : list byte) (maxT elapsed pos : Z)
    (entries : list TrunEntry) : list (Z * PartSample) :=
  match entries with
  | [] => []
  | e :: rest =>
      if elapsed >=? maxT then []
      else (elapsed, sampleAt data pos e)
           :: samplesOfEntries data maxT (u64 (elapsed + u32 (SampleDuration e)))
                (pos + SampleSize e) rest
  end.

(** The track fragments come with the offset of their [moof]. *)
Fixpoint samplesOfTrafs (data : list byte) (maxT : Z)
    (ts : list (Z * trackFragment)) : list (Z * PartSample) :=
  match ts with
  | [] => []
  | (moofOff, t) :: rest =>
      if u64 (tf_base t) >=? maxT then []
      else samplesOfEntries data maxT (u64 (tf_base t)) (moofOff + tf_dataOffset t)
             (tf_entries t)
           ++ samplesOfTrafs data maxT rest
  end.

Definition trafsWithOffset (seg : list fragment) : list (Z * trackFragment) :=
  flat_map (fun f => map (pair (fg_offset f)) (fg_trafs f)) seg.

Definition emittedSamples (data : list byte) (maxT : Z) (seg : list fragment) :
    list (Z * PartSample) :=
  samplesOfTrafs data maxT (trafsWithOffset seg).

(** The numbers of a segment are within their types: [uint32] durations
    and sizes, [int32] offsets, and [moof] offsets that a file can have. *)
Definition entryInRange (e : TrunEntry) : Prop :=
  0 <= SampleDuration e < 2 ^ 32
  /\ 0 <= SampleSize e < 2 ^ 32
  /\ - 2 ^ 31 <= SampleCompositionTimeOffsetV1 e < 2 ^ 31.

Definition trafInRange (t : trackFragment) : Prop :=
  - 2 ^ 31 <= tf_dataOffset t < 2 ^ 31 /\ Forall entryInRange (tf_entries t).

Definition fragmentInRange (f : fragment) : Prop :=
  0 <= fg_offset f < 2 ^ 62 /\ Forall trafInRange (fg_trafs f).

(** An entry of [trun] with a duration and a size, and a segment of one
    track with samples of one second each, to run the code on. *)
Definition entry (duration size : Z) : TrunEntry :=
  {| SampleDuration := duration; SampleSize := size; SampleFlags := 0;
     SampleCompositionTimeOffsetV1 := 0 |}.

Definition oneTrack (base : Z) (entries : list TrunEntry) : list fragment :=
  [ {| fg_offset := 0;
       fg_trafs := [ {| tf_trackID := 1; tf_base := base; tf_dataOffset := 0;
                        tf_entries := entries |} ] |} ].

(** A library to run the code with: at each access it asks for the
    position and reads 8 bytes, as for the header of a box. *)
Definition headerReads : BoxLibrary :=
  {| libraryCalls := fun _ => [CallSeek 0 SeekCurrent; CallRead 8] |}.

(** ** The RTSP source worker *)

Module RTSP.

Inductive level : Type := Debug | Info | Warn.

Definition rtspSourceRetryPause : Duration := 5 * Second.

(** What the worker does that others can observe, in order. *)
Inductive event : Type :=
| EvLog (l : level) (msg : string)   (* parent.log *)
| EvSetReady (accepted : bool)       (* parent.onSourceStaticSetReady; res.Err == nil? *)
| EvSetNotReady                      (* parent.OnSourceStaticSetNotReady *)
| EvClientClose                      (* c.Close() *)
| EvRetryPause (d : Duration)        (* the select on time.After(d) is entered *)
| EvCtxCancel                        (* s.ctxCancel() *)
| EvWgAdd                            (* s.wg.Add(1) *)
| EvWgDone.                          (* s.wg.Done() *)

(** [s.log(level, format, args...)] *)
Definition log (l : level) (msg : string) : event :=
  EvLog l ("[rtsp source] " ++ msg).

(** [s.log(logger.Info, "ERR: %s", err)] *)
Definition logErr (err : option string) : event :=
  log Info ("ERR: " ++ match err with Some e => e | None => "%!s(<nil>)" end).

(** One connection attempt, as the environment answers it: the results of
    the calls on the URL parser, on the gortsplib client and on the parent
    (an error is its message, [None] is nil), and what the two [select]
    statements receive. [cancelAt = Some k]: the context is done and the
    [select] of [runInner] takes that case when the session goroutine has
    produced [k] of its events. [pauseCancelled]: the context is done before
    the retry pause elapses. *)
Record attempt : Type := {
  parseURLErr : option string;
  startErr : option string;
  optionsErr : option string;
  describeRes : string + list Z;       (* error, or the tracks *)
  setupErr : Z -> option string;       (* per track *)
  setReadyErr : option string;         (* res.Err of the parent *)
  playErr : option string;
  waitErr : option string;
  cancelAt : option nat;
  pauseCancelled : bool
}.

(** How the function run by the session goroutine ends. *)
Inductive goOutcome : Type :=
| GoReturn (err : option string)
| GoPanic (err : string).

(** [for _, t := range tracks { _, err := c.Setup(...); if err != nil { panic(err) } }] *)
Fixpoint setupTracks (setup : Z -> option string) (tracks : list Z) : option string :=
  match tracks with
  | [] => None
  | t :: rest =>
      match setup t with
      | Some e => Some e
      | None => setupTracks setup rest
      end
  end.

(** The function literal whose value is sent on [readErr]. The deferred
    not-ready call runs on every return after it was registered. *)
Definition session (a : attempt) : list event * goOutcome :=
  match optionsErr a with
  | Some e => ([], GoReturn (Some e))
  | None =>
      match describeRes a with
      | inl e => ([], GoReturn (Some e))
      | inr tracks =>
          match setupTracks (setupErr a) tracks with
          | Some e => ([], GoPanic e)
          | None =>
              match setReadyErr a with
              | Some e => ([EvSetReady false], GoReturn (Some e))
              | None =>
                  let evs := [EvSetReady true; log Info "ready"] in
                  match playErr a with
                  | Some e => (evs ++ [EvSetNotReady], GoReturn (Some e))
                  | None => (evs ++ [EvSetNotReady], GoReturn (waitErr a))
                  end
              end
          end
      end
  end.

(** How [runInner] ends: its boolean, or the process dying of the panic of
    the session goroutine. *)
Inductive innerOutcome : Type :=
| InnerReturn (ok : bool)
| InnerCrash (err : string).

Definition runInner (a : attempt) : list event * innerOutcome :=
  let connecting := log Debug "connecting" in
  match parseURLErr a with
  | Some e => ([connecting; logErr (Some e)], InnerReturn true)
  | None =>
      match startErr a with
      | Some e => ([connecting; logErr (Some e)], InnerReturn true)
      | None =>
          let '(evs, out) := session a in
          match cancelAt a, out with
          | None, GoReturn err =>
              (connecting :: evs ++ [logErr err], InnerReturn true)
          | None, GoPanic e =>
              (connecting :: evs, InnerCrash e)
          | Some k, GoReturn _ =>
              (connecting :: firstn k evs ++ [EvClientClose] ++ skipn k evs,
               InnerReturn false)
          | Some k, GoPanic e =>
              (connecting :: firstn k evs ++ [EvClientClose] ++ skipn k evs,
               InnerCrash e)
          end
      end
  end.

(** How far [run] got on a script of attempts. *)
Inductive runStatus : Type :=
| Terminated               (* the loop was left; run returned *)
| Crashed (err : string)   (* a panic killed the process *)
| Retrying.                (* the script is used up; the loop goes on *)

(** The [for] loop of [run]: one attempt of the script per iteration. The
    boolean says whether the loop was left by [break]. *)
Fixpoint retryLoop (script : list attempt) : list event * runStatus :=
  match script with
  | [] => ([], Retrying)
  | a :: rest =>
      let '(evs, out) := runInner a in
      match out with
      | InnerCrash e => (evs, Crashed e)
      | InnerReturn false => (evs, Terminated)
      | InnerReturn true =>
          if pauseCancelled a
          then (evs ++ [EvRetryPause rtspSourceRetryPause], Terminated)
          else
            let '(evs', st) := retryLoop rest in
            (evs ++ [EvRetryPause rtspSourceRetryPause] ++ evs', st)
      end
  end.

(** [run]: the loop, then [s.ctxCancel()] and the deferred [s.wg.Done()]. *)
Definition run (script : list attempt) : list event * runStatus :=
  let '(evs, st) := retryLoop script in
  match st with
  | Terminated => (evs ++ [EvCtxCancel; EvWgDone], Terminated)
  | _ => (evs, st)
  end.







(** Counters over a trace. *)
Definition isSetReady (e : event) : bool :=
  match e with EvSetReady _ => true | _ => false end.

Definition isSetReadyAccepted (e : event) : bool :=
  match e with EvSetReady true => true | _ => false end.

Definition isSetNotReady (e : event) : bool :=
  match e with EvSetNotReady => true | _ => false end.

Definition isErrLog (e : event) : bool :=
  match e with
  | EvLog Info msg => String.prefix "[rtsp source] ERR: " msg
  | _ => false
  end.

Definition isRetryPause (e : event) : bool :=
  match e with EvRetryPause _ => true | _ => false end.

Definition count (p : event -> bool) (evs : list event) : nat :=
  List.length (filter p evs).

(** Attempts to run the worker on. A server that answers every request,
    with one track, and streams until the connection ends: *)
Definition streaming : attempt :=
  {| parseURLErr := None; startErr := None; optionsErr := None;
     describeRes := inr [0]; setupErr := fun _ => None; setReadyErr := None;
     playErr := None; waitErr := Some "EOF"%string;
     cancelAt := None; pauseCancelled := false |}.

(** The same server refusing the SETUP of its track. *)
Definition setupRefused : attempt :=
  {| parseURLErr := None; startErr := None; optionsErr := None;
     describeRes := inr [0]; setupErr := fun _ => Some "bad status code: 461"%string;
     setReadyErr := None; playErr := None; waitErr := Some "EOF"%string;
     cancelAt := None; pauseCancelled := false |}.

(** The same server refusing OPTIONS. *)
Definition optionsRefused : attempt :=
  {| parseURLErr := None; startErr := None; optionsErr := Some "bad status code: 400"%string;
     describeRes := inr [0]; setupErr := fun _ => None; setReadyErr := None;
     playErr := None; waitErr := Some "EOF"%string;
     cancelAt := None; pauseCancelled := false |}.

(** The parent refusing the source, and the worker closed during the pause
    that follows. *)
Definition parentRefuses : attempt :=
  {| parseURLErr := None; startErr := None; optionsErr := None;
     describeRes := inr [0]; setupErr := fun _ => None;
     setReadyErr := Some "path closed"%string;
     playErr := None; waitErr := Some "EOF"%string;
     cancelAt := None; pauseCancelled := true |}.

End RTSP.

(** * Properties *)

(** ** Fixed-width integers *)

Lemma u64_range x : 0 <= u64 x < two64.
Proof. unfold u64, two64. apply Z.mod_pos_bound. lia. Qed.

Lemma u32_range x : 0 <= u32 x < two32.
Proof. unfold u32, two32. apply Z.mod_pos_bound. lia. Qed.

Lemma i64_range x : - two63 <= i64 x < two63.
Proof.
  unfold i64. pose proof (Z.mod_pos_bound (x + two63) two64).
  unfold two63, two64 in *. lia.
Qed.

Lemma u64_small x : 0 <= x < two64 -> u64 x = x.
Proof. intros H. unfold u64. now apply Z.mod_small. Qed.

Lemma u32_small x : 0 <= x < two32 -> u32 x = x.
Proof. intros H. unfold u32. now apply Z.mod_small. Qed.

Lemma i64_small x : - two63 <= x < two63 -> i64 x = x.
Proof.
  intros H. unfold i64. rewrite Z.mod_small; unfold two63, two64 in *; lia.
Qed.

Lemma u32_lt_two64 x : 0 <= u32 x < two64.
Proof. pose proof (u32_range x). unfold two32, two64 in *. lia. Qed.


Example durationGoToMp4_10s : durationGoToMp4 (10 * Second) fmp4Timescale = 900000.
Proof. reflexivity. Qed.

Example durationMp4ToGo_1tick : durationMp4ToGo 1 fmp4Timescale = 11111.
Proof. reflexivity. Qed.

Example durationGoToMp4_minus_1s :
  durationGoToMp4 (- Second) fmp4Timescale = two64 - 90000.
Proof. reflexivity. Qed.


(** ** Tick arithmetic *)

Lemma mp4ToGo_exact v :
  0 <= v < 2 ^ 49 ->
  durationMp4ToGo v fmp4Timescale
  = v / 90000 * Second + v mod 90000 * Second / 90000.
Proof.
  intros Hv. cbv beta zeta delta [durationMp4ToGo fmp4Timescale Second].
  rewrite (u64_small 90000) by (unfold two64; lia).
  assert (Hq : 0 <= v / 90000 < 6254999773) by
    (split; [apply Z.div_pos; lia | apply Z.div_lt_upper_bound; lia]).
  pose proof (Z.mod_pos_bound v 90000 ltac:(lia)) as Hr.
  assert (Hx : 0 <= v mod 90000 * 1000000000 / 90000 < 1000000000) by
    (split; [apply Z.div_pos; lia | apply Z.div_lt_upper_bound; lia]).
  rewrite (i64_small 90000) by (unfold two63; lia).
  rewrite (i64_small (v / 90000)), (i64_small (v mod 90000)) by (unfold two63; lia).
  rewrite (i64_small (v / 90000 * 1000000000)) by (unfold two63; nia).
  rewrite (i64_small (v mod 90000 * 1000000000)) by (unfold two63; nia).
  rewrite Z.quot_div_nonneg by lia.
  rewrite i64_small by (unfold two63; nia).
  reflexivity.
Qed.

Lemma mp4ToGo_nonneg v :
  0 <= v < 2 ^ 49 -> 0 <= durationMp4ToGo v fmp4Timescale.
Proof.
  intros Hv. rewrite mp4ToGo_exact by assumption. unfold Second.
  assert (0 <= v / 90000) by (apply Z.div_pos; lia).
  pose proof (Z.mod_pos_bound v 90000 ltac:(lia)).
  assert (0 <= v mod 90000 * 1000000000 / 90000) by (apply Z.div_pos; lia).
  lia.
Qed.

Lemma goToMp4_exact d :
  0 <= d < two63 ->
  durationGoToMp4 d fmp4Timescale
  = d / Second * 90000 + d mod Second * 90000 / Second.
Proof.
  intros Hd. cbv beta zeta delta [durationGoToMp4 fmp4Timescale Second].
  unfold two63 in Hd.
  rewrite Z.quot_div_nonneg, Z.rem_mod_nonneg by lia.
  assert (Hq : 0 <= d / 1000000000 < 9223372037) by
    (split; [apply Z.div_pos; lia | apply Z.div_lt_upper_bound; lia]).
  pose proof (Z.mod_pos_bound d 1000000000 ltac:(lia)) as Hr.
  assert (Hy : 0 <= d mod 1000000000 * 90000 / 1000000000 < 90000) by
    (split; [apply Z.div_pos; lia | apply Z.div_lt_upper_bound; lia]).
  rewrite (u64_small 90000), (u64_small 1000000000) by (unfold two64; lia).
  rewrite (u64_small (d / 1000000000)) by (unfold two64; lia).
  rewrite (u64_small (d mod 1000000000)) by (unfold two64; lia).
  rewrite (u64_small (d / 1000000000 * 90000)) by (unfold two64; nia).
  rewrite (u64_small (d mod 1000000000 * 90000)) by (unfold two64; nia).
  rewrite u64_small by (unfold two64; nia).
  reflexivity.
Qed.

Lemma goToMp4_bounds d :
  0 <= d < two63 ->
  0 <= durationGoToMp4 d fmp4Timescale <= d / Second * 90000 + 89999.
Proof.
  intros Hd. rewrite goToMp4_exact by assumption. unfold Second.
  unfold two63 in Hd.
  assert (0 <= d / 1000000000) by (apply Z.div_pos; lia).
  pose proof (Z.mod_pos_bound d 1000000000 ltac:(lia)) as Hr.
  assert (Hy : 0 <= d mod 1000000000 * 90000 / 1000000000 < 90000) by
    (split; [apply Z.div_pos; lia | apply Z.div_lt_upper_bound; lia]).
  lia.
Qed.

(** A fraction of a second in ticks, taken to nanoseconds and back, loses
    one tick unless it is a whole number of nanoseconds (a multiple of 9
    ticks). *)
Lemma ticks_there_and_back r :
  0 <= r < 90000 ->
  r * 1000000000 / 90000 * 90000 / 1000000000
  = if r mod 9 =? 0 then r else r - 1.
Proof.
  intros Hr.
  pose proof (Z.div_mod (r * 1000000000) 90000 ltac:(lia)) as E1.
  pose proof (Z.mod_pos_bound (r * 1000000000) 90000 ltac:(lia)) as B1.
  set (x := r * 1000000000 / 90000) in *.
  pose proof (Z.div_mod (x * 90000) 1000000000 ltac:(lia)) as E2.
  pose proof (Z.mod_pos_bound (x * 90000) 1000000000 ltac:(lia)) as B2.
  set (y := x * 90000 / 1000000000) in *.
  pose proof (Z.div_mod r 9 ltac:(lia)) as E3.
  pose proof (Z.mod_pos_bound r 9 ltac:(lia)) as B3.
  destruct (Z.eqb_spec (r mod 9) 0) as [E | E]; lia.
Qed.

Lemma roundtrip_ticks v :
  0 <= v < two32 ->
  durationGoToMp4 (durationMp4ToGo v fmp4Timescale) fmp4Timescale
  = if v mod 9 =? 0 then v else v - 1.
Proof.
  intros Hv. unfold two32 in Hv. rewrite mp4ToGo_exact by lia.
  unfold Second.
  assert (Hq : 0 <= v / 90000 < 47722) by
    (split; [apply Z.div_pos; lia | apply Z.div_lt_upper_bound; lia]).
  pose proof (Z.mod_pos_bound v 90000 ltac:(lia)) as Hr.
  assert (Hx : 0 <= v mod 90000 * 1000000000 / 90000 < 1000000000) by
    (split; [apply Z.div_pos; lia | apply Z.div_lt_upper_bound; lia]).
  rewrite goToMp4_exact by (unfold two63; nia).
  unfold Second.
  set (x := v mod 90000 * 1000000000 / 90000) in *.
  replace ((v / 90000 * 1000000000 + x) / 1000000000) with (v / 90000)
    by (apply Z.div_unique with (r := x); lia).
  replace ((v / 90000 * 1000000000 + x) mod 1000000000) with x
    by (apply Z.mod_unique with (q := v / 90000); lia).
  subst x. rewrite ticks_there_and_back by lia.
  replace ((v mod 90000) mod 9) with (v mod 9)
    by (symmetry; apply Z.mod_mod_divide; exists 10000; lia).
  pose proof (Z.div_mod v 90000 ltac:(lia)).
  destruct (v mod 9 =? 0); lia.
Qed.

(** C4, corrected. For every tick value [v] in [[0, 2^32)], taking [v] to a
    duration and back at scale 90000 gives [v] when [v] is a multiple of 9
    and [v - 1] otherwise: the result is never above [v] and never more than
    one tick below. *)
Theorem C4_roundtrip_within_one_tick v :
  0 <= v < 2 ^ 32 ->
  durationGoToMp4 (durationMp4ToGo v 90000) 90000
  = (if v mod 9 =? 0 then v else v - 1).
Proof. intros Hv. apply roundtrip_ticks. exact Hv. Qed.

Lemma C4_roundtrip_within_one_tick_witness :
  0 <= 90001 < 2 ^ 32 /\
  durationGoToMp4 (durationMp4ToGo 90001 90000) 90000 = 90000.
Proof.
  split; [lia | exact (C4_roundtrip_within_one_tick 90001 ltac:(lia))].
Defined.

(** One tick is 11111 ns (truncated), and 11111 ns are zero ticks. *)
Lemma C4_roundtrip_counterexample :
  ~ (forall v, 0 <= v < 2 ^ 32 ->
       durationGoToMp4 (durationMp4ToGo v 90000) 90000 = v).
Proof.
  intros H. specialize (H 1 ltac:(lia)). vm_compute in H. discriminate H.
Qed.

(** ** Concatenation predicate *)

Lemma bytesEqual_iff a b : bytesEqual a b = true <-> a = b.
Proof.
  revert b. induction a as [| x a IH]; intros [| y b]; simpl;
    try (split; [discriminate | congruence]); try tauto.
  rewrite andb_true_iff, IH. split.
  - intros [Hxy ->]. f_equal. now apply byte_dec_bl.
  - intros E. injection E as -> ->. split; [| reflexivity].
    now apply byte_dec_lb.
Qed.

Lemma canBeConcatenated_iff prevInit prevEnd curInit curStart :
  segmentFMP4CanBeConcatenated prevInit prevEnd curInit curStart = true
  <-> prevInit = curInit /\ Z.abs (curStart - prevEnd) <= 500 * Millisecond.
Proof.
  unfold segmentFMP4CanBeConcatenated, timeBefore, timeAfter, timeAdd,
    concatenationTolerance, Millisecond.
  rewrite !andb_true_iff, !negb_true_iff, !Z.ltb_ge, bytesEqual_iff.
  split; intros H; repeat split; try tauto; lia.
Qed.

(** C5. [segmentFMP4CanBeConcatenated] is true exactly when the two init
    sections are the same bytes and the current segment starts within
    500 ms of the end of the previous one, both bounds included; so an
    offset of 400 ms with the same init is accepted, and an offset of 600 ms
    or an init that differs in one byte is rejected. *)
Theorem C5_can_concatenate :
  (forall prevInit prevEnd curInit curStart,
     segmentFMP4CanBeConcatenated prevInit prevEnd curInit curStart = true
     <-> prevInit = curInit /\ Z.abs (curStart - prevEnd) <= 500 * Millisecond)
  /\ (forall init t,
        segmentFMP4CanBeConcatenated init t init (t + 400 * Millisecond) = true)
  /\ (forall init t,
        segmentFMP4CanBeConcatenated init t init (t + 600 * Millisecond) = false)
  /\ (forall pre post x y t t',
        x <> y ->
        segmentFMP4CanBeConcatenated (pre ++ x :: post) t (pre ++ y :: post) t' = false).
Proof.
  split; [| split; [| split]].
  - apply canBeConcatenated_iff.
  - intros init t. apply canBeConcatenated_iff. split; [reflexivity |].
    unfold Millisecond. lia.
  - intros init t. apply not_true_is_false. intros H.
    apply canBeConcatenated_iff in H. unfold Millisecond in H. lia.
  - intros pre post x y t t' Hxy. apply not_true_is_false. intros H.
    apply canBeConcatenated_iff in H. destruct H as [E _].
    apply app_inv_head in E. congruence.
Qed.

Lemma C5_can_concatenate_witness :
  segmentFMP4CanBeConcatenated [x00; x01] 0 [x00; x01] (500 * Millisecond) = true
  /\ segmentFMP4CanBeConcatenated [x00; x01] 0 [x00; x01] (- (500 * Millisecond)) = true
  /\ segmentFMP4CanBeConcatenated [x00; x01] 0 [x00; x01] (500 * Millisecond + 1) = false
  /\ segmentFMP4CanBeConcatenated [x00; x01] 7 [x00; x02] 7 = false.
Proof.
  destruct C5_can_concatenate as [Hiff [_ [_ Hbyte]]].
  split; [| split; [| split]].
  - apply Hiff. split; [reflexivity | vm_compute; discriminate].
  - apply Hiff. split; [reflexivity | vm_compute; discriminate].
  - apply not_true_is_false. intros H. apply Hiff in H.
    destruct H as [_ H]. vm_compute in H. apply H. reflexivity.
  - apply (Hbyte [x00] [] x01 x02 7 7). discriminate.
Defined.

(** ** segmentFMP4ReadMaxDuration: errors of the scan *)

Section ScanErrors.

Context {R : Type} `{ReadSeeker R}.

(** One iteration of the scan, case by case. *)
Lemma scanPairs_unfold fuel last (r : R) :
  scanPairs (S fuel) last r =
  match seek 0 SeekCurrent r with
  | (r1, Ok moofPos) =>
      match readFull 8 r1 with
      | (r2, Ok buf) =>
          if negb (hasTag buf "moof") then (r2, Err (ErrBoxNotFound "moof")) else
          match seek (boxSize buf - 8) SeekCurrent r2 with
          | (r3, Ok _) =>
              match readFull 8 r3 with
              | (r4, Ok buf2) =>
                  if negb (hasTag buf2 "mdat") then (r4, Err (ErrBoxNotFound "mdat")) else
                  match seek (boxSize buf2 - 8) SeekCurrent r4 with
                  | (r5, Ok _) => scanPairs fuel moofPos r5
                  | (r5, Err _) => (r5, Ok last)
                  | (r5, Panicked) => (r5, Panicked)
                  | (r5, OutOfFuel) => (r5, OutOfFuel)
                  end
              | (r4, Err _) => (r4, Ok last)
              | (r4, Panicked) => (r4, Panicked)
              | (r4, OutOfFuel) => (r4, OutOfFuel)
              end
          | (r3, Err _) => (r3, Ok last)
          | (r3, Panicked) => (r3, Panicked)
          | (r3, OutOfFuel) => (r3, OutOfFuel)
          end
      | (r2, Err _) => (r2, Ok last)
      | (r2, Panicked) => (r2, Panicked)
      | (r2, OutOfFuel) => (r2, OutOfFuel)
      end
  | (r1, Err e) => (r1, Err e)
  | (r1, Panicked) => (r1, Panicked)
  | (r1, OutOfFuel) => (r1, OutOfFuel)
  end.
Proof.
  cbn [scanPairs]. unfold bind, tryIO, ret, fail.
  destruct (seek 0 SeekCurrent r) as [r1 [pos | e | |]]; try reflexivity.
  destruct (readFull 8 r1) as [r2 [buf | e | |]]; try reflexivity.
  destruct (negb (hasTag buf "moof")); try reflexivity.
  destruct (seek (boxSize buf - 8) SeekCurrent r2) as [r3 [p3 | e | |]]; try reflexivity.
  destruct (readFull 8 r3) as [r4 [buf2 | e | |]]; try reflexivity.
  destruct (negb (hasTag buf2 "mdat")); try reflexivity.
  destruct (seek (boxSize buf2 - 8) SeekCurrent r4) as [r5 [p5 | e | |]]; reflexivity.
Qed.


End ScanErrors.

(** ** segmentFMP4ReadMaxDuration on a reader in memory *)

Lemma byteZ_nonneg b : 0 <= byteZ b.
Proof. unfold byteZ. apply N2Z.is_nonneg. Qed.

Lemma boxSize_nonneg buf : 0 <= boxSize buf.
Proof.
  unfold boxSize.
  repeat (apply Z.lor_nonneg; split);
    try (apply Z.shiftl_nonneg); apply byteZ_nonneg.
Qed.

Lemma hasTag_moof_not_mdat buf :
  hasTag buf "moof" = true -> hasTag buf "mdat" = false.
Proof.
  unfold hasTag. intros Hm. apply bytesEqual_iff in Hm. rewrite Hm. reflexivity.
Qed.

Lemma mem_tell r :
  0 <= mr_pos r -> mem_seek 0 SeekCurrent r = (r, Ok (mr_pos r)).
Proof.
  intros Hp. unfold mem_seek. rewrite Z.add_0_r.
  destruct (Z.ltb_spec (mr_pos r) 0); [lia |]. now destruct r.
Qed.

Lemma mem_readFull_ok n r r' buf :
  0 < n -> mem_readFull n r = (r', Ok buf) ->
  r' = MemReader (mr_data r) (mr_pos r + n)
  /\ mr_pos r + n <= mr_len r
  /\ buf = slice (mr_data r) (mr_pos r) n.
Proof.
  intros Hn. unfold mem_readFull.
  destruct (Z.leb_spec n 0); [lia |].
  destruct (Z.leb_spec (mr_pos r + n) (mr_len r)).
  - intros [= <- <-]. auto.
  - destruct (mr_len r <=? mr_pos r); discriminate.
Qed.

Lemma mem_readFull_short n r :
  0 < n -> mr_len r < mr_pos r + n ->
  exists r' e, mem_readFull n r = (r', Err e) /\ is_io_error e = true.
Proof.
  intros Hn Hs. unfold mem_readFull.
  destruct (Z.leb_spec n 0); [lia |].
  destruct (Z.leb_spec (mr_pos r + n) (mr_len r)); [lia |].
  destruct (mr_len r <=? mr_pos r); eauto.
Qed.

Lemma mem_seek_cur_ok off r r' p :
  mem_seek off SeekCurrent r = (r', Ok p) ->
  r' = MemReader (mr_data r) (mr_pos r + off) /\ 0 <= mr_pos r + off.
Proof.
  unfold mem_seek. destruct (Z.ltb_spec (mr_pos r + off) 0); [discriminate |].
  intros [= <- <-]. auto.
Qed.

(** On a reader in memory the scan ends, with fuel above the number of bytes
    left, and ends normally or on a tag violation: reads that fall short and
    seeks that fail stop it without an error. *)
Lemma scanPairs_mem_total fuel : forall last (r : memReader),
  0 <= mr_pos r -> (0 < fuel)%nat -> mr_len r - mr_pos r < Z.of_nat fuel ->
  exists r',
    (exists p, scanPairs fuel last r = (r', Ok p))
    \/ scanPairs fuel last r = (r', Err (ErrBoxNotFound "moof"))
    \/ scanPairs fuel last r = (r', Err (ErrBoxNotFound "mdat")).
Proof.
  induction fuel as [| fuel IH]; intros last r Hpos Hf Hlen; [lia |].
  rewrite scanPairs_unfold.
  change (@seek memReader _) with mem_seek.
  change (@readFull memReader _) with mem_readFull.
  rewrite mem_tell by assumption.
  destruct (mem_readFull 8 r) as [r2 [buf | e | |]] eqn:E2;
    try (unfold mem_readFull in E2; simpl in E2;
         repeat match type of E2 with context [if ?c then _ else _] => destruct c end;
         discriminate).
  2:{ eexists. left. eexists. reflexivity. }
  apply mem_readFull_ok in E2; [| lia]. destruct E2 as (-> & Hfit & Hbuf).
  destruct (hasTag buf "moof") eqn:Hmoof; cbn [negb].
  2:{ eexists. right. left. reflexivity. }
  destruct (mem_seek (boxSize buf - 8) SeekCurrent _) as [r3 [p3 | e | |]] eqn:E3;
    try (unfold mem_seek in E3;
         repeat match type of E3 with context [if ?c then _ else _] => destruct c end;
         discriminate).
  2:{ eexists. left. eexists. reflexivity. }
  apply mem_seek_cur_ok in E3. cbn [mr_data mr_pos] in E3. destruct E3 as (-> & Hp3).
  destruct (mem_readFull 8 _) as [r4 [buf2 | e | |]] eqn:E4;
    try (unfold mem_readFull in E4; simpl in E4;
         repeat match type of E4 with context [if ?c then _ else _] => destruct c end;
         discriminate).
  2:{ eexists. left. eexists. reflexivity. }
  apply mem_readFull_ok in E4; [| lia]. cbn [mr_data mr_pos] in E4.
  destruct E4 as (-> & Hfit2 & Hbuf2).
  destruct (hasTag buf2 "mdat") eqn:Hmdat; cbn [negb].
  2:{ eexists. right. right. reflexivity. }
  destruct (mem_seek (boxSize buf2 - 8) SeekCurrent _) as [r5 [p5 | e | |]] eqn:E5;
    try (unfold mem_seek in E5;
         repeat match type of E5 with context [if ?c then _ else _] => destruct c end;
         discriminate).
  2:{ eexists. left. eexists. reflexivity. }
  apply mem_seek_cur_ok in E5. cbn [mr_data mr_pos] in E5. destruct E5 as (-> & Hp5).
  pose proof (boxSize_nonneg buf) as Hb1. pose proof (boxSize_nonneg buf2) as Hb2.
  assert (Hmove : boxSize buf <> 0).
  { intros Hz. rewrite Hz in Hbuf2.
    replace (mr_pos r + 8 + (0 - 8)) with (mr_pos r) in Hbuf2 by lia.
    rewrite <- Hbuf in Hbuf2. subst buf2.
    rewrite (hasTag_moof_not_mdat _ Hmoof) in Hmdat. discriminate. }
  unfold mr_len in *. cbn [mr_data mr_pos] in *.
  apply IH; cbn [mr_data mr_pos]; unfold mr_len; cbn [mr_data]; lia.
Qed.

Lemma slice_app (pre x post : list byte) :
  slice (pre ++ x ++ post) (Z.of_nat (List.length pre)) (Z.of_nat (List.length x)) = x.
Proof.
  unfold slice. rewrite !Nat2Z.id.
  rewrite skipn_app, skipn_all, Nat.sub_diag. cbn [skipn app].
  rewrite firstn_app, firstn_all, Nat.sub_diag. cbn [firstn]. apply app_nil_r.
Qed.

Lemma mem_readFull_at (pre x post : list byte) :
  x <> [] ->
  mem_readFull (Z.of_nat (List.length x))
    (MemReader (pre ++ x ++ post) (Z.of_nat (List.length pre)))
  = (MemReader (pre ++ x ++ post) (Z.of_nat (List.length pre) + Z.of_nat (List.length x)),
     Ok x).
Proof.
  intros Hx. unfold mem_readFull, mr_len. cbn [mr_data mr_pos].
  assert (0 < Z.of_nat (List.length x)) by (destruct x; [congruence | cbn; lia]).
  destruct (Z.leb_spec (Z.of_nat (List.length x)) 0); [lia |].
  rewrite !length_app.
  destruct (Z.leb_spec (Z.of_nat (List.length pre) + Z.of_nat (List.length x))
              (Z.of_nat (List.length pre + (List.length x + List.length post)))); [| lia].
  now rewrite slice_app.
Qed.

(** [skipInit] on a segment that starts with an [ftyp] box and a [moov]
    box leaves the reader right after the [moov] box. *)
Lemma skipInit_mem (h1 b1 h2 b2 rest : list byte) :
  List.length h1 = 8%nat -> hasTag h1 "ftyp" = true ->
  boxSize h1 = 8 + Z.of_nat (List.length b1) ->
  List.length h2 = 8%nat -> hasTag h2 "moov" = true ->
  boxSize h2 = 8 + Z.of_nat (List.length b2) ->
  skipInit (MemReader (h1 ++ b1 ++ h2 ++ b2 ++ rest) 0)
  = (MemReader (h1 ++ b1 ++ h2 ++ b2 ++ rest)
       (16 + Z.of_nat (List.length b1) + Z.of_nat (List.length b2)), Ok tt).
Proof.
  intros L1 T1 S1 L2 T2 S2.
  unfold skipInit, readHeader, bind, ret, fail.
  change (@seek memReader _) with mem_seek.
  change (@readFull memReader _) with mem_readFull.
  pose proof (mem_readFull_at [] h1 (b1 ++ h2 ++ b2 ++ rest)) as E1.
  rewrite L1 in E1. cbn [List.length app Z.of_nat] in E1.
  change (Z.pos (Pos.of_succ_nat 7)) with 8 in E1.
  rewrite E1 by (destruct h1; [discriminate | congruence]).
  rewrite T1. cbn [negb]. rewrite S1.
  unfold mem_seek at 1. cbn [mr_data mr_pos].
  destruct (Z.ltb_spec (8 + Z.of_nat (List.length b1)) 0); [lia |].
  pose proof (mem_readFull_at (h1 ++ b1) h2 (b2 ++ rest)) as E2.
  rewrite length_app, L1, L2, Nat2Z.inj_add in E2.
  rewrite <- !app_assoc in E2.
  change (Z.of_nat 8) with 8 in E2.
  rewrite E2 by (destruct h2; [discriminate | congruence]).
  rewrite T2. cbn [negb]. rewrite S2.
  unfold mem_seek. cbn [mr_data mr_pos].
  destruct (Z.ltb_spec (8 + Z.of_nat (List.length b1) + 8
                        + (8 + Z.of_nat (List.length b2) - 8)) 0); [lia |].
  f_equal. f_equal. lia.
Qed.


Example boxSize_boxHeader : boxSize (boxHeader 4660 "moof") = 4660.
Proof. reflexivity. Qed.

(** A segment with no fragment at all. *)
Example readMaxDuration_init_only :
  snd (segmentFMP4ReadMaxDuration (fun _ => None) (fun _ => None) 20
         (MemReader (mkBox "ftyp" [x00; x00; x00; x00] ++ mkBox "moov" []) 0))
  = Err ErrNoMoofBoxes.
Proof. reflexivity. Qed.

(** A [free] box where the first [moof] should be. *)
Example readMaxDuration_bad_tag :
  snd (segmentFMP4ReadMaxDuration (fun _ => None) (fun _ => None) 20
         (MemReader (mkBox "ftyp" [] ++ mkBox "moov" [] ++ mkBox "free" []) 0))
  = Err (ErrBoxNotFound "moof").
Proof. reflexivity. Qed.

(** A [moof] whose [mdat] header is cut after 5 bytes: the scan stops there
    and no pair was seen. *)
Example readMaxDuration_truncated_mdat :
  snd (segmentFMP4ReadMaxDuration (fun _ => None) (fun _ => None) 20
         (MemReader (mkBox "ftyp" [] ++ mkBox "moov" [] ++ mkBox "moof" [x00; x00]
                     ++ firstn 5 (mkBox "mdat" [])) 0))
  = Err ErrNoMoofBoxes.
Proof. reflexivity. Qed.

(** The device fails at the position query of the first iteration (its
    operation number 4, after two reads and two seeks of [skipInit]). *)
Example readMaxDuration_failed_position_query :
  let r := FaultyReader (MemReader (mkBox "ftyp" [] ++ mkBox "moov" []) 0) 4 in
  snd (skipInit r) = Ok tt
  /\ snd (segmentFMP4ReadMaxDuration (fun _ => None) (fun _ => None) 20 r)
     = Err (ErrDevice 5).
Proof. split; reflexivity. Qed.

(** The same fault one operation later, at the read of the [moof] header,
    ends the scan as an end of file would. *)
Example readMaxDuration_failed_header_read :
  let r := FaultyReader (MemReader (mkBox "ftyp" [] ++ mkBox "moov" []) 0) 5 in
  snd (segmentFMP4ReadMaxDuration (fun _ => None) (fun _ => None) 20 r)
  = Err ErrNoMoofBoxes.
Proof. reflexivity. Qed.




(** ** Running the two muxing functions *)

(** Samples at media times 0, 1 s, 2 s, 3 s; window [1 s, 3 s). *)
Example seek_window_run :
  let '(s, res) :=
    segmentFMP4SeekAndMuxParts (L := headerReads)
      (segmentBoxes (oneTrack 0 [entry 90000 1; entry 90000 1; entry 90000 1; entry 90000 1]))
      (MemReader [x01; x02; x03; x04] 0) (1 * Second) (3 * Second) newRecMuxer in
  writtenTimestamps (rm_calls (mx s)) = [-90000; 0; 90000]
  /\ res = Ok (2 * Second).
Proof. vm_compute. split; reflexivity. Qed.

Example write_offset_run :
  let '(s, res) :=
    segmentFMP4WriteParts (L := headerReads)
      (segmentBoxes (oneTrack 0 [entry 90000 1; entry 90000 1]))
      (MemReader [x01; x02] 0) (10 * Second) (100 * Second) newRecMuxer in
  writtenTimestamps (rm_calls (mx s)) = [900000; 990000]
  /\ res = Ok (2 * Second).
Proof. vm_compute. split; reflexivity. Qed.

(** ** The box walk *)

Section WalkFacts.

Context {R M : Type} `{ReadSeeker R} `{Muxer M} {L : BoxLibrary}.

Lemma visitBox_Box (h : @handler R M) ty off pl children :
  visitBox h (Box ty off pl children)
  = (libraryAccess ;;
     h ty off pl (libraryAccess ;; visitBoxes h children) ;;
     libraryAccess).
Proof.
  cbn [visitBox].
  assert (E : forall bs,
    (fix visitChildren (bs : list box) : io (env R M) unit :=
       match bs with
       | [] => ret tt
       | c :: cs => visitBox h c ;; visitChildren cs
       end) bs = visitBoxes h bs).
  { induction bs as [| c cs IH]; [reflexivity |]. cbn [visitBoxes]. now rewrite IH. }
  now rewrite E.
Qed.

(** What a visit leaves behind: [P] when it went through, [Q] when it was
    ended by [errTerminated]; nothing is asked after another error. *)
Definition visited (P Q : env R M -> Prop) (x : env R M * result unit) : Prop :=
  match snd x with
  | Ok _ => P (fst x)
  | Err e => if error_eqb e errTerminated then Q (fst x) else True
  | _ => True
  end.

Section Invariant.

Variables P Q : env R M -> Prop.
Variable h : @handler R M.

Hypothesis handler_keeps : forall ty off pl expand,
  (forall s, P s -> visited P Q (expand s)) ->
  forall s, P s -> visited P Q (h ty off pl expand s).

(** An access of the library to the reader does not disturb [P]. *)
Hypothesis library_keeps : forall s, P s -> P (fst (libraryAccess s)).

Lemma visited_bind (m1 m2 : io (env R M) unit) s :
  visited P Q (m1 s) ->
  (forall s1, P s1 -> visited P Q (m2 s1)) ->
  visited P Q ((m1 ;; m2) s).
Proof.
  intros H1 H2. unfold bind, visited in *.
  destruct (m1 s) as [s1 [[] | e | |]]; cbn [fst snd] in *; auto.
  now apply H2.
Qed.

Lemma access_visited s : P s -> visited P Q (libraryAccess s).
Proof. intros Hs. unfold visited. cbn [snd libraryAccess]. now apply library_keeps. Qed.

Lemma visitBoxes_step (b : box) bs :
  (forall s, P s -> visited P Q (visitBox h b s)) ->
  (forall s, P s -> visited P Q (visitBoxes h bs s)) ->
  forall s, P s -> visited P Q (visitBoxes h (b :: bs) s).
Proof.
  intros Hb Hbs s Hs. cbn [visitBoxes]. apply visited_bind; auto.
Qed.

Lemma visitBox_keeps : forall b s, P s -> visited P Q (visitBox h b s).
Proof.
  fix IH 1. intros [ty off pl children | e] s Hs.
  - rewrite visitBox_Box.
    apply visited_bind; [now apply access_visited | intros s1 Hs1].
    apply visited_bind; [| intros s2 Hs2; now apply access_visited].
    apply handler_keeps; [| exact Hs1].
    clear s Hs s1 Hs1. intros s Hs.
    apply visited_bind; [now apply access_visited |].
    clear s Hs. induction children as [| c cs IHcs].
    + intros s Hs. exact Hs.
    + apply visitBoxes_step; [apply IH | exact IHcs].
  - exact I.
Qed.

Lemma visitBoxes_keeps : forall bs s, P s -> visited P Q (visitBoxes h bs s).
Proof.
  induction bs as [| b bs IH].
  - intros s Hs. exact Hs.
  - apply visitBoxes_step; [| exact IH].
    apply visitBox_keeps.
Qed.

Lemma walk_keeps bs s : P s -> visited P Q (ReadBoxStructure h bs s).
Proof.
  intros Hs. unfold ReadBoxStructure.
  apply visited_bind; [now apply access_visited | intros s1 Hs1].
  apply visited_bind; [now apply visitBoxes_keeps | intros s2 Hs2].
  now apply access_visited.
Qed.

End Invariant.

End WalkFacts.

Ltac run_io :=
  unfold readPayload in *;
  unfold bind, ret, fail, panic, getEnv, setMoofOffset, setTfhd, setTfdt,
    setMaxElapsed, setAtLeastOnePartWritten, onMuxer, onReader, muxerFlush,
    libraryAccess in *;
  cbn [fst snd rd mx moofOffset tfhd tfdt maxElapsed atLeastOnePartWritten accesses] in *.

(** *** Running a walk step by step *)

Lemma bind_assoc {S A B C} (m : io S A) (k1 : A -> io S B) (k2 : B -> io S C) (s : S) :
  bind (bind m k1) k2 s = bind m (fun a => bind (k1 a) k2) s.
Proof. unfold bind. destruct (m s) as [s' [a | e | |]]; reflexivity. Qed.

Lemma bind_run {S A B} (m : io S A) (k : A -> io S B) (s : S) :
  bind m k s
  = match m s with
    | (s', Ok a) => k a s'
    | (s', Err e) => (s', Err e)
    | (s', Panicked) => (s', Panicked)
    | (s', OutOfFuel) => (s', OutOfFuel)
    end.
Proof. reflexivity. Qed.

Lemma step_ret {S A B} (a : A) (k : A -> io S B) (s : S) : bind (ret a) k s = k a s.
Proof. reflexivity. Qed.

Lemma step_fail {S A B} (e : error) (k : A -> io S B) (s : S) :
  bind (fail e) k s = (s, Err e).
Proof. reflexivity. Qed.

Lemma step_if {S A B} (c : bool) (m1 m2 : io S A) (k : A -> io S B) (s : S) :
  bind (if c then m1 else m2) k s = if c then bind m1 k s else bind m2 k s.
Proof. now destruct c. Qed.

Section Steps.

Context {R M : Type} `{ReadSeeker R} `{Muxer M} {L : BoxLibrary}.
Context {B : Type}.

Lemma step_access (k : unit -> io (env R M) B) s :
  bind libraryAccess k s
  = k tt (Env (runCalls (libraryCalls (accesses s)) (rd s)) (mx s) (moofOffset s)
              (tfhd s) (tfdt s) (maxElapsed s) (atLeastOnePartWritten s) (S (accesses s))).
Proof. reflexivity. Qed.

Lemma step_panic {A} (k : A -> io (env R M) B) s : bind panic k s = (s, Panicked).
Proof. reflexivity. Qed.

Lemma step_getEnv (k : env R M -> io (env R M) B) s : bind getEnv k s = k s s.
Proof. reflexivity. Qed.

Lemma step_setMoofOffset v (k : unit -> io (env R M) B) s :
  bind (setMoofOffset v) k s
  = k tt (Env (rd s) (mx s) v (tfhd s) (tfdt s) (maxElapsed s)
              (atLeastOnePartWritten s) (accesses s)).
Proof. reflexivity. Qed.

Lemma step_setTfhd v (k : unit -> io (env R M) B) s :
  bind (setTfhd v) k s
  = k tt (Env (rd s) (mx s) (moofOffset s) (Some v) (tfdt s) (maxElapsed s)
              (atLeastOnePartWritten s) (accesses s)).
Proof. reflexivity. Qed.

Lemma step_setTfdt v (k : unit -> io (env R M) B) s :
  bind (setTfdt v) k s
  = k tt (Env (rd s) (mx s) (moofOffset s) (tfhd s) (Some v) (maxElapsed s)
              (atLeastOnePartWritten s) (accesses s)).
Proof. reflexivity. Qed.

Lemma step_setMaxElapsed v (k : unit -> io (env R M) B) s :
  bind (setMaxElapsed v) k s
  = k tt (Env (rd s) (mx s) (moofOffset s) (tfhd s) (tfdt s) v
              (atLeastOnePartWritten s) (accesses s)).
Proof. reflexivity. Qed.

Lemma step_onMuxer f (k : unit -> io (env R M) B) s :
  bind (onMuxer f) k s
  = k tt (Env (rd s) (f (mx s)) (moofOffset s) (tfhd s) (tfdt s) (maxElapsed s)
              (atLeastOnePartWritten s) (accesses s)).
Proof. reflexivity. Qed.

Lemma step_onReader {A} (m : io R A) (k : A -> io (env R M) B) s :
  bind (onReader m) k s
  = match m (rd s) with
    | (r', Ok a) =>
        k a (Env r' (mx s) (moofOffset s) (tfhd s) (tfdt s) (maxElapsed s)
                 (atLeastOnePartWritten s) (accesses s))
    | (r', Err e) =>
        (Env r' (mx s) (moofOffset s) (tfhd s) (tfdt s) (maxElapsed s)
             (atLeastOnePartWritten s) (accesses s), Err e)
    | (r', Panicked) =>
        (Env r' (mx s) (moofOffset s) (tfhd s) (tfdt s) (maxElapsed s)
             (atLeastOnePartWritten s) (accesses s), Panicked)
    | (r', OutOfFuel) =>
        (Env r' (mx s) (moofOffset s) (tfhd s) (tfdt s) (maxElapsed s)
             (atLeastOnePartWritten s) (accesses s), OutOfFuel)
    end.
Proof.
  unfold bind, onReader. destruct (m (rd s)) as [r' [a | e | |]]; reflexivity.
Qed.

Lemma step_muxerFlush (k : unit -> io (env R M) B) s :
  bind muxerFlush k s
  = match flush (mx s) with
    | (w', None) =>
        k tt (Env (rd s) w' (moofOffset s) (tfhd s) (tfdt s) (maxElapsed s)
                  (atLeastOnePartWritten s) (accesses s))
    | (w', Some c) =>
        (Env (rd s) w' (moofOffset s) (tfhd s) (tfdt s) (maxElapsed s)
             (atLeastOnePartWritten s) (accesses s), Err (ErrMuxer c))
    end.
Proof.
  unfold bind, muxerFlush. destruct (flush (mx s)) as [w' [c |]]; reflexivity.
Qed.

End Steps.

(** One step of a walk: the first call of a sequence is run on the state,
    and the state is put back in shape. *)
Ltac io_step :=
  first [ rewrite bind_assoc
        | rewrite step_access | rewrite step_ret | rewrite step_fail
        | rewrite step_panic | rewrite step_getEnv | rewrite step_setMoofOffset
        | rewrite step_setTfhd | rewrite step_setTfdt | rewrite step_setMaxElapsed
        | rewrite step_onMuxer ];
  cbn [rd mx moofOffset tfhd tfdt maxElapsed atLeastOnePartWritten accesses
       BaseMediaDecodeTimeV1 TrackID Entries DataOffset].

(** The last call of a sequence, on its own. *)
Ltac io_last :=
  unfold libraryAccess, ret, fail, panic, setMaxElapsed;
  cbn [rd mx moofOffset tfhd tfdt maxElapsed atLeastOnePartWritten accesses fst snd].


Ltac pose_seek_io :=
  match goal with
  | |- context [seek ?o SeekStart ?r0] => pose proof (seek_io o SeekStart r0) as Hio
  end.

Ltac env_simpl :=
  cbn [fst snd rd mx moofOffset tfhd tfdt maxElapsed atLeastOnePartWritten accesses
       error_eqb returns_io] in *.

(** The errors of a reader are not the sentinel. *)
Lemma io_error_not_terminated e :
  is_io_error e = true -> error_eqb e errTerminated = false.
Proof. destruct e; simpl; congruence. Qed.

(** ** segmentFMP4SeekAndMuxParts: the flag and the samples written *)

Lemma writtenTimestamps_app a b :
  writtenTimestamps (a ++ b) = writtenTimestamps a ++ writtenTimestamps b.
Proof. unfold writtenTimestamps. apply flat_map_app. Qed.

Section SeekFlag.

Context {R : Type} `{ReadSeeker R} {L : BoxLibrary}.

Variables minT maxT : Z.

(** The timestamps the recording muxer has received. *)
Definition written (s : env R recMuxer) : list Z :=
  writtenTimestamps (rm_calls (mx s)).

(** [atLeastOnePartWritten] is set exactly when a sample went out with a
    timestamp that is not negative. *)
Definition flagMatches (s : env R recMuxer) : Prop :=
  atLeastOnePartWritten s = true <-> Exists (fun ts => 0 <= ts) (written s).

Lemma seekEntries_flag entries : forall elapsed s,
  flagMatches s -> flagMatches (fst (seekEntries minT maxT entries elapsed s)).
Proof.
  induction entries as [| e rest IH]; intros elapsed s Hs; [exact Hs |].
  cbn [seekEntries]. run_io.
  destruct (readFull (u32 (SampleSize e)) (rd s)) as [r' [data | err | |]];
    cbn [fst]; try exact Hs.
  destruct (elapsed >=? maxT); cbn [fst]; [exact Hs |].
  set (ts := i64 (i64 elapsed - i64 minT)).
  destruct (Z.geb_spec ts 0) as [Hts | Hts]; cbn [fst snd rd mx moofOffset tfhd tfdt
    maxElapsed atLeastOnePartWritten]; apply IH; unfold flagMatches, written in *;
    cbn [mx rm_calls atLeastOnePartWritten setTrack writeSample recMuxer_Muxer rm_calls];
    rewrite writtenTimestamps_app, Exists_app; cbn [writtenTimestamps flat_map app].
  - split; [intros _ | reflexivity]. right. constructor. lia.
  - rewrite Hs. split; [tauto |]. intros [Hx | Hx]; [exact Hx |].
    inversion Hx as [? ? Hh | ? ? Hn]; subst; [lia | inversion Hn].
Qed.

Lemma seekHandler_flag ty off pl expand :
  (forall s, flagMatches s -> visited flagMatches flagMatches (expand s)) ->
  forall s, flagMatches s ->
    visited flagMatches flagMatches (seekHandler minT maxT ty off pl expand s).
Proof.
  intros Hexp s Hs. unfold seekHandler.
  destruct (String.eqb ty "moof"); [run_io; now apply Hexp |].
  destruct (String.eqb ty "traf"); [now apply Hexp |].
  destruct (String.eqb ty "tfhd").
  { destruct pl; run_io; unfold visited; cbn; auto. }
  destruct (String.eqb ty "tfdt").
  { destruct pl as [b | b | b | | c]; run_io; unfold visited; cbn; auto.
    destruct (u64 (BaseMediaDecodeTimeV1 b) >=? maxT); cbn; auto.
    destruct (tfhd s); cbn; auto.
    unfold flagMatches, written in *. cbn. now rewrite writtenTimestamps_app, app_nil_r. }
  destruct (String.eqb ty "trun").
  { destruct pl as [b | b | b | | c]; run_io; unfold visited; cbn; auto.
    destruct (seek _ SeekStart _) as [r' [p | err | |]] eqn:Es; cbn; auto.
    - destruct (tfdt s) as [td |]; cbn; auto.
      match goal with |- context [seekEntries minT maxT ?es ?el ?s0] =>
        pose proof (seekEntries_flag es el s0 Hs) as Hl;
        destruct (seekEntries minT maxT es el s0) as [s1 [el' | err | |]] end;
        cbn [fst snd] in *; auto.
      + destruct (el' >? maxElapsed s1); cbn; auto.
      + destruct (error_eqb err errTerminated); auto.
    - destruct (error_eqb err errTerminated); auto. }
  destruct (String.eqb ty "mdat").
  { run_io. change (flush (mx s)) with (rec_flush (mx s)). unfold rec_flush.
    destruct (rm_flush (mx s)) as [| [c |] rest]; unfold visited; cbn;
      try exact I; unfold flagMatches, written in *; cbn;
      now rewrite writtenTimestamps_app, app_nil_r. }
  exact Hs.
Qed.

End SeekFlag.

Lemma all_negative_iff (l : list Z) :
  Forall (fun ts => ts < 0) l <-> ~ Exists (fun ts => 0 <= ts) l.
Proof.
  rewrite <- Forall_Exists_neg. split; apply Forall_impl; intros; lia.
Qed.

Lemma seek_walk_flag {R} `{ReadSeeker R} {L : BoxLibrary} bs (r : R) minT maxT fl :
  visited (flagMatches) (flagMatches)
    (ReadBoxStructure (seekHandler minT maxT) bs (newEnv r (RecMuxer [] fl))).
Proof.
  apply walk_keeps.
  - apply seekHandler_flag.
  - intros s Hs. exact Hs.
  - unfold flagMatches, written. cbn. split; [discriminate | intros Hx; inversion Hx].
Qed.


(** The payload of the only sample is missing from the file: the read
    fails, and its error is the result. *)
Example seek_truncated_payload :
  let out := segmentFMP4SeekAndMuxParts (L := headerReads)
               (segmentBoxes (oneTrack 0 [entry 90000 4])) (MemReader [] 0)
               0 (10 * Second) newRecMuxer in
  snd out = Err ErrEOF /\ written (fst out) = [].
Proof. vm_compute. split; reflexivity. Qed.




(** ** segmentFMP4SeekAndMuxParts: the subtraction at the end *)

Section SeekBound.

Context {R M : Type} `{ReadSeeker R} `{Muxer M} {L : BoxLibrary}.

Variables minT maxT : Z.

Hypothesis minT_range : 0 <= minT < two63.
Hypothesis maxT_range : 0 <= maxT /\ maxT + 2 * two32 <= two63.

(** While the walk goes on: the flag is set only when [maxElapsed] has
    reached [minT]; [maxElapsed] stays below [maxT + 2^32]; the [tfdt] kept
    is one that passed the test against [maxT]. *)
Definition boundEnded (s : env R M) : Prop :=
  (atLeastOnePartWritten s = true -> minT <= maxElapsed s)
  /\ 0 <= maxElapsed s < maxT + two32.

Definition boundKept (s : env R M) : Prop :=
  boundEnded s
  /\ (forall td, tfdt s = Some td -> u64 (BaseMediaDecodeTimeV1 td) < maxT).

Lemma seekEntries_bound entries : forall elapsed s,
  0 <= elapsed < maxT + two32 ->
  let x := seekEntries minT maxT entries elapsed s in
  maxElapsed (fst x) = maxElapsed s
  /\ tfdt (fst x) = tfdt s
  /\ match snd x with
     | Ok el' =>
         elapsed <= el' < maxT + two32
         /\ (atLeastOnePartWritten (fst x) = true ->
             atLeastOnePartWritten s = true \/ minT <= el')
     | Err e => is_io_error e = true
     | _ => False
     end.
Proof.
  induction entries as [| e rest IH]; intros elapsed s Hel; cbv zeta.
  - cbn. repeat split; try tauto; lia.
  - cbn [seekEntries]. run_io.
    pose proof (readFull_io (u32 (SampleSize e)) (rd s)) as Hio.
    destruct (readFull (u32 (SampleSize e)) (rd s)) as [r' [data | err | |]];
      cbn [fst snd returns_io] in *; try tauto.
    destruct (Z.geb_spec elapsed maxT) as [Hge | Hlt];
      cbn [fst snd maxElapsed tfdt atLeastOnePartWritten].
    { repeat split; try tauto; lia. }
    pose proof (u32_range (SampleDuration e)) as Hd.
    unfold two32, two63, two64 in *.
    assert (Hnext : u64 (elapsed + u32 (SampleDuration e))
                    = elapsed + u32 (SampleDuration e))
      by (apply u64_small; unfold two64; lia).
    set (ts := i64 (i64 elapsed - i64 minT)).
    assert (Hts : ts = elapsed - minT).
    { subst ts. rewrite (i64_small elapsed), (i64_small minT) by (unfold two63; lia).
      apply i64_small. unfold two63. lia. }
    destruct (Z.geb_spec ts 0) as [Hpos | Hneg];
      cbn [fst snd rd mx moofOffset tfhd tfdt maxElapsed atLeastOnePartWritten];
      match goal with |- context [seekEntries minT maxT rest ?el ?s0] =>
        specialize (IH el s0); cbv zeta in IH;
        destruct (seekEntries minT maxT rest el s0) as [s1 [el' | err | |]] end;
      cbn [fst snd maxElapsed tfdt atLeastOnePartWritten] in *;
      rewrite Hnext in IH;
      (destruct IH as (Hm & Ht & Hres); [lia |]);
      try tauto; destruct Hres as [Hrange Hset];
      repeat split; auto; lia.
Qed.

Lemma seekHandler_bound ty off pl expand :
  (forall s, boundKept s -> visited boundKept boundEnded (expand s)) ->
  forall s, boundKept s ->
    visited boundKept boundEnded (seekHandler minT maxT ty off pl expand s).
Proof.
  intros Hexp s Hs. unfold seekHandler.
  destruct (String.eqb ty "moof"); [run_io; now apply Hexp |].
  destruct (String.eqb ty "traf"); [now apply Hexp |].
  destruct (String.eqb ty "tfhd").
  { destruct pl; run_io; unfold visited; cbn; auto. }
  destruct (String.eqb ty "tfdt").
  { destruct pl as [b | b | b | | c]; run_io; unfold visited; cbn [fst snd error_eqb]; auto.
    destruct Hs as [Hend Hkept].
    destruct (Z.geb_spec (u64 (BaseMediaDecodeTimeV1 b)) maxT) as [Hge | Hlt];
      env_simpl.
    - exact Hend.
    - destruct (tfhd s); env_simpl; auto.
      split; [exact Hend |]. env_simpl. intros td [= <-]. exact Hlt. }
  destruct (String.eqb ty "trun").
  { destruct pl as [b | b | b | | c]; run_io; unfold visited; cbn [fst snd error_eqb]; auto.
    pose_seek_io.
    destruct (seek _ SeekStart _) as [r' [p | err | |]];
      cbn [fst snd returns_io] in *; auto.
    2:{ now rewrite io_error_not_terminated. }
    destruct (tfdt s) as [td |] eqn:Etd; cbn [fst snd]; auto.
    destruct Hs as [[Hflag Hmax] Hkept]. specialize (Hkept td Etd).
    pose proof (u64_range (BaseMediaDecodeTimeV1 td)) as Hb.
    match goal with |- context [seekEntries minT maxT ?es ?el ?s0] =>
      pose proof (seekEntries_bound es el s0) as Hl; cbv zeta in Hl;
      destruct (seekEntries minT maxT es el s0) as [s1 [el' | err | |]] end;
      cbn [fst snd maxElapsed tfdt atLeastOnePartWritten] in *;
      (destruct Hl as (Hm & Ht & Hres); [unfold two32 in *; lia |]);
      try tauto.
    2:{ now rewrite io_error_not_terminated. }
    destruct Hres as [Hrange Hset].
    destruct (Z.gtb_spec el' (maxElapsed s1)) as [Hgt | Hle];
      unfold boundKept, boundEnded; env_simpl; (split; [split |]).
    all: try (intros Hf; destruct (Hset Hf) as [Hold | Hnew];
              [specialize (Hflag Hold) |]; lia).
    all: try (intros td' Etd'; rewrite Ht in Etd'; now injection Etd' as <-).
    all: lia. }
  destruct (String.eqb ty "mdat").
  { run_io. destruct (flush (mx s)) as [w' [c |]]; unfold visited; cbn; auto. }
  exact Hs.
Qed.

Lemma seek_walk_bound bs (r : R) (w : M) :
  visited boundKept boundEnded (ReadBoxStructure (seekHandler minT maxT) bs (newEnv r w)).
Proof.
  apply walk_keeps.
  - apply seekHandler_bound.
  - intros s Hs. exact Hs.
  - unfold boundKept, boundEnded, newEnv. cbn. unfold two32 in *.
    repeat split; try discriminate; lia.
Qed.

End SeekBound.

(** A request that starts one second before the segment does: [minTime] is
    negative, its conversion wraps to [2^64 - 90000], and the subtraction at
    the end wraps back. *)
Example seek_negative_minTime :
  exists s,
    segmentFMP4SeekAndMuxParts (L := headerReads)
      (segmentBoxes (oneTrack 0 [entry 3000 1])) (MemReader [x01] 0)
      (- Second) (10 * Second) newRecMuxer
    = (s, Ok 1033333333)
    /\ maxElapsed s = 3000
    /\ written s = [90000].
Proof.
  eexists. split; [vm_compute; reflexivity |]. split; reflexivity.
Qed.

Example seek_second_half :
  exists s,
    segmentFMP4SeekAndMuxParts (L := headerReads)
      (segmentBoxes (oneTrack 0 [entry 90000 1; entry 90000 1]))
      (MemReader [x01; x02] 0) (1 * Second) (3 * Second) newRecMuxer
    = (s, Ok (1 * Second))
    /\ maxElapsed s = 180000.
Proof.
  eexists. split; [vm_compute; reflexivity | reflexivity].
Qed.

(** C10, corrected. For [0 <= minTime] and [0 <= maxTime <= 2^62] ns,
    whenever [segmentFMP4SeekAndMuxParts] succeeds, the final [maxElapsed]
    is at least the 90000-tick conversion of [minTime], so the unsigned
    subtraction [maxElapsed - minTimeMP4] does not wrap, and the duration
    returned is not negative. *)
Theorem C10_no_underflow :
  forall (R M : Type) (RS : ReadSeeker R) (MX : Muxer M) (L : BoxLibrary)
         bs (r : R) (w : M) (minTime maxTime : Duration) s d,
    0 <= minTime < 2 ^ 63 ->
    0 <= maxTime <= 2 ^ 62 ->
    segmentFMP4SeekAndMuxParts bs r minTime maxTime w = (s, Ok d) ->
    durationGoToMp4 minTime fmp4Timescale <= maxElapsed s
    /\ u64 (maxElapsed s - durationGoToMp4 minTime fmp4Timescale)
       = maxElapsed s - durationGoToMp4 minTime fmp4Timescale
    /\ 0 <= d.
Proof.
  intros R M RS MX L bs r w minTime maxTime s d Hmin Hmax Hrun.
  pose proof (goToMp4_bounds minTime Hmin) as HminT.
  pose proof (goToMp4_bounds maxTime ltac:(unfold two63; lia)) as HmaxT.
  set (minT := durationGoToMp4 minTime fmp4Timescale) in *.
  set (maxT := durationGoToMp4 maxTime fmp4Timescale) in *.
  assert (Hq1 : minTime / Second <= 9223372036)
    by (unfold Second; apply Z.lt_succ_r, Z.div_lt_upper_bound; lia).
  assert (Hq2 : maxTime / Second <= 4611686018)
    by (unfold Second; apply Z.lt_succ_r, Z.div_lt_upper_bound; lia).
  assert (HminR : 0 <= minT < two63) by (unfold two63; lia).
  assert (HmaxR : 0 <= maxT /\ maxT + 2 * two32 <= two63)
    by (unfold two32, two63; lia).
  pose proof (seek_walk_bound minT maxT HminR HmaxR bs r w) as Hwalk.
  unfold segmentFMP4SeekAndMuxParts in Hrun. fold minT maxT in Hrun.
  unfold visited in Hwalk.
  destruct (ReadBoxStructure (seekHandler minT maxT) bs (newEnv r w)) as [s0 res].
  cbn [fst snd] in Hwalk.
  assert (Hend : boundEnded minT maxT s0 /\
                 (if negb (atLeastOnePartWritten s0)
                  then (s0, Err errNoSegmentsFound)
                  else (s0, Ok (durationMp4ToGo (u64 (maxElapsed s0 - minT)) fmp4Timescale)))
                 = (s, Ok d)).
  { destruct res as [[] | e | |]; try discriminate.
    - split; [apply Hwalk | exact Hrun].
    - destruct (error_eqb e errTerminated); [| discriminate].
      split; [exact Hwalk | exact Hrun]. }
  clear Hrun Hwalk. destruct Hend as [[Hflag Hbound] Hrun].
  destruct (atLeastOnePartWritten s0); cbn [negb] in Hrun; [| discriminate].
  injection Hrun as <- <-. specialize (Hflag eq_refl).
  unfold two32, two63 in *.
  assert (Hsub : u64 (maxElapsed s0 - minT) = maxElapsed s0 - minT)
    by (apply u64_small; unfold two64; lia).
  repeat split; [lia | exact Hsub |].
  rewrite Hsub. apply mp4ToGo_nonneg. lia.
Qed.

Lemma C10_no_underflow_witness :
  exists s,
    segmentFMP4SeekAndMuxParts (L := headerReads)
      (segmentBoxes (oneTrack 0 [entry 90000 1; entry 90000 1]))
      (MemReader [x01; x02] 0) (1 * Second) (3 * Second) newRecMuxer
    = (s, Ok (1 * Second))
    /\ durationGoToMp4 (1 * Second) fmp4Timescale <= maxElapsed s
    /\ 0 <= 1 * Second.
Proof.
  destruct seek_second_half as (s & Erun & _).
  exists s. split; [exact Erun |].
  assert (Hmin : 0 <= 1 * Second < 2 ^ 63) by (unfold Second; lia).
  assert (Hmax : 0 <= 3 * Second <= 2 ^ 62) by (unfold Second; lia).
  destruct (C10_no_underflow memReader recMuxer _ _ headerReads _ _ _
              (1 * Second) (3 * Second) s (1 * Second) Hmin Hmax Erun) as (Hge & _ & Hd).
  split; [exact Hge | exact Hd].
Defined.

Lemma C10_no_underflow_counterexample :
  ~ (forall (L : BoxLibrary) bs (r : memReader) (minTime maxTime : Duration) s d,
       - 2 ^ 63 <= minTime < 2 ^ 63 ->
       - 2 ^ 63 <= maxTime < 2 ^ 63 ->
       segmentFMP4SeekAndMuxParts bs r minTime maxTime newRecMuxer = (s, Ok d) ->
       durationGoToMp4 minTime fmp4Timescale <= maxElapsed s /\ 0 <= d).
Proof.
  intros Hclaim.
  destruct seek_negative_minTime as (s & Erun & Hmax & _).
  assert (Hmin : - 2 ^ 63 <= - Second < 2 ^ 63) by (unfold Second; lia).
  assert (Hmaxt : - 2 ^ 63 <= 10 * Second < 2 ^ 63) by (unfold Second; lia).
  specialize (Hclaim headerReads _ _ (- Second) (10 * Second) s 1033333333 Hmin Hmaxt Erun).
  destruct Hclaim as [Hge _]. rewrite Hmax in Hge.
  vm_compute in Hge. apply Hge. reflexivity.
Qed.

(** ** The handler of the two muxing functions *)

Section PartsHandler.

Context {R M : Type} `{ReadSeeker R} `{Muxer M} {L : BoxLibrary}.

Variable maxT : Z.

(** The loop over the entries of a [trun]. *)
Variable loop : list TrunEntry -> Z -> io (env R M) Z.

(** The shape the two handlers share; they differ in [loop] only. *)
Definition partsHandler : @handler R M :=
  fun ty off pl expand =>
    if String.eqb ty "moof" then
      setMoofOffset off ;; expand
    else if String.eqb ty "traf" then
      expand
    else if String.eqb ty "tfhd" then
      b <- readPayload pl ;;
      match b with PlTfhd t => setTfhd t | _ => panic end
    else if String.eqb ty "tfdt" then
      b <- readPayload pl ;;
      match b with
      | PlTfdt t =>
          setTfdt t ;;
          if u64 (BaseMediaDecodeTimeV1 t) >=? maxT then fail errTerminated else
          s <- getEnv ;;
          match tfhd s with
          | None => panic
          | Some th => onMuxer (setTrack (u32 (TrackID th)))
          end
      | _ => panic
      end
    else if String.eqb ty "trun" then
      b <- readPayload pl ;;
      match b with
      | PlTrun trun =>
          s <- getEnv ;;
          let dataOffset := u64 (moofOffset s + u64 (i32 (DataOffset trun))) in
          _ <- onReader (seek (i64 dataOffset) SeekStart) ;;
          match tfdt s with
          | None => panic
          | Some td =>
              elapsed <- loop (Entries trun) (u64 (BaseMediaDecodeTimeV1 td)) ;;
              s' <- getEnv ;;
              if elapsed >? maxElapsed s' then setMaxElapsed elapsed else ret tt
          end
      | _ => panic
      end
    else if String.eqb ty "mdat" then
      muxerFlush
    else ret tt.

End PartsHandler.

(** ** The samples written on a well-formed segment *)

Section PartsTrace.

Context {R : Type} `{ReadSeeker R} {L : BoxLibrary}.

Variable maxT : Z.

(** The timestamp a sample at media time [elapsed] is written with. *)
Variable stamp : Z -> Z.

(** The loop over the entries of a [trun]. *)
Variable loop : list TrunEntry -> Z -> io (env R recMuxer) Z.

Hypothesis loop_writes : forall entries elapsed s,
  let x := loop entries elapsed s in
  exists l,
    written (fst x) = written s ++ map stamp l
    /\ (exists rest, elapsedOfEntries maxT elapsed entries = l ++ rest)
    /\ match snd x with
       | Ok _ => l = elapsedOfEntries maxT elapsed entries
       | Err e => is_io_error e = true
       | _ => False
       end.

(** After a visit of the boxes of the track fragments [ts], started in [s]:
    the samples written since are a prefix of those expected of [ts] and of
    whatever follows; all of those of [ts] if the visit went through; all
    there are if it was ended by the early termination. *)
Definition walkedTo (ts : list trackFragment) (s : env R recMuxer)
    (x : env R recMuxer * result unit) : Prop :=
  exists l,
    written (fst x) = written s ++ map stamp l
    /\ (forall more, exists rest, elapsedOfTrafs maxT (ts ++ more) = l ++ rest)
    /\ match snd x with
       | Ok _ => forall more,
           elapsedOfTrafs maxT (ts ++ more) = l ++ elapsedOfTrafs maxT more
       | Err e =>
           if error_eqb e errTerminated
           then forall more, elapsedOfTrafs maxT (ts ++ more) = l
           else True
       | _ => True
       end.

Lemma walkedTo_bind ts1 ts2 (m1 m2 : io (env R recMuxer) unit) s :
  walkedTo ts1 s (m1 s) ->
  (forall s1, walkedTo ts2 s1 (m2 s1)) ->
  walkedTo (ts1 ++ ts2) s ((m1 ;; m2) s).
Proof.
  intros (l1 & Hw1 & Hp1 & Hr1) H2. unfold bind.
  destruct (m1 s) as [s1 [[] | e | |]]; unfold walkedTo; cbn [fst snd] in *.
  - destruct (H2 s1) as (l2 & Hw2 & Hp2 & Hr2).
    exists (l1 ++ l2). split; [| split].
    + now rewrite Hw2, Hw1, map_app, app_assoc.
    + intros more. destruct (Hp2 more) as [rest Hrest]. exists rest.
      now rewrite <- !app_assoc, Hr1, Hrest.
    + destruct (snd (m2 s1)) as [[] | e | |]; auto.
      * intros more. now rewrite <- !app_assoc, Hr1, Hr2.
      * destruct (error_eqb e errTerminated); auto.
        intros more. now rewrite <- app_assoc, Hr1, Hr2.
  - exists l1. split; [exact Hw1 | split].
    + intros more. rewrite <- app_assoc. apply Hp1.
    + destruct (error_eqb e errTerminated); auto.
      intros more. rewrite <- app_assoc. apply Hr1.
  - exists l1. split; [exact Hw1 | split; [| exact I]].
    intros more. rewrite <- app_assoc. apply Hp1.
  - exists l1. split; [exact Hw1 | split; [| exact I]].
    intros more. rewrite <- app_assoc. apply Hp1.
Qed.

(** A step that writes no sample and is not the early termination. *)
Lemma walkedTo_silent s (x : env R recMuxer * result unit) :
  written (fst x) = written s ->
  match snd x with
  | Err e => error_eqb e errTerminated = false
  | _ => True
  end ->
  walkedTo [] s x.
Proof.
  intros Hw Hr. exists []. split; [| split].
  - now rewrite Hw, app_nil_r.
  - intros more. now exists (elapsedOfTrafs maxT more).
  - destruct (snd x) as [[] | e | |]; auto. now rewrite Hr.
Qed.

Lemma walkedTo_access s : walkedTo [] s (libraryAccess s).
Proof. apply walkedTo_silent; [reflexivity | exact I]. Qed.

Lemma walkedTo_before ts (m1 m2 : io (env R recMuxer) unit) s :
  walkedTo [] s (m1 s) ->
  (forall s1, walkedTo ts s1 (m2 s1)) ->
  walkedTo ts s ((m1 ;; m2) s).
Proof. intros H1 H2. now apply (walkedTo_bind [] ts). Qed.

Lemma walkedTo_after ts (m1 m2 : io (env R recMuxer) unit) s :
  walkedTo ts s (m1 s) ->
  (forall s1, walkedTo [] s1 (m2 s1)) ->
  walkedTo ts s ((m1 ;; m2) s).
Proof.
  intros H1 H2. rewrite <- (app_nil_r ts). now apply (walkedTo_bind ts []).
Qed.

Lemma written_setTrack' (r : R) (w : recMuxer) id o th td m a k :
  written (Env r (setTrack id w) o th td m a k) = writtenTimestamps (rm_calls w).
Proof.
  unfold written. cbn. now rewrite writtenTimestamps_app, app_nil_r.
Qed.

(** A box the handler does nothing on: the library reads its header and
    leaves it. *)
Lemma ignored_walked ty off pl children s :
  String.eqb ty "moof" = false -> String.eqb ty "traf" = false ->
  String.eqb ty "tfhd" = false -> String.eqb ty "tfdt" = false ->
  String.eqb ty "trun" = false -> String.eqb ty "mdat" = false ->
  walkedTo [] s (visitBox (partsHandler maxT loop) (Box ty off pl children) s).
Proof.
  intros E1 E2 E3 E4 E5 E6. rewrite visitBox_Box. unfold partsHandler.
  rewrite E1, E2, E3, E4, E5, E6.
  repeat io_step. io_last. apply walkedTo_silent; [reflexivity | exact I].
Qed.

Lemma traf_walked t s :
  walkedTo [t] s (visitBox (partsHandler maxT loop) (trafBox t) s).
Proof.
  unfold trafBox.
  repeat (rewrite visitBox_Box; unfold partsHandler at 1;
          cbn [String.eqb Ascii.eqb Bool.eqb visitBoxes]).
  unfold readPayload. repeat io_step.
  unfold walkedTo. cbn [app elapsedOfTrafs tf_base tf_entries].
  rewrite step_if.
  destruct (Z.geb_spec (u64 (tf_base t)) maxT) as [Hge | Hlt].
  { rewrite step_fail. cbn [fst snd error_eqb].
    exists []. split; [now rewrite app_nil_r | split].
    - intros more. now exists [].
    - reflexivity. }
  repeat io_step. rewrite step_onReader.
  cbn [rd mx moofOffset tfhd tfdt maxElapsed atLeastOnePartWritten accesses].
  pose_seek_io.
  destruct (seek _ SeekStart _) as [r' [p | err | |]]; env_simpl; try tauto.
  2:{ exists []. split; [| split].
      - now rewrite written_setTrack', app_nil_r.
      - intros more. now eexists.
      - now rewrite io_error_not_terminated. }
  rewrite bind_assoc, bind_run.
  match goal with |- context [loop ?es ?el ?s0] =>
    pose proof (loop_writes es el s0) as Hl; cbv zeta in Hl;
    destruct (loop es el s0) as [s1 [el' | err | |]] end;
    env_simpl; destruct Hl as (l & Hw & [rest Hp] & Hr); try tauto;
    rewrite written_setTrack' in Hw.
  - subst l.
    exists (elapsedOfEntries maxT (u64 (tf_base t)) (tf_entries t)).
    repeat io_step. rewrite step_if.
    destruct (el' >? maxElapsed s1); repeat io_step; io_last;
      (split; [exact Hw | split; [intros more; now eexists | reflexivity]]).
  - exists l. split; [exact Hw | split].
    + intros more. exists (rest ++ elapsedOfTrafs maxT more).
      now rewrite Hp, <- app_assoc.
    + now rewrite io_error_not_terminated.
Qed.

Lemma trafs_walked ts : forall s,
  walkedTo ts s (visitBoxes (partsHandler maxT loop) (map trafBox ts) s).
Proof.
  induction ts as [| t ts IH]; intros s.
  - apply walkedTo_silent; cbn; auto.
  - cbn [map visitBoxes]. apply (walkedTo_bind [t] ts); [apply traf_walked | exact IH].
Qed.

Lemma moof_walked f s :
  walkedTo (fg_trafs f) s
    (visitBox (partsHandler maxT loop)
       (Box "moof" (fg_offset f) PlOther
          (Box "mfhd" 0 PlOther [] :: map trafBox (fg_trafs f))) s).
Proof.
  rewrite visitBox_Box. unfold partsHandler at 1.
  cbn [String.eqb Ascii.eqb Bool.eqb].
  apply walkedTo_before; [apply walkedTo_access | intros s1].
  apply walkedTo_after; [| intros s2; apply walkedTo_access].
  apply walkedTo_before; [apply walkedTo_silent; [reflexivity | exact I] | intros s2].
  apply walkedTo_before; [apply walkedTo_access | intros s3].
  cbn [visitBoxes].
  apply walkedTo_before; [now apply ignored_walked | intros s4].
  apply trafs_walked.
Qed.

Lemma mdat_walked s :
  walkedTo [] s (visitBox (partsHandler maxT loop) (Box "mdat" 0 PlOther []) s).
Proof.
  rewrite visitBox_Box. unfold partsHandler.
  cbn [String.eqb Ascii.eqb Bool.eqb].
  repeat io_step. rewrite step_muxerFlush.
  change (flush (mx ?x)) with (rec_flush (mx x)). unfold rec_flush.
  cbn [rd mx moofOffset tfhd tfdt maxElapsed atLeastOnePartWritten accesses].
  destruct (rm_flush (mx s)) as [| [c |] tl]; repeat io_step; io_last;
    (apply walkedTo_silent; [| cbn [snd error_eqb]; auto]);
    unfold written; cbn [fst mx rm_calls]; now rewrite writtenTimestamps_app, app_nil_r.
Qed.

Lemma fragments_walked seg (rest : io (env R recMuxer) unit) : forall s,
  (forall s1, walkedTo [] s1 (rest s1)) ->
  walkedTo (flat_map fg_trafs seg) s
    ((visitBoxes (partsHandler maxT loop) (flat_map fragmentBoxes seg) ;; rest) s).
Proof.
  induction seg as [| f seg IH]; intros s Hrest.
  - cbn [flat_map visitBoxes]. rewrite step_ret. apply Hrest.
  - cbn [flat_map]. unfold fragmentBoxes at 1. cbn [app visitBoxes].
    rewrite bind_assoc. cbv beta.
    apply (walkedTo_bind (fg_trafs f) (flat_map fg_trafs seg));
      [apply moof_walked | intros s1].
    rewrite bind_assoc. cbv beta.
    apply walkedTo_before; [apply mdat_walked | intros s2]. now apply IH.
Qed.

Lemma segment_walked seg (r : R) w :
  walkedTo (flat_map fg_trafs seg) (newEnv r w)
    (ReadBoxStructure (partsHandler maxT loop) (segmentBoxes seg) (newEnv r w)).
Proof.
  unfold ReadBoxStructure, segmentBoxes. cbn [visitBoxes].
  apply walkedTo_before; [apply walkedTo_access | intros s1].
  rewrite bind_assoc. cbv beta.
  apply walkedTo_before; [now apply ignored_walked | intros s2].
  rewrite bind_assoc. cbv beta.
  apply walkedTo_before; [now apply ignored_walked | intros s3].
  apply fragments_walked. intros s4. apply walkedTo_access.
Qed.

End PartsTrace.

Lemma elapsedOfEntries_range maxT entries : forall elapsed,
  0 <= elapsed ->
  Forall (fun el => 0 <= el < maxT) (elapsedOfEntries maxT elapsed entries).
Proof.
  induction entries as [| e rest IH]; intros elapsed Hel; cbn [elapsedOfEntries].
  - constructor.
  - destruct (Z.geb_spec elapsed maxT); constructor; [lia |].
    apply IH. apply u64_range.
Qed.

Lemma elapsedOfTrafs_range maxT ts :
  Forall (fun el => 0 <= el < maxT) (elapsedOfTrafs maxT ts).
Proof.
  induction ts as [| t ts IH]; cbn [elapsedOfTrafs]; [constructor |].
  destruct (u64 (tf_base t) >=? maxT); [constructor |].
  apply Forall_app. split; [| exact IH].
  apply elapsedOfEntries_range. apply u64_range.
Qed.

Section LoopsWrite.

Context {R : Type} `{ReadSeeker R} {L : BoxLibrary}.

Lemma written_writeSample (r : R) (w : recMuxer) ts p o th td m a k :
  written (Env r (writeSample ts p w) o th td m a k)
  = writtenTimestamps (rm_calls w) ++ [ts].
Proof. unfold written. cbn. now rewrite writtenTimestamps_app. Qed.

Lemma seekEntries_writes minT maxT entries : forall elapsed (s : env R recMuxer),
  let x := seekEntries minT maxT entries elapsed s in
  exists l,
    written (fst x) = written s ++ map (fun el => i64 (i64 el - i64 minT)) l
    /\ (exists rest, elapsedOfEntries maxT elapsed entries = l ++ rest)
    /\ match snd x with
       | Ok _ => l = elapsedOfEntries maxT elapsed entries
       | Err e => is_io_error e = true
       | _ => False
       end.
Proof.
  induction entries as [| e rest IH]; intros elapsed s; cbv zeta.
  - exists []. cbn. rewrite app_nil_r. repeat split. now exists [].
  - cbn [seekEntries elapsedOfEntries]. run_io.
    pose proof (readFull_io (u32 (SampleSize e)) (rd s)) as Hio.
    destruct (readFull (u32 (SampleSize e)) (rd s)) as [r' [data | err | |]];
      env_simpl; try tauto.
    2:{ exists []. cbn [map]. rewrite app_nil_r. repeat split; auto. now eexists. }
    destruct (elapsed >=? maxT); env_simpl.
    { exists []. cbn [map]. rewrite app_nil_r. repeat split. now exists []. }
    destruct (i64 (i64 elapsed - i64 minT) >=? 0); env_simpl;
      match goal with |- context [seekEntries minT maxT rest ?el ?s0] =>
        destruct (IH el s0) as (l & Hw & [tl Hp] & Hr);
        destruct (seekEntries minT maxT rest el s0) as [s1 [el' | err | |]] end;
      env_simpl; try tauto; rewrite written_writeSample in Hw;
      exists (elapsed :: l); cbn [map];
      (split; [rewrite Hw; unfold written; now rewrite <- app_assoc |]);
      (split; [exists tl; now rewrite Hp | now rewrite ?Hr]).
Qed.

Lemma writeEntries_writes startTime maxT entries : forall elapsed (s : env R recMuxer),
  let x := writeEntries startTime maxT entries elapsed s in
  exists l,
    written (fst x)
    = written s
      ++ map (fun el => i64 (i64 el + i64 (durationGoToMp4 startTime fmp4Timescale))) l
    /\ (exists rest, elapsedOfEntries maxT elapsed entries = l ++ rest)
    /\ match snd x with
       | Ok _ => l = elapsedOfEntries maxT elapsed entries
       | Err e => is_io_error e = true
       | _ => False
       end.
Proof.
  induction entries as [| e rest IH]; intros elapsed s; cbv zeta.
  - exists []. cbn. rewrite app_nil_r. repeat split. now exists [].
  - cbn [writeEntries elapsedOfEntries]. run_io.
    pose proof (readFull_io (u32 (SampleSize e)) (rd s)) as Hio.
    destruct (readFull (u32 (SampleSize e)) (rd s)) as [r' [data | err | |]];
      env_simpl; try tauto.
    2:{ exists []. cbn [map]. rewrite app_nil_r. repeat split; auto. now eexists. }
    destruct (elapsed >=? maxT); env_simpl.
    { exists []. cbn [map]. rewrite app_nil_r. repeat split. now exists []. }
    match goal with |- context [writeEntries startTime maxT rest ?el ?s0] =>
      destruct (IH el s0) as (l & Hw & [tl Hp] & Hr);
      destruct (writeEntries startTime maxT rest el s0) as [s1 [el' | err | |]] end;
      env_simpl; try tauto; rewrite written_writeSample in Hw;
      exists (elapsed :: l); cbn [map];
      (split; [rewrite Hw; unfold written; now rewrite <- app_assoc |]);
      (split; [exists tl; now rewrite Hp | now rewrite ?Hr]).
Qed.

Lemma seekHandler_parts minT maxT :
  seekHandler minT maxT = partsHandler maxT (seekEntries minT maxT).
Proof. reflexivity. Qed.

Lemma writeHandler_parts startTime maxT :
  writeHandler startTime maxT = partsHandler maxT (writeEntries startTime maxT).
Proof. reflexivity. Qed.

(** The samples written by a walk of [handler h] over a well-formed
    segment, against those the spec expects. *)
Lemma parts_written maxT stamp loop seg (r : R) fl s res :
  (forall entries elapsed s,
     let x := loop entries elapsed s in
     exists l,
       written (fst x) = written s ++ map stamp l
       /\ (exists rest, elapsedOfEntries maxT elapsed entries = l ++ rest)
       /\ match snd x with
          | Ok _ => l = elapsedOfEntries maxT elapsed entries
          | Err e => is_io_error e = true
          | _ => False
          end) ->
  ReadBoxStructure (partsHandler maxT loop) (segmentBoxes seg) (newEnv r (RecMuxer [] fl))
  = (s, res) ->
  (exists rest, map stamp (emittedElapsed maxT seg) = written s ++ rest)
  /\ (res = Ok tt \/ res = Err errTerminated ->
      written s = map stamp (emittedElapsed maxT seg)).
Proof.
  intros Hloop Hrun.
  pose proof (segment_walked maxT stamp loop Hloop seg r (RecMuxer [] fl)) as Hw.
  rewrite Hrun in Hw. destruct Hw as (l & Hl & Hp & Hr). cbn [fst snd] in *.
  change (written (newEnv r (RecMuxer [] fl))) with (@nil Z) in Hl. cbn [app] in Hl.
  unfold emittedElapsed. split.
  - destruct (Hp []) as [rest Hrest]. rewrite app_nil_r in Hrest.
    exists (map stamp rest). now rewrite Hl, Hrest, map_app.
  - intros [-> | ->]; cbn [error_eqb] in Hr; specialize (Hr []);
      rewrite app_nil_r in Hr; cbn [elapsedOfTrafs] in Hr;
      rewrite ?app_nil_r in Hr; now rewrite Hl, Hr.
Qed.

End LoopsWrite.

Lemma i64_sub_exact a b :
  0 <= a < two63 -> 0 <= b < two63 -> i64 (i64 a - i64 b) = a - b.
Proof.
  intros Ha Hb. rewrite (i64_small a), (i64_small b) by lia.
  apply i64_small. lia.
Qed.


(** ** The RTSP source worker *)

Module RTSPFacts.
Import RTSP.

Lemma count_app p a b : count p (a ++ b) = (count p a + count p b)%nat.
Proof. unfold count. now rewrite filter_app, length_app. Qed.

Lemma count_split p k evs mid :
  count p (firstn k evs ++ mid ++ skipn k evs) = (count p evs + count p mid)%nat.
Proof.
  rewrite !count_app. rewrite <- (firstn_skipn k evs) at 3. rewrite count_app. lia.
Qed.

Lemma count_firstn_skipn p k evs :
  (count p (firstn k evs) + count p (skipn k evs))%nat = count p evs.
Proof. now rewrite <- count_app, firstn_skipn. Qed.

(** *** Ready and not-ready *)

Lemma session_paired a :
  count isSetReadyAccepted (fst (session a)) = count isSetNotReady (fst (session a)).
Proof.
  unfold session.
  destruct (optionsErr a); [reflexivity |].
  destruct (describeRes a); [reflexivity |].
  destruct (setupTracks (setupErr a) l); [reflexivity |].
  destruct (setReadyErr a); [reflexivity |].
  destruct (playErr a); reflexivity.
Qed.

Lemma runInner_paired a :
  count isSetReadyAccepted (fst (runInner a)) = count isSetNotReady (fst (runInner a)).
Proof.
  unfold runInner.
  destruct (parseURLErr a); [reflexivity |].
  destruct (startErr a); [reflexivity |].
  pose proof (session_paired a) as Hs.
  destruct (session a) as [evs out]. cbn [fst] in Hs.
  destruct (cancelAt a) as [k |], out; cbn [fst];
    change (?x :: ?l) with ([x] ++ l);
    rewrite ?count_app, ?count_split; cbn; rewrite ?count_firstn_skipn, ?Hs; lia.
Qed.

Lemma retryLoop_paired script :
  count isSetReadyAccepted (fst (retryLoop script))
  = count isSetNotReady (fst (retryLoop script)).
Proof.
  induction script as [| a rest IH]; [reflexivity |].
  cbn [retryLoop]. pose proof (runInner_paired a) as Ha.
  destruct (runInner a) as [evs [[|] | e]]; cbn [fst] in *; try exact Ha.
  destruct (pauseCancelled a).
  - cbn [fst]. rewrite !count_app, Ha. reflexivity.
  - destruct (retryLoop rest) as [evs' st]. cbn [fst] in *.
    rewrite !count_app, Ha, IH. reflexivity.
Qed.

Lemma run_paired script :
  count isSetReadyAccepted (fst (run script)) = count isSetNotReady (fst (run script)).
Proof.
  unfold run. pose proof (retryLoop_paired script) as H.
  destruct (retryLoop script) as [evs [| e |]]; cbn [fst] in *; try exact H.
  rewrite !count_app, H. reflexivity.
Qed.

Lemma session_not_ready_only_after_accept a :
  count isSetReadyAccepted (fst (session a)) = 0%nat ->
  count isSetNotReady (fst (session a)) = 0%nat.
Proof. now rewrite session_paired. Qed.

(** C9, corrected. In every run of the worker, whatever its length and its
    end, the calls of [onSourceStaticSetReady] that the parent accepted are
    as many as the calls of [OnSourceStaticSetNotReady]; so a run in which
    the parent accepted none has no not-ready call. A call the parent
    refuses is counted on neither side. *)
Theorem C9_ready_not_ready_paired :
  forall script,
    count isSetReadyAccepted (fst (run script)) = count isSetNotReady (fst (run script)).
Proof. exact run_paired. Qed.

(** The parent refuses the source once and the worker is closed: one call
    of [onSourceStaticSetReady], no call of [OnSourceStaticSetNotReady],
    in a run that ended and never was ready. *)
Lemma C9_ready_not_ready_counterexample :
  ~ (forall script,
       snd (run script) = Terminated ->
       count isSetReady (fst (run script)) = count isSetNotReady (fst (run script))).
Proof.
  intros Hclaim. specialize (Hclaim [parentRefuses] eq_refl).
  vm_compute in Hclaim. discriminate Hclaim.
Qed.

(** *** A SETUP that fails *)

Example run_options_refused :
  run [optionsRefused; streaming]
  = ([ log Debug "connecting"; logErr (Some "bad status code: 400"%string);
       EvRetryPause rtspSourceRetryPause;
       log Debug "connecting"; EvSetReady true; log Info "ready"; EvSetNotReady;
       logErr (Some "EOF"%string); EvRetryPause rtspSourceRetryPause ],
     Retrying).
Proof. reflexivity. Qed.

Example run_setup_refused :
  run [setupRefused; streaming]
  = ([log Debug "connecting"], Crashed "bad status code: 461"%string).
Proof. reflexivity. Qed.

(** A failing SETUP request: the error is not logged, no retry pause is
    entered, the run ends in the panic and the attempts that would follow
    are not made. The errors of the other requests are logged at INFO and
    followed by the pause. *)
Theorem C2_setup_failure_panics :
  (forall a rest tracks e,
     parseURLErr a = None -> startErr a = None -> optionsErr a = None ->
     describeRes a = inr tracks ->
     setupTracks (setupErr a) tracks = Some e ->
     snd (run (a :: rest)) = Crashed e
     /\ count isErrLog (fst (run (a :: rest))) = 0%nat
     /\ count isRetryPause (fst (run (a :: rest))) = 0%nat)
  /\ (forall a rest e,
        parseURLErr a = None -> startErr a = None -> optionsErr a = Some e ->
        cancelAt a = None -> pauseCancelled a = false ->
        fst (run (a :: rest))
        = [log Debug "connecting"; log Info ("ERR: " ++ e);
           EvRetryPause rtspSourceRetryPause] ++ fst (run rest)).
Proof.
  split.
  - intros a rest tracks e Hp Hs Ho Hd Hsetup.
    unfold run. cbn [retryLoop]. unfold runInner, session.
    rewrite Hp, Hs, Ho, Hd, Hsetup.
    destruct (cancelAt a) as [k |]; cbn [fst snd].
    + destruct k; cbn; auto.
    + cbn. auto.
  - intros a rest e Hp Hs Ho Hc Hpc.
    unfold run. cbn [retryLoop]. unfold runInner, session.
    rewrite Hp, Hs, Ho, Hc, Hpc. cbn [fst snd].
    destruct (retryLoop rest) as [evs [| e' |]]; cbn [fst snd app]; reflexivity.
Qed.

Lemma C2_setup_failure_panics_witness :
  snd (run [setupRefused; streaming]) = Crashed "bad status code: 461"%string
  /\ count isErrLog (fst (run [setupRefused; streaming])) = 0%nat
  /\ count isRetryPause (fst (run [setupRefused; streaming])) = 0%nat.
Proof.
  destruct C2_setup_failure_panics as [Hsetup _].
  apply (Hsetup setupRefused [streaming] [0] "bad status code: 461"%string);
    reflexivity.
Defined.

(** *** close *)







End RTSPFacts.

(** * Further properties of the code *)

(** ** The two conversions *)

Lemma mp4ToGo_exact_wide v :
  0 <= v ->
  v / 90000 * Second + v mod 90000 * Second / 90000 < 2 ^ 63 ->
  durationMp4ToGo v fmp4Timescale
  = v / 90000 * Second + v mod 90000 * Second / 90000.
Proof.
  intros Hv Hfit. cbv beta zeta delta [durationMp4ToGo fmp4Timescale Second] in *.
  rewrite (u64_small 90000) by (unfold two64; lia).
  assert (Hq : 0 <= v / 90000) by (apply Z.div_pos; lia).
  pose proof (Z.mod_pos_bound v 90000 ltac:(lia)) as Hr.
  assert (Hx : 0 <= v mod 90000 * 1000000000 / 90000 < 1000000000) by
    (split; [apply Z.div_pos; lia | apply Z.div_lt_upper_bound; lia]).
  rewrite (i64_small 90000) by (unfold two63; lia).
  rewrite (i64_small (v / 90000)), (i64_small (v mod 90000)) by (unfold two63; lia).
  rewrite (i64_small (v / 90000 * 1000000000)) by (unfold two63; lia).
  rewrite (i64_small (v mod 90000 * 1000000000)) by (unfold two63; lia).
  rewrite Z.quot_div_nonneg by lia.
  rewrite i64_small by (unfold two63; lia).
  reflexivity.
Qed.

Lemma split_floor a b t :
  0 < b -> a / b * t + a mod b * t / b = a * t / b.
Proof.
  intros Hb. rewrite (Z.div_mod a b) at 3 by lia.
  replace ((b * (a / b) + a mod b) * t) with (a / b * t * b + a mod b * t) by ring.
  rewrite Z.div_add_l by lia. reflexivity.
Qed.

Lemma goToMp4_floor d :
  0 <= d < 2 ^ 63 ->
  durationGoToMp4 d fmp4Timescale = d * 90000 / Second.
Proof.
  intros Hd. rewrite goToMp4_exact by (unfold two63; lia).
  apply split_floor. reflexivity.
Qed.

Lemma mp4ToGo_floor v :
  0 <= v -> v * Second / 90000 < 2 ^ 63 ->
  durationMp4ToGo v fmp4Timescale = v * Second / 90000.
Proof.
  intros Hv Hfit. rewrite <- (split_floor v 90000 Second) in * by lia.
  now apply mp4ToGo_exact_wide.
Qed.

(** The split into whole seconds and a fraction computes the floor of
    [d * 90000 / 1 s] without the product leaving 64 bits, for every
    duration that is not negative. *)
Theorem durationGoToMp4_floor d :
  0 <= d < 2 ^ 63 ->
  durationGoToMp4 d fmp4Timescale = d * 90000 / Second.
Proof.
  intros Hd. rewrite goToMp4_exact by (unfold two63; lia).
  apply split_floor. reflexivity.
Qed.

Lemma durationGoToMp4_floor_witness :
  0 <= 1500000000 < 2 ^ 63 /\ durationGoToMp4 1500000000 fmp4Timescale = 135000.
Proof.
  split; [lia |]. rewrite (durationGoToMp4_floor 1500000000) by lia. reflexivity.
Defined.

(** The other way: a number of ticks whose time fits an [int64] of
    nanoseconds goes to the floor of [v * 1 s / 90000], although [v * 1 s]
    may not fit 64 bits. *)
Theorem durationMp4ToGo_floor v :
  0 <= v -> v * Second / 90000 < 2 ^ 63 ->
  durationMp4ToGo v fmp4Timescale = v * Second / 90000.
Proof.
  intros Hv Hfit. rewrite <- (split_floor v 90000 Second) in * by lia.
  now apply mp4ToGo_exact_wide.
Qed.

Lemma durationMp4ToGo_floor_witness :
  durationMp4ToGo 135001 fmp4Timescale = 1500011111.
Proof.
  rewrite (durationMp4ToGo_floor 135001); [reflexivity | lia |].
  vm_compute. reflexivity.
Defined.

(** Both conversions keep the order of times. *)
Theorem conversions_monotone :
  (forall d1 d2, 0 <= d1 <= d2 -> d2 < 2 ^ 63 ->
     durationGoToMp4 d1 fmp4Timescale <= durationGoToMp4 d2 fmp4Timescale)
  /\ (forall v1 v2, 0 <= v1 <= v2 -> v2 * Second / 90000 < 2 ^ 63 ->
        durationMp4ToGo v1 fmp4Timescale <= durationMp4ToGo v2 fmp4Timescale).
Proof.
  split.
  - intros d1 d2 H12 H2. rewrite !goToMp4_floor by lia.
    apply Z.div_le_mono; unfold Second; lia.
  - intros v1 v2 H12 H2.
    assert (H1 : v1 * Second / 90000 <= v2 * Second / 90000)
      by (apply Z.div_le_mono; unfold Second; lia).
    rewrite !mp4ToGo_floor by lia. exact H1.
Qed.

Lemma conversions_monotone_witness :
  durationGoToMp4 999999999 fmp4Timescale <= durationGoToMp4 1000000000 fmp4Timescale
  /\ durationMp4ToGo 89999 fmp4Timescale <= durationMp4ToGo 90000 fmp4Timescale.
Proof.
  destruct conversions_monotone as [Hgo Hmp4]. split.
  - apply Hgo; lia.
  - apply Hmp4; [lia |]. vm_compute. reflexivity.
Defined.

(** A duration taken to ticks and back is never later than it was, and
    less than 11113 ns (a tick and a nanosecond's rounding) earlier. *)
Theorem go_mp4_go_within_one_tick d :
  0 <= d < 2 ^ 63 ->
  d - 11112 <= durationMp4ToGo (durationGoToMp4 d fmp4Timescale) fmp4Timescale <= d.
Proof.
  intros Hd. rewrite goToMp4_floor by assumption. unfold Second.
  pose proof (Z.div_mod (d * 90000) 1000000000 ltac:(lia)) as E1.
  pose proof (Z.mod_pos_bound (d * 90000) 1000000000 ltac:(lia)) as B1.
  set (v := d * 90000 / 1000000000) in *.
  pose proof (Z.div_mod (v * 1000000000) 90000 ltac:(lia)) as E2.
  pose proof (Z.mod_pos_bound (v * 1000000000) 90000 ltac:(lia)) as B2.
  assert (Hv : 0 <= v) by (subst v; apply Z.div_pos; lia).
  rewrite mp4ToGo_floor; unfold Second; [| lia |];
    set (z := v * 1000000000 / 90000) in *; lia.
Qed.

Lemma go_mp4_go_within_one_tick_witness :
  11111 - 11112 <= durationMp4ToGo (durationGoToMp4 11111 fmp4Timescale) fmp4Timescale
  <= 11111.
Proof. apply (go_mp4_go_within_one_tick 11111). lia. Defined.

(** A negative duration: whole seconds go to the two's complement of their
    ticks, which the signed subtractions of the callers undo; a negative
    fraction of a second is turned into [uint64] before it is scaled, and
    comes out as some 1.8e10 ticks (more than two days), not as a small
    negative number. *)
Theorem durationGoToMp4_negative :
  (forall n, 0 < n <= 9223372036 ->
     durationGoToMp4 (- (n * Second)) fmp4Timescale = two64 - n * 90000)
  /\ (forall d, - Second < d < 0 ->
        durationGoToMp4 d fmp4Timescale = (two64 + d * 90000) / Second
        /\ 18446654073 <= durationGoToMp4 d fmp4Timescale <= 18446744073).
Proof.
  split.
  - intros n Hn. cbv beta zeta delta [durationGoToMp4 fmp4Timescale Second].
    rewrite Z.quot_opp_l, Z.rem_opp_l by lia.
    rewrite Z.quot_mul, Z.rem_mul by lia.
    rewrite (u64_small 90000), (u64_small 1000000000) by (unfold two64; lia).
    change (u64 (- 0)) with 0. change (u64 (0 * 90000) / 1000000000) with 0.
    rewrite Z.add_0_r.
    assert (E1 : u64 (- n) = two64 - n).
    { unfold u64. symmetry. apply Z.mod_unique with (q := -1); unfold two64; lia. }
    rewrite E1.
    assert (E2 : u64 ((two64 - n) * 90000) = two64 - n * 90000).
    { unfold u64. symmetry. apply Z.mod_unique with (q := 89999); unfold two64; lia. }
    rewrite E2. apply u64_small. unfold two64. lia.
  - intros d Hd. unfold Second in Hd.
    assert (E : durationGoToMp4 d fmp4Timescale = (two64 + d * 90000) / Second).
    { cbv beta zeta delta [durationGoToMp4 fmp4Timescale Second].
      replace d with (- (- d)) at 1 2 by lia.
      rewrite Z.quot_opp_l, Z.rem_opp_l by lia.
      rewrite Z.quot_small, Z.rem_small by lia.
      rewrite Z.opp_involutive.
      rewrite (u64_small 90000), (u64_small 1000000000) by (unfold two64; lia).
      change (u64 (- 0) * 90000) with 0. change (u64 0) with 0. rewrite Z.add_0_l.
      assert (E1 : u64 d = two64 + d).
      { unfold u64. symmetry. apply Z.mod_unique with (q := -1); unfold two64; lia. }
      rewrite E1.
      assert (E2 : u64 ((two64 + d) * 90000) = two64 + d * 90000).
      { unfold u64. symmetry. apply Z.mod_unique with (q := 89999); unfold two64; lia. }
      rewrite E2. apply u64_small. unfold two64.
      split; [apply Z.div_pos; lia | apply Z.div_lt_upper_bound; lia]. }
    split; [exact E |]. rewrite E. unfold two64, Second.
    split; [apply Z.div_le_lower_bound | apply Z.lt_succ_r, Z.div_lt_upper_bound]; lia.
Qed.

Lemma durationGoToMp4_negative_witness :
  durationGoToMp4 (- (1 * Second)) fmp4Timescale = two64 - 1 * 90000
  /\ 18446654073 <= durationGoToMp4 (- 500000000) fmp4Timescale <= 18446744073.
Proof.
  destruct durationGoToMp4_negative as [Hwhole Hfrac]. split.
  - apply Hwhole. lia.
  - apply Hfrac. unfold Second. lia.
Defined.

(** ** The concatenation predicate *)

(** The predicate does not depend on which of the two segments comes
    first, and a segment that starts where the previous one ended, with the
    same init, can always be appended. *)
Theorem canBeConcatenated_symmetric :
  (forall i1 t1 i2 t2,
     segmentFMP4CanBeConcatenated i1 t1 i2 t2 = segmentFMP4CanBeConcatenated i2 t2 i1 t1)
  /\ (forall init t, segmentFMP4CanBeConcatenated init t init t = true).
Proof.
  split.
  - intros i1 t1 i2 t2.
    destruct (segmentFMP4CanBeConcatenated i1 t1 i2 t2) eqn:E1;
      destruct (segmentFMP4CanBeConcatenated i2 t2 i1 t1) eqn:E2; try reflexivity.
    + apply canBeConcatenated_iff in E1. destruct E1 as [-> Ht].
      assert (E : segmentFMP4CanBeConcatenated i2 t2 i2 t1 = true)
        by (apply canBeConcatenated_iff; split; [reflexivity | lia]).
      congruence.
    + apply canBeConcatenated_iff in E2. destruct E2 as [-> Ht].
      assert (E : segmentFMP4CanBeConcatenated i1 t1 i1 t2 = true)
        by (apply canBeConcatenated_iff; split; [reflexivity | lia]).
      congruence.
  - intros init t. apply canBeConcatenated_iff. split; [reflexivity |].
    unfold Millisecond. lia.
Qed.

(** ** Box headers *)

Lemma lor_shiftl_low hi lo n :
  0 <= n -> 0 <= lo < 2 ^ n -> Z.lor (Z.shiftl hi n) lo = hi * 2 ^ n + lo.
Proof.
  intros Hn Hlo.
  assert (Hdisj : Z.land (Z.shiftl hi n) lo = 0).
  { apply Z.bits_inj'. intros k Hk. rewrite Z.land_spec, Z.bits_0.
    destruct (Z.lt_ge_cases k n) as [Hlt | Hge].
    - rewrite Z.shiftl_spec_low by assumption. reflexivity.
    - destruct (Z.eq_dec lo 0) as [-> | Hnz]; [now rewrite Z.bits_0, andb_false_r |].
      rewrite (Z.bits_above_log2 lo k), andb_false_r; [reflexivity | lia |].
      apply Z.log2_lt_pow2; [lia |].
      apply Z.lt_le_trans with (2 ^ n); [lia | apply Z.pow_le_mono_r; lia]. }
  rewrite <- Z.lxor_lor, <- Z.add_nocarry_lxor by assumption.
  now rewrite Z.shiftl_mul_pow2.
Qed.

Lemma byteZ_range b : 0 <= byteZ b < 256.
Proof.
  unfold byteZ. pose proof (Byte.to_N_bounded b) as Hb. lia.
Qed.

Lemma boxSize_value b0 b1 b2 b3 rest :
  boxSize (b0 :: b1 :: b2 :: b3 :: rest)
  = byteZ b0 * 2 ^ 24 + byteZ b1 * 2 ^ 16 + byteZ b2 * 2 ^ 8 + byteZ b3.
Proof.
  pose proof (byteZ_range b0). pose proof (byteZ_range b1).
  pose proof (byteZ_range b2). pose proof (byteZ_range b3).
  unfold boxSize. cbn [nth].
  replace (Z.shiftl (byteZ b0) 24) with (Z.shiftl (Z.shiftl (byteZ b0) 16) 8)
    by (rewrite Z.shiftl_shiftl by lia; reflexivity).
  replace (Z.shiftl (byteZ b1) 16) with (Z.shiftl (Z.shiftl (byteZ b1) 8) 8)
    by (rewrite Z.shiftl_shiftl by lia; reflexivity).
  rewrite <- !Z.shiftl_lor.
  rewrite (lor_shiftl_low _ (byteZ b3) 8) by lia.
  replace (Z.shiftl (Z.shiftl (byteZ b0) 16) 0) with (Z.shiftl (byteZ b0) 16)
    by reflexivity.
  replace (Z.shiftl (byteZ b0) 16) with (Z.shiftl (Z.shiftl (byteZ b0) 8) 8)
    by (rewrite Z.shiftl_shiftl by lia; reflexivity).
  rewrite <- !Z.shiftl_lor.
  rewrite (lor_shiftl_low _ (byteZ b2) 8) by lia.
  rewrite (lor_shiftl_low _ (byteZ b1) 8) by lia.
  ring.
Qed.

(** The size field of a box header is read as a big-endian number of 32
    bits: it is never negative and below 2^32, so [int64(size) - 8] is a
    seek offset between -8 and 2^32 - 9. *)
Theorem boxSize_big_endian b0 b1 b2 b3 rest :
  boxSize (b0 :: b1 :: b2 :: b3 :: rest)
  = byteZ b0 * 2 ^ 24 + byteZ b1 * 2 ^ 16 + byteZ b2 * 2 ^ 8 + byteZ b3
  /\ 0 <= boxSize (b0 :: b1 :: b2 :: b3 :: rest) < 2 ^ 32.
Proof.
  rewrite boxSize_value. split; [reflexivity |].
  pose proof (byteZ_range b0). pose proof (byteZ_range b1).
  pose proof (byteZ_range b2). pose proof (byteZ_range b3).
  lia.
Qed.

(** ** segmentFMP4ReadInit *)

Example readInit_run :
  snd (segmentFMP4ReadInit
         (MemReader (mkBox "ftyp" [x69; x73; x6f; x6d] ++ mkBox "moov" [x01; x02]
                     ++ mkBox "moof" []) 0))
  = Ok (mkBox "ftyp" [x69; x73; x6f; x6d] ++ mkBox "moov" [x01; x02]).
Proof. reflexivity. Qed.

(** On a segment that starts with an [ftyp] box and a [moov] box, the
    result is these two boxes, byte for byte, whatever follows them; the
    reader is left right after the [moov] box. *)
Theorem readInit_returns_prefix (h1 b1 h2 b2 rest : list byte) :
  List.length h1 = 8%nat -> hasTag h1 "ftyp" = true ->
  boxSize h1 = 8 + Z.of_nat (List.length b1) ->
  List.length h2 = 8%nat -> hasTag h2 "moov" = true ->
  boxSize h2 = 8 + Z.of_nat (List.length b2) ->
  16 + Z.of_nat (List.length b1) + Z.of_nat (List.length b2) < 2 ^ 32 ->
  segmentFMP4ReadInit (MemReader (h1 ++ b1 ++ h2 ++ b2 ++ rest) 0)
  = (MemReader (h1 ++ b1 ++ h2 ++ b2 ++ rest)
       (16 + Z.of_nat (List.length b1) + Z.of_nat (List.length b2)),
     Ok (h1 ++ b1 ++ h2 ++ b2)).
Proof.
  intros L1 T1 S1 L2 T2 S2 Hfit.
  unfold segmentFMP4ReadInit, readHeader, bind, ret, fail.
  change (@seek memReader _) with mem_seek.
  change (@readFull memReader _) with mem_readFull.
  pose proof (mem_readFull_at [] h1 (b1 ++ h2 ++ b2 ++ rest)) as E1.
  rewrite L1 in E1. cbn [List.length app Z.of_nat] in E1.
  change (Z.pos (Pos.of_succ_nat 7)) with 8 in E1.
  rewrite E1 by (destruct h1; [discriminate | congruence]).
  rewrite T1. cbn [negb]. rewrite S1.
  unfold mem_seek at 1. cbn [mr_data mr_pos].
  destruct (Z.ltb_spec (8 + Z.of_nat (List.length b1)) 0); [lia |].
  pose proof (mem_readFull_at (h1 ++ b1) h2 (b2 ++ rest)) as E2.
  rewrite length_app, L1, L2, Nat2Z.inj_add in E2.
  rewrite <- !app_assoc in E2.
  change (Z.of_nat 8) with 8 in E2.
  rewrite E2 by (destruct h2; [discriminate | congruence]).
  rewrite T2. cbn [negb]. rewrite S2.
  unfold mem_seek. cbn [mr_data mr_pos]. cbn [Z.ltb Z.compare].
  rewrite u32_small by (unfold two32; lia).
  pose proof (mem_readFull_at [] (h1 ++ b1 ++ h2 ++ b2) rest) as E3.
  rewrite !length_app, L1, L2 in E3. cbn [List.length app] in E3.
  rewrite <- !app_assoc in E3.
  replace (Z.of_nat (8 + (List.length b1 + (8 + List.length b2))))
    with (8 + Z.of_nat (List.length b1) + (8 + Z.of_nat (List.length b2))) in E3 by lia.
  change (Z.of_nat 0) with 0 in E3.
  rewrite E3 by (destruct h1; [discriminate | discriminate]).
  f_equal. f_equal. lia.
Qed.

Lemma readInit_returns_prefix_witness :
  segmentFMP4ReadInit
    (MemReader (boxHeader 12 "ftyp" ++ [x69; x73; x6f; x6d]
                ++ boxHeader 9 "moov" ++ [x07] ++ [xff; xfe]) 0)
  = (MemReader (boxHeader 12 "ftyp" ++ [x69; x73; x6f; x6d]
                ++ boxHeader 9 "moov" ++ [x07] ++ [xff; xfe]) (16 + 4 + 1),
     Ok (boxHeader 12 "ftyp" ++ [x69; x73; x6f; x6d] ++ boxHeader 9 "moov" ++ [x07])).
Proof.
  apply (readInit_returns_prefix (boxHeader 12 "ftyp") [x69; x73; x6f; x6d]
           (boxHeader 9 "moov") [x07] [xff; xfe]); try reflexivity.
Defined.

(** What makes [segmentFMP4ReadInit] fail: fewer than 8 bytes give an I/O
    error; a first box that is not [ftyp] gives "ftyp box not found"; a
    second box that is not [moov] gives "moov box not found"; a [moov] box
    cut short gives an I/O error. *)
Theorem readInit_errors :
  (forall data,
     (List.length data < 8)%nat ->
     exists e, snd (segmentFMP4ReadInit (MemReader data 0)) = Err e
               /\ is_io_error e = true)
  /\ (forall h rest,
        List.length h = 8%nat -> hasTag h "ftyp" = false ->
        snd (segmentFMP4ReadInit (MemReader (h ++ rest) 0))
        = Err (ErrBoxNotFound "ftyp"))
  /\ (forall h1 b1 h2 rest,
        List.length h1 = 8%nat -> hasTag h1 "ftyp" = true ->
        boxSize h1 = 8 + Z.of_nat (List.length b1) ->
        List.length h2 = 8%nat -> hasTag h2 "moov" = false ->
        snd (segmentFMP4ReadInit (MemReader (h1 ++ b1 ++ h2 ++ rest) 0))
        = Err (ErrBoxNotFound "moov"))
  /\ (forall h1 b1 h2 b2,
        List.length h1 = 8%nat -> hasTag h1 "ftyp" = true ->
        boxSize h1 = 8 + Z.of_nat (List.length b1) ->
        List.length h2 = 8%nat -> hasTag h2 "moov" = true ->
        16 + Z.of_nat (List.length b1) + Z.of_nat (List.length b2)
          < boxSize h1 + boxSize h2 < 2 ^ 32 ->
        exists e, snd (segmentFMP4ReadInit (MemReader (h1 ++ b1 ++ h2 ++ b2) 0)) = Err e
                  /\ is_io_error e = true).
Proof.
  split; [| split; [| split]].
  - intros data Hlen.
    unfold segmentFMP4ReadInit, readHeader, bind.
    change (@readFull memReader _) with mem_readFull.
    destruct (mem_readFull_short 8 (MemReader data 0)) as (r' & e & -> & He); [lia | |].
    + unfold mr_len. cbn [mr_data mr_pos]. lia.
    + now exists e.
  - intros h rest L T.
    unfold segmentFMP4ReadInit, readHeader, bind, fail.
    change (@readFull memReader _) with mem_readFull.
    pose proof (mem_readFull_at [] h rest) as E.
    rewrite L in E. cbn [List.length app Z.of_nat] in E.
    change (Z.pos (Pos.of_succ_nat 7)) with 8 in E.
    rewrite E by (destruct h; [discriminate | congruence]).
    now rewrite T.
  - intros h1 b1 h2 rest L1 T1 S1 L2 T2.
    unfold segmentFMP4ReadInit, readHeader, bind, ret, fail.
    change (@seek memReader _) with mem_seek.
    change (@readFull memReader _) with mem_readFull.
    pose proof (mem_readFull_at [] h1 (b1 ++ h2 ++ rest)) as E1.
    rewrite L1 in E1. cbn [List.length app Z.of_nat] in E1.
    change (Z.pos (Pos.of_succ_nat 7)) with 8 in E1.
    rewrite E1 by (destruct h1; [discriminate | congruence]).
    rewrite T1. cbn [negb]. rewrite S1.
    unfold mem_seek at 1. cbn [mr_data mr_pos].
    destruct (Z.ltb_spec (8 + Z.of_nat (List.length b1)) 0); [lia |].
    pose proof (mem_readFull_at (h1 ++ b1) h2 rest) as E2.
    rewrite length_app, L1, L2, Nat2Z.inj_add in E2.
    rewrite <- !app_assoc in E2.
    change (Z.of_nat 8) with 8 in E2.
    rewrite E2 by (destruct h2; [discriminate | congruence]).
    now rewrite T2.
  - intros h1 b1 h2 b2 L1 T1 S1 L2 T2 Hcut.
    unfold segmentFMP4ReadInit, readHeader, bind, ret, fail.
    change (@seek memReader _) with mem_seek.
    change (@readFull memReader _) with mem_readFull.
    pose proof (mem_readFull_at [] h1 (b1 ++ h2 ++ b2)) as E1.
    rewrite L1 in E1. cbn [List.length app Z.of_nat] in E1.
    change (Z.pos (Pos.of_succ_nat 7)) with 8 in E1.
    rewrite E1 by (destruct h1; [discriminate | congruence]).
    rewrite T1. cbn [negb]. rewrite S1.
    unfold mem_seek at 1. cbn [mr_data mr_pos].
    destruct (Z.ltb_spec (8 + Z.of_nat (List.length b1)) 0); [lia |].
    pose proof (mem_readFull_at (h1 ++ b1) h2 b2) as E2.
    rewrite length_app, L1, L2, Nat2Z.inj_add in E2.
    rewrite <- !app_assoc in E2.
    change (Z.of_nat 8) with 8 in E2.
    rewrite E2 by (destruct h2; [discriminate | congruence]).
    rewrite T2. cbn [negb].
    unfold mem_seek. cbn [mr_data mr_pos]. cbn [Z.ltb Z.compare].
    rewrite <- S1. rewrite u32_small by (unfold two32; lia).
    destruct (mem_readFull_short (boxSize h1 + boxSize h2)
                (MemReader (h1 ++ b1 ++ h2 ++ b2) 0)) as (r' & e & -> & He).
    + lia.
    + unfold mr_len. cbn [mr_data mr_pos]. rewrite !length_app, L1, L2. lia.
    + now exists e.
Qed.

Lemma readInit_errors_witness :
  snd (segmentFMP4ReadInit (MemReader (boxHeader 8 "styp" ++ [x00]) 0))
  = Err (ErrBoxNotFound "ftyp").
Proof.
  destruct readInit_errors as (_ & Hftyp & _).
  apply (Hftyp (boxHeader 8 "styp") [x00]); reflexivity.
Defined.

(** Where [segmentFMP4ReadInit] succeeds, the first step of
    [segmentFMP4ReadMaxDuration] does too: the two functions accept the
    same [ftyp] and [moov] headers. *)
Theorem readInit_then_skipInit (r : memReader) r' init :
  segmentFMP4ReadInit r = (r', Ok init) ->
  exists r'', skipInit r = (r'', Ok tt).
Proof.
  unfold segmentFMP4ReadInit, skipInit, readHeader, bind, ret, fail.
  change (@seek memReader _) with mem_seek.
  change (@readFull memReader _) with mem_readFull.
  destruct (mem_readFull 8 r) as [r1 [buf | e | |]]; try discriminate.
  destruct (negb (hasTag buf "ftyp")); [discriminate |].
  destruct (mem_seek (boxSize buf) SeekStart r1) as [r2 [p | e | |]] eqn:E2;
    try discriminate.
  destruct (mem_readFull 8 r2) as [r3 [buf2 | e | |]] eqn:E3; try discriminate.
  destruct (negb (hasTag buf2 "moov")); [discriminate |].
  intros _.
  unfold mem_seek in E2.
  destruct (boxSize buf <? 0); [discriminate |]. injection E2 as <- _.
  apply mem_readFull_ok in E3; [| lia]. cbn [mr_data mr_pos] in E3.
  destruct E3 as (-> & _ & _).
  pose proof (boxSize_nonneg buf). pose proof (boxSize_nonneg buf2).
  unfold mem_seek. cbn [mr_data mr_pos].
  destruct (Z.ltb_spec (boxSize buf + 8 + (boxSize buf2 - 8)) 0); [lia |].
  eexists. reflexivity.
Qed.

Lemma readInit_then_skipInit_witness :
  exists r'',
    skipInit (MemReader (mkBox "ftyp" [] ++ mkBox "moov" [x01]) 0) = (r'', Ok tt).
Proof.
  apply (readInit_then_skipInit _
           (MemReader (mkBox "ftyp" [] ++ mkBox "moov" [x01]) 17)
           (mkBox "ftyp" [] ++ mkBox "moov" [x01])).
  reflexivity.
Defined.

(** ** segmentFMP4ReadMaxDuration ends on every file *)

(** A call has ended with a value or with an error. *)
Definition settled {A} (res : result A) : Prop :=
  match res with Ok _ | Err _ => True | _ => False end.

(** The reader is still on the same bytes, at a position that is not
    negative. *)
Definition onFile (data : list byte) (r : memReader) : Prop :=
  mr_data r = data /\ 0 <= mr_pos r.

Lemma mem_readFull_onFile data n r :
  onFile data r ->
  onFile data (fst (mem_readFull n r)) /\ settled (snd (mem_readFull n r)).
Proof.
  intros [Hd Hp]. unfold mem_readFull, onFile, mr_len.
  destruct (Z.leb_spec n 0); [cbn; auto |].
  destruct (Z.leb_spec (mr_pos r + n) (Z.of_nat (List.length (mr_data r)))).
  - cbn. repeat split; auto. lia.
  - destruct (Z.leb_spec (Z.of_nat (List.length (mr_data r))) (mr_pos r)); cbn;
      repeat split; auto; lia.
Qed.

Lemma mem_seek_onFile data off w r :
  onFile data r ->
  onFile data (fst (mem_seek off w r)) /\ settled (snd (mem_seek off w r)).
Proof.
  intros [Hd Hp]. unfold mem_seek, onFile.
  destruct (Z.ltb_spec (match w with
                        | SeekStart => off
                        | SeekCurrent => mr_pos r + off
                        | SeekEnd => mr_len r + off
                        end) 0); cbn; auto.
Qed.

Lemma mem_readFull_adv n r r' buf :
  0 <= n -> mem_readFull n r = (r', Ok buf) ->
  mr_data r' = mr_data r /\ mr_pos r' = mr_pos r + n
  /\ (0 < n -> mr_pos r + n <= mr_len r).
Proof.
  intros Hn. unfold mem_readFull.
  destruct (Z.leb_spec n 0).
  - intros [= <- _]. repeat split; lia.
  - destruct (Z.leb_spec (mr_pos r + n) (mr_len r)).
    + intros [= <- _]. cbn. auto.
    + destruct (mr_len r <=? mr_pos r); discriminate.
Qed.

Lemma scanPairs_onFile data fuel : forall last r,
  onFile data r -> onFile data (fst (scanPairs fuel last r)).
Proof.
  induction fuel as [| fuel IH]; intros last r Hr; [exact Hr |].
  rewrite scanPairs_unfold.
  change (@seek memReader _) with mem_seek.
  change (@readFull memReader _) with mem_readFull.
  pose proof (mem_seek_onFile data 0 SeekCurrent r Hr) as [H1 _].
  destruct (mem_seek 0 SeekCurrent r) as [r1 [p1 | e | |]]; cbn [fst] in *; auto.
  pose proof (mem_readFull_onFile data 8 r1 H1) as [H2 _].
  destruct (mem_readFull 8 r1) as [r2 [buf | e | |]]; cbn [fst] in *; auto.
  destruct (negb (hasTag buf "moof")); cbn [fst]; auto.
  pose proof (mem_seek_onFile data (boxSize buf - 8) SeekCurrent r2 H2) as [H3 _].
  destruct (mem_seek (boxSize buf - 8) SeekCurrent r2) as [r3 [p3 | e | |]];
    cbn [fst] in *; auto.
  pose proof (mem_readFull_onFile data 8 r3 H3) as [H4 _].
  destruct (mem_readFull 8 r3) as [r4 [buf2 | e | |]]; cbn [fst] in *; auto.
  destruct (negb (hasTag buf2 "mdat")); cbn [fst]; auto.
  pose proof (mem_seek_onFile data (boxSize buf2 - 8) SeekCurrent r4 H4) as [H5 _].
  destruct (mem_seek (boxSize buf2 - 8) SeekCurrent r4) as [r5 [p5 | e | |]];
    cbn [fst] in *; auto.
Qed.

Section TrafLoop.

Variable unmarshalTfdt : list byte -> option Tfdt.
Variable unmarshalTrun : list byte -> option Trun.

Ltac no_panic :=
  match goal with
  | E : mem_readFull ?n ?r0 = (_, _) |- False =>
      let Hs := fresh in
      pose proof (mem_readFull_io n r0) as Hs; rewrite E in Hs; exact Hs
  | E : mem_seek ?o ?w ?r0 = (_, _) |- False =>
      let Hs := fresh in
      pose proof (mem_seek_io o w r0) as Hs; rewrite E in Hs; exact Hs
  end.

Lemma scanTrafs_settled fuel : forall maxEl (r : memReader),
  0 <= mr_pos r -> (0 < fuel)%nat -> mr_len r - mr_pos r < Z.of_nat fuel ->
  settled (snd (scanTrafs unmarshalTfdt unmarshalTrun fuel maxEl r)).
Proof.
  induction fuel as [| fuel IH]; intros maxEl r Hpos Hf Hlen; [lia |].
  cbn [scanTrafs]. unfold readHeader, bind, ret, fail.
  change (@seek memReader _) with mem_seek.
  change (@readFull memReader _) with mem_readFull.
  destruct (mem_readFull 8 r) as [r1 [buf | e | |]] eqn:E1; cbn [snd settled]; auto;
    try (no_panic);
    idtac.
  apply mem_readFull_adv in E1; [| lia]. destruct E1 as (D1 & P1 & F1).
  destruct (negb (hasTag buf "traf")).
  { destruct (hasTag buf "mdat"); exact I. }
  destruct (mem_readFull 8 r1) as [r2 [buf2 | e | |]] eqn:E2; cbn [snd settled]; auto;
    try (no_panic);
    idtac.
  apply mem_readFull_adv in E2; [| lia]. destruct E2 as (D2 & P2 & F2).
  destruct (negb (hasTag buf2 "tfhd")); [exact I |].
  pose proof (boxSize_nonneg buf2) as Hb2.
  destruct (mem_seek (boxSize buf2 - 8) SeekCurrent r2) as [r3 [p3 | e | |]] eqn:E3;
    cbn [snd settled]; auto;
    try (no_panic);
    idtac.
  apply mem_seek_cur_ok in E3. destruct E3 as (-> & P3). cbn [mr_data mr_pos] in *.
  destruct (mem_readFull 8 _) as [r4 [buf4 | e | |]] eqn:E4; cbn [snd settled]; auto;
    try (no_panic);
    idtac.
  apply mem_readFull_adv in E4; [| lia]. cbn [mr_data mr_pos] in E4.
  destruct E4 as (D4 & P4 & F4).
  destruct (negb (hasTag buf4 "tfdt")); [exact I |].
  pose proof (u32_range (boxSize buf4 - 8)) as Hn1.
  destruct (mem_readFull (u32 (boxSize buf4 - 8)) r4) as [r5 [buf5 | e | |]] eqn:E5;
    cbn [snd settled]; auto;
    try (no_panic);
    idtac.
  apply mem_readFull_adv in E5; [| lia]. destruct E5 as (D5 & P5 & F5).
  destruct (unmarshalTfdt buf5) as [tfdt |]; [| exact I].
  destruct (mem_readFull 8 r5) as [r6 [buf6 | e | |]] eqn:E6; cbn [snd settled]; auto;
    try (no_panic);
    idtac.
  apply mem_readFull_adv in E6; [| lia]. destruct E6 as (D6 & P6 & F6).
  destruct (negb (hasTag buf6 "trun")); [exact I |].
  pose proof (u32_range (boxSize buf6 - 8)) as Hn2.
  destruct (mem_readFull (u32 (boxSize buf6 - 8)) r6) as [r7 [buf7 | e | |]] eqn:E7;
    cbn [snd settled]; auto;
    try (no_panic);
    idtac.
  apply mem_readFull_adv in E7; [| lia]. destruct E7 as (D7 & P7 & F7).
  destruct (unmarshalTrun buf7) as [trun |]; [| exact I].
  assert (Lr : mr_len r7 = mr_len r).
  { unfold mr_len. now rewrite D7, D6, D5, D4, D2, D1. }
  specialize (F1 ltac:(lia)).
  apply IH; [lia | lia | rewrite Lr; lia].
Qed.

(** [segmentFMP4ReadMaxDuration] reads sizes from the file and seeks by
    them, also backwards (a size below 8); still, on every sequence of
    bytes its two loops end, within as many iterations as the file has
    bytes, and the call returns a duration or an error. *)
Theorem readMaxDuration_terminates (data : list byte) :
  settled (snd (segmentFMP4ReadMaxDuration unmarshalTfdt unmarshalTrun
                  (S (List.length data)) (MemReader data 0))).
Proof.
  unfold segmentFMP4ReadMaxDuration, bind.
  assert (H0 : onFile data (MemReader data 0)) by (split; [reflexivity | cbn; lia]).
  assert (Hinit : onFile data (fst (skipInit (MemReader data 0)))
                  /\ settled (snd (skipInit (MemReader data 0)))).
  { unfold skipInit, readHeader, bind, ret, fail.
    change (@seek memReader _) with mem_seek.
    change (@readFull memReader _) with mem_readFull.
    pose proof (mem_readFull_onFile data 8 _ H0) as [H1 S1].
    destruct (mem_readFull 8 (MemReader data 0)) as [r1 [buf | e | |]];
      cbn [fst snd] in *; auto.
    destruct (negb (hasTag buf "ftyp")); cbn [fst snd]; auto.
    pose proof (mem_seek_onFile data (boxSize buf) SeekStart r1 H1) as [H2 S2].
    destruct (mem_seek (boxSize buf) SeekStart r1) as [r2 [p | e | |]];
      cbn [fst snd] in *; auto.
    pose proof (mem_readFull_onFile data 8 r2 H2) as [H3 S3].
    destruct (mem_readFull 8 r2) as [r3 [buf2 | e | |]]; cbn [fst snd] in *; auto.
    destruct (negb (hasTag buf2 "moov")); cbn [fst snd]; auto.
    pose proof (mem_seek_onFile data (boxSize buf2 - 8) SeekCurrent r3 H3) as [H4 S4].
    destruct (mem_seek (boxSize buf2 - 8) SeekCurrent r3) as [r4 [p4 | e | |]];
      cbn [fst snd] in *; auto. }
  destruct (skipInit (MemReader data 0)) as [r1 [[] | e | |]]; cbn [fst snd] in *;
    try tauto.
  destruct Hinit as [[D1 P1] _].
  pose proof (scanPairs_onFile data (S (List.length data)) (-1) r1 (conj D1 P1)) as H2.
  destruct (scanPairs_mem_total (S (List.length data)) (-1) r1 P1 ltac:(lia))
    as [r2 [[p Hp] | [He | He]]];
    try (rewrite He; exact I).
  { unfold mr_len. rewrite D1. lia. }
  rewrite Hp in *. cbn [fst] in H2. destruct H2 as [D2 P2].
  destruct (p <? 0); [exact I |].
  unfold parseLastMoof, readHeader, bind, ret, fail.
  change (@seek memReader _) with mem_seek.
  change (@readFull memReader _) with mem_readFull.
  pose proof (mem_seek_onFile data (p + 8) SeekStart r2 (conj D2 P2)) as [H3 S3].
  destruct (mem_seek (p + 8) SeekStart r2) as [r3 [p3 | e | |]]; cbn [fst snd] in *; auto.
  pose proof (mem_readFull_onFile data 8 r3 H3) as [H4 S4].
  destruct (mem_readFull 8 r3) as [r4 [buf | e | |]]; cbn [fst snd] in *; auto.
  destruct (negb (hasTag buf "mfhd")); cbn [fst snd]; auto.
  pose proof (mem_seek_onFile data 8 SeekCurrent r4 H4) as [[D5 P5] S5].
  destruct (mem_seek 8 SeekCurrent r4) as [r5 [p5 | e | |]]; cbn [fst snd] in *; auto.
  pose proof (scanTrafs_settled (S (List.length data)) 0 r5 P5 ltac:(lia)) as Ht.
  destruct (scanTrafs unmarshalTfdt unmarshalTrun (S (List.length data)) 0 r5)
    as [r6 [m | e | |]]; cbn [snd settled] in *; auto;
    apply Ht; unfold mr_len; rewrite D5; lia.
Qed.

End TrafLoop.

(** ** The box walk, for every outcome *)

Section WalkPost.

Context {R M : Type} `{ReadSeeker R} `{Muxer M} {L : BoxLibrary}.

Variable P : env R M -> Prop.
Variable G : env R M * result unit -> Prop.
Variable h : @handler R M.

Hypothesis G_ok : forall s, G (s, Ok tt) -> P s.
Hypothesis P_ok : forall s, P s -> G (s, Ok tt).
Hypothesis P_broken : forall s c, P s -> G (s, Err (ErrBoxStructure c)).
Hypothesis handler_post : forall ty off pl expand,
  (forall s, P s -> G (expand s)) ->
  forall s, P s -> G (h ty off pl expand s).
Hypothesis library_post : forall s, P s -> P (fst (libraryAccess s)).

Lemma post_bind (m1 m2 : io (env R M) unit) s :
  G (m1 s) -> (forall s1, P s1 -> G (m2 s1)) -> G ((m1 ;; m2) s).
Proof.
  intros H1 H2. unfold bind.
  destruct (m1 s) as [s1 [[] | e | |]]; auto.
Qed.

Lemma access_post s : P s -> G (libraryAccess s).
Proof. intros Hs. apply P_ok. now apply library_post in Hs. Qed.

Lemma visitBoxes_post_step (b : box) bs :
  (forall s, P s -> G (visitBox h b s)) ->
  (forall s, P s -> G (visitBoxes h bs s)) ->
  forall s, P s -> G (visitBoxes h (b :: bs) s).
Proof.
  intros Hb Hbs s Hs. cbn [visitBoxes]. apply post_bind; auto.
Qed.

Lemma visitBox_post : forall b s, P s -> G (visitBox h b s).
Proof.
  fix IH 1. intros [ty off pl children | c] s Hs.
  - rewrite visitBox_Box.
    apply post_bind; [now apply access_post | intros s1 Hs1].
    apply post_bind; [| intros s2 Hs2; now apply access_post].
    apply handler_post; [| exact Hs1].
    clear s Hs s1 Hs1. intros s Hs.
    apply post_bind; [now apply access_post |].
    clear s Hs. induction children as [| c cs IHcs].
    + intros s Hs. now apply P_ok.
    + apply visitBoxes_post_step; [apply IH | exact IHcs].
  - cbn [visitBox]. rewrite step_access. rewrite <- (step_access (fun _ => fail _)).
    apply P_broken. now apply library_post in Hs.
Qed.

Lemma visitBoxes_post : forall bs s, P s -> G (visitBoxes h bs s).
Proof.
  induction bs as [| b bs IH].
  - intros s Hs. now apply P_ok.
  - apply visitBoxes_post_step; [apply visitBox_post | exact IH].
Qed.

Lemma walk_post bs s : P s -> G (ReadBoxStructure h bs s).
Proof.
  intros Hs. unfold ReadBoxStructure.
  apply post_bind; [now apply access_post | intros s1 Hs1].
  apply post_bind; [now apply visitBoxes_post | intros s2 Hs2].
  now apply access_post.
Qed.

End WalkPost.

(** ** The errors of the two muxing functions *)

(** The errors that come out of a walk: of the reader, of go-mp4, of the
    muxer's flush, or the sentinel of the early termination. *)
Definition walk_error (e : error) : bool :=
  match e with
  | ErrBoxStructure _ | ErrMuxer _ | errTerminated => true
  | _ => is_io_error e
  end.

Definition walk_result {A} (res : result A) : Prop :=
  match res with
  | Ok _ | Panicked => True
  | Err e => walk_error e = true
  | OutOfFuel => False
  end.

Section WalkErrors.

Context {R M : Type} `{ReadSeeker R} `{Muxer M} {L : BoxLibrary}.

Lemma io_walk_error e : is_io_error e = true -> walk_error e = true.
Proof. destruct e; simpl; congruence. Qed.

Lemma seekEntries_result minT maxT entries : forall elapsed (s : env R M),
  returns_io (snd (seekEntries minT maxT entries elapsed s)).
Proof.
  induction entries as [| e rest IH]; intros elapsed s; [exact I |].
  cbn [seekEntries]. run_io.
  pose proof (readFull_io (u32 (SampleSize e)) (rd s)) as Hio.
  destruct (readFull (u32 (SampleSize e)) (rd s)) as [r' [data | err | |]];
    env_simpl; try tauto.
  destruct (elapsed >=? maxT); [exact I |].
  destruct (i64 (i64 elapsed - i64 minT) >=? 0); env_simpl; apply IH.
Qed.

Lemma writeEntries_result startTime maxT entries : forall elapsed (s : env R M),
  returns_io (snd (writeEntries startTime maxT entries elapsed s)).
Proof.
  induction entries as [| e rest IH]; intros elapsed s; [exact I |].
  cbn [writeEntries]. run_io.
  pose proof (readFull_io (u32 (SampleSize e)) (rd s)) as Hio.
  destruct (readFull (u32 (SampleSize e)) (rd s)) as [r' [data | err | |]];
    env_simpl; try tauto.
  destruct (elapsed >=? maxT); [exact I |].
  env_simpl. apply IH.
Qed.

Lemma seekHandler_result minT maxT ty off pl (expand : io (env R M) unit) :
  (forall s, True -> walk_result (snd (expand s))) ->
  forall s, True -> walk_result (snd (seekHandler minT maxT ty off pl expand s)).
Proof.
  intros Hexp s _. unfold seekHandler.
  destruct (String.eqb ty "moof"); [run_io; now apply Hexp |].
  destruct (String.eqb ty "traf"); [now apply Hexp |].
  destruct (String.eqb ty "tfhd"); [destruct pl; run_io; exact I || reflexivity |].
  destruct (String.eqb ty "tfdt").
  { destruct pl as [b | b | b | | c]; run_io; try exact I; try reflexivity.
    destruct (u64 (BaseMediaDecodeTimeV1 b) >=? maxT); env_simpl; [reflexivity |].
    destruct (tfhd s); exact I. }
  destruct (String.eqb ty "trun").
  { destruct pl as [b | b | b | | c]; run_io; try exact I; try reflexivity.
    pose_seek_io.
    destruct (seek _ SeekStart _) as [r' [p | err | |]]; env_simpl; try tauto.
    2:{ now apply io_walk_error. }
    destruct (tfdt s) as [td |]; [| exact I].
    match goal with |- context [seekEntries minT maxT ?es ?el ?s0] =>
      pose proof (seekEntries_result minT maxT es el s0) as Hl;
      destruct (seekEntries minT maxT es el s0) as [s1 [el' | err | |]] end;
      env_simpl; try tauto.
    - destruct (el' >? maxElapsed s1); exact I.
    - now apply io_walk_error. }
  destruct (String.eqb ty "mdat").
  { run_io. destruct (flush (mx s)) as [w' [c |]]; env_simpl; [reflexivity | exact I]. }
  exact I.
Qed.

Lemma writeHandler_result startTime maxT ty off pl (expand : io (env R M) unit) :
  (forall s, True -> walk_result (snd (expand s))) ->
  forall s, True -> walk_result (snd (writeHandler startTime maxT ty off pl expand s)).
Proof.
  intros Hexp s _. unfold writeHandler.
  destruct (String.eqb ty "moof"); [run_io; now apply Hexp |].
  destruct (String.eqb ty "traf"); [now apply Hexp |].
  destruct (String.eqb ty "tfhd"); [destruct pl; run_io; exact I || reflexivity |].
  destruct (String.eqb ty "tfdt").
  { destruct pl as [b | b | b | | c]; run_io; try exact I; try reflexivity.
    destruct (u64 (BaseMediaDecodeTimeV1 b) >=? maxT); env_simpl; [reflexivity |].
    destruct (tfhd s); exact I. }
  destruct (String.eqb ty "trun").
  { destruct pl as [b | b | b | | c]; run_io; try exact I; try reflexivity.
    pose_seek_io.
    destruct (seek _ SeekStart _) as [r' [p | err | |]]; env_simpl; try tauto.
    2:{ now apply io_walk_error. }
    destruct (tfdt s) as [td |]; [| exact I].
    match goal with |- context [writeEntries startTime maxT ?es ?el ?s0] =>
      pose proof (writeEntries_result startTime maxT es el s0) as Hl;
      destruct (writeEntries startTime maxT es el s0) as [s1 [el' | err | |]] end;
      env_simpl; try tauto.
    - destruct (el' >? maxElapsed s1); exact I.
    - now apply io_walk_error. }
  destruct (String.eqb ty "mdat").
  { run_io. destruct (flush (mx s)) as [w' [c |]]; env_simpl; [reflexivity | exact I]. }
  exact I.
Qed.

Lemma seek_walk_result minT maxT bs (s : env R M) :
  walk_result (snd (ReadBoxStructure (seekHandler minT maxT) bs s)).
Proof.
  apply (walk_post (fun _ => True) (fun x => walk_result (snd x))).
  - intros; exact I.
  - intros; exact I.
  - intros; reflexivity.
  - apply seekHandler_result.
  - intros; exact I.
  - exact I.
Qed.

Lemma write_walk_result startTime maxT bs (s : env R M) :
  walk_result (snd (ReadBoxStructure (writeHandler startTime maxT) bs s)).
Proof.
  apply (walk_post (fun _ => True) (fun x => walk_result (snd x))).
  - intros; exact I.
  - intros; exact I.
  - intros; reflexivity.
  - apply writeHandler_result.
  - intros; exact I.
  - exact I.
Qed.

(** On every tree of boxes, with every reader and every muxer: the
    sentinel [errTerminated] does not leave the two functions;
    [segmentFMP4WriteParts] does not fail with [errNoSegmentsFound]; an
    error is one of the reader, of go-mp4 or of the muxer's flush, or, for
    [segmentFMP4SeekAndMuxParts], [errNoSegmentsFound]. *)
Theorem muxing_errors bs (r : R) (w : M) (t1 t2 : Duration) :
  (forall e, snd (segmentFMP4SeekAndMuxParts bs r t1 t2 w) = Err e ->
     e <> errTerminated
     /\ (e = errNoSegmentsFound \/ walk_error e = true))
  /\ (forall e, snd (segmentFMP4WriteParts bs r t1 t2 w) = Err e ->
        e <> errTerminated /\ e <> errNoSegmentsFound /\ walk_error e = true).
Proof.
  split.
  - intros e. unfold segmentFMP4SeekAndMuxParts.
    pose proof (seek_walk_result (durationGoToMp4 t1 fmp4Timescale)
                  (durationGoToMp4 t2 fmp4Timescale) bs (newEnv r w)) as Hw.
    destruct (ReadBoxStructure _ bs (newEnv r w)) as [s [[] | e0 | |]];
      cbn [fst snd walk_result] in *.
    + destruct (negb (atLeastOnePartWritten s)); cbn [snd]; [| discriminate].
      intros [= <-]. split; [discriminate | now left].
    + destruct (error_eqb e0 errTerminated) eqn:Et.
      * destruct (negb (atLeastOnePartWritten s)); cbn [snd]; [| discriminate].
        intros [= <-]. split; [discriminate | now left].
      * cbn [snd]. intros [= <-]. split; [| now right].
        intros ->. discriminate Et.
    + discriminate.
    + discriminate.
  - intros e. unfold segmentFMP4WriteParts.
    pose proof (write_walk_result t1 (durationGoToMp4 t2 fmp4Timescale) bs (newEnv r w))
      as Hw.
    destruct (ReadBoxStructure _ bs (newEnv r w)) as [s [[] | e0 | |]];
      cbn [fst snd walk_result] in *; try discriminate.
    destruct (error_eqb e0 errTerminated) eqn:Et; cbn [snd]; [discriminate |].
    intros [= <-]. repeat split; auto.
    + intros ->. discriminate Et.
    + intros ->. discriminate Hw.
Qed.

End WalkErrors.

Lemma muxing_errors_witness :
  ErrEOF <> errTerminated /\ (ErrEOF = errNoSegmentsFound \/ walk_error ErrEOF = true).
Proof.
  destruct (muxing_errors (L := headerReads)
              (segmentBoxes (oneTrack 0 [entry 90000 4])) (MemReader [] 0)
              newRecMuxer 0 (10 * Second)) as [Hseek _].
  apply Hseek.
  destruct seek_truncated_payload as [Hres _]. exact Hres.
Defined.

(** Whatever the boxes are, [segmentFMP4SeekAndMuxParts] returns
    [errNoSegmentsFound] only when no sample has gone to the muxer with a
    timestamp >= 0, and a duration only when one has. *)
Theorem seek_result_and_samples {R : Type} `{ReadSeeker R} {L : BoxLibrary}
    bs (r : R) (minTime maxTime : Duration) fl :
  let out := segmentFMP4SeekAndMuxParts bs r minTime maxTime (RecMuxer [] fl) in
  (snd out = Err errNoSegmentsFound -> Forall (fun ts => ts < 0) (written (fst out)))
  /\ (forall d, snd out = Ok d -> Exists (fun ts => 0 <= ts) (written (fst out))).
Proof.
  cbv zeta.
  pose proof (seek_walk_flag bs r (durationGoToMp4 minTime fmp4Timescale)
                (durationGoToMp4 maxTime fmp4Timescale) fl) as Hflag.
  pose proof (seek_walk_result (durationGoToMp4 minTime fmp4Timescale)
                (durationGoToMp4 maxTime fmp4Timescale) bs
                (newEnv r (RecMuxer [] fl))) as Hres.
  unfold segmentFMP4SeekAndMuxParts, visited in *.
  destruct (ReadBoxStructure _ bs (newEnv r (RecMuxer [] fl))) as [s res].
  cbn [fst snd] in *.
  assert (Hcont : flagMatches s ->
    let out := if negb (atLeastOnePartWritten s)
               then (s, Err errNoSegmentsFound)
               else (s, Ok (durationMp4ToGo
                              (u64 (maxElapsed s - durationGoToMp4 minTime fmp4Timescale))
                              fmp4Timescale)) in
    (snd out = Err errNoSegmentsFound -> Forall (fun ts => ts < 0) (written (fst out)))
    /\ (forall d, snd out = Ok d -> Exists (fun ts => 0 <= ts) (written (fst out)))).
  { intros Hf. cbv zeta. unfold flagMatches in Hf.
    destruct (atLeastOnePartWritten s); cbn [negb fst snd].
    - split; [discriminate |]. intros d _. now apply Hf.
    - split; [| discriminate]. intros _. apply all_negative_iff.
      intros Hx. apply Hf in Hx. discriminate. }
  destruct res as [[] | e | |]; cbn [fst snd walk_result] in *.
  - now apply Hcont.
  - destruct (error_eqb e errTerminated) eqn:Et; [now apply Hcont |].
    cbn [fst snd]. split; [| discriminate].
    intros [= ->]. discriminate Hres.
  - split; [discriminate | discriminate].
  - split; [discriminate | discriminate].
Qed.

Lemma seek_result_and_samples_witness :
  Forall (fun ts => ts < 0)
    (written (fst (segmentFMP4SeekAndMuxParts (L := headerReads)
                     (segmentBoxes (oneTrack 270000 [entry 90000 1])) (MemReader [x01] 0)
                     0 (3 * Second) (RecMuxer [] [])))).
Proof.
  destruct (seek_result_and_samples (L := headerReads)
              (segmentBoxes (oneTrack 270000 [entry 90000 1])) (MemReader [x01] 0)
              0 (3 * Second) []) as [Hnone _].
  apply Hnone. reflexivity.
Defined.

(** ** The samples handed to the muxer, from a file in memory *)

Lemma i32_small x : - 2 ^ 31 <= x < 2 ^ 31 -> i32 x = x.
Proof. intros Hx. unfold i32, two32. rewrite Z.mod_small; lia. Qed.

Lemma nonSync_bit flags :
  negb (Z.land (u32 flags) sampleFlagIsNonSyncSample =? 0) = Z.testbit flags 16.
Proof.
  unfold u32, two32, sampleFlagIsNonSyncSample. rewrite Z.shiftl_1_l.
  rewrite <- (Z.mod_pow2_bits_low flags 32 16) by lia.
  set (a := flags mod 2 ^ 32).
  assert (Hland : Z.land a (2 ^ 16) = if Z.testbit a 16 then 2 ^ 16 else 0).
  { apply Z.bits_inj'. intros n Hn. rewrite Z.land_spec, Z.pow2_bits_eqb by lia.
    destruct (Z.eqb_spec 16 n) as [<- | Hne].
    - rewrite andb_true_r.
      destruct (Z.testbit a 16) eqn:E; [now rewrite Z.pow2_bits_true | now rewrite Z.bits_0].
    - rewrite andb_false_r.
      destruct (Z.testbit a 16); [now rewrite Z.pow2_bits_false by lia | now rewrite Z.bits_0]. }
  rewrite Hland. now destruct (Z.testbit a 16).
Qed.

Lemma partSampleOf_sampleAt data pos e :
  entryInRange e ->
  partSampleOf e (slice data pos (u32 (SampleSize e))) = sampleAt data pos e.
Proof.
  intros (Hd & Hs & Hc). unfold partSampleOf, sampleAt.
  rewrite nonSync_bit, (u32_small (SampleDuration e)), (u32_small (SampleSize e)), i32_small
    by (unfold two32; lia).
  reflexivity.
Qed.

(** [int64(moofOffset + uint64(trun.DataOffset))] is the sum. *)
Lemma dataOffset_exact o d :
  0 <= o < 2 ^ 62 -> - 2 ^ 31 <= d < 2 ^ 31 ->
  i64 (u64 (o + u64 (i32 d))) = o + d.
Proof.
  intros Ho Hd. rewrite i32_small by exact Hd.
  unfold i64, u64, two63, two64.
  rewrite Zplus_mod_idemp_r, Zplus_mod_idemp_l.
  rewrite Z.mod_small; lia.
Qed.

Lemma mem_readFull_spec n r :
  0 <= n ->
  match mem_readFull n r with
  | (r', Ok buf) =>
      r' = MemReader (mr_data r) (mr_pos r + n) /\ buf = slice (mr_data r) (mr_pos r) n
  | (r', Err e) => mr_data r' = mr_data r /\ is_io_error e = true
  | _ => False
  end.
Proof.
  intros Hn. unfold mem_readFull.
  destruct (Z.leb_spec n 0).
  - assert (n = 0) as -> by lia. destruct r as [d p]. cbn. now rewrite Z.add_0_r.
  - destruct (_ <=? mr_len r); [now split |].
    destruct (_ <=? mr_pos r); now split.
Qed.

Lemma mem_readFull_data n r : mr_data (fst (mem_readFull n r)) = mr_data r.
Proof.
  unfold mem_readFull.
  repeat match goal with |- context [if ?c then _ else _] => destruct c end; reflexivity.
Qed.

Lemma mem_seek_data off w r : mr_data (fst (mem_seek off w r)) = mr_data r.
Proof. unfold mem_seek. destruct (_ <? 0); reflexivity. Qed.

Lemma runCalls_data cs : forall r : memReader, mr_data (runCalls cs r) = mr_data r.
Proof.
  unfold runCalls. induction cs as [| c cs IH]; intros r; cbn [fold_left]; [reflexivity |].
  rewrite IH. destruct c; cbn [runCall]; [apply mem_readFull_data | apply mem_seek_data].
Qed.

(** The samples the recording muxer has received, with their timestamps. *)
Definition handed {R : Type} (s : env R recMuxer) : list (Z * PartSample) :=
  writtenSamples (rm_calls (mx s)).

Definition stamped (stamp : Z -> Z) (p : Z * PartSample) : Z * PartSample :=
  (stamp (fst p), snd p).

Lemma writtenSamples_app a b :
  writtenSamples (a ++ b) = writtenSamples a ++ writtenSamples b.
Proof. unfold writtenSamples. apply flat_map_app. Qed.

Lemma writtenSamples_timestamps calls :
  writtenTimestamps calls = map fst (writtenSamples calls).
Proof.
  induction calls as [| c calls IH]; [reflexivity |].
  change (c :: calls) with ([c] ++ calls).
  rewrite writtenTimestamps_app, writtenSamples_app, map_app, IH.
  now destruct c.
Qed.

Lemma handed_writeSample {R : Type} (r : R) (w : recMuxer) ts p o th td m a k :
  handed (Env r (writeSample ts p w) o th td m a k)
  = writtenSamples (rm_calls w) ++ [(ts, p)].
Proof. unfold handed. cbn. now rewrite writtenSamples_app. Qed.

Lemma handed_setTrack {R : Type} (r : R) (w : recMuxer) id o th td m a k :
  handed (Env r (setTrack id w) o th td m a k) = writtenSamples (rm_calls w).
Proof. unfold handed. cbn. now rewrite writtenSamples_app, app_nil_r. Qed.

(** What a loop over the entries of a [trun] does, on a reader in memory:
    it keeps the file and the offset of the [moof], and hands over the
    samples of the entries, read where the reader stands. *)
Definition loopHands (maxT : Z) (stamp : Z -> Z)
    (loop : list TrunEntry -> Z -> io (env memReader recMuxer) Z) : Prop :=
  forall entries elapsed s,
    Forall entryInRange entries ->
    let x := loop entries elapsed s in
    mr_data (rd (fst x)) = mr_data (rd s)
    /\ moofOffset (fst x) = moofOffset s
    /\ exists l,
         handed (fst x) = handed s ++ map (stamped stamp) l
         /\ (exists rest,
               samplesOfEntries (mr_data (rd s)) maxT elapsed (mr_pos (rd s)) entries
               = l ++ rest)
         /\ match snd x with
            | Ok _ =>
                l = samplesOfEntries (mr_data (rd s)) maxT elapsed (mr_pos (rd s)) entries
            | Err e => is_io_error e = true
            | _ => False
            end.

Lemma step_setAtLeastOnePartWritten {R M B : Type}
    (k : unit -> io (env R M) B) s :
  bind setAtLeastOnePartWritten k s
  = k tt (Env (rd s) (mx s) (moofOffset s) (tfhd s) (tfdt s) (maxElapsed s) true
              (accesses s)).
Proof. reflexivity. Qed.

Lemma seekEntries_hands minT maxT :
  loopHands maxT (fun el => i64 (i64 el - i64 minT)) (seekEntries minT maxT).
Proof.
  intros entries.
  induction entries as [| e rest IH]; intros elapsed s Hin; cbv zeta.
  - split; [reflexivity | split; [reflexivity |]].
    exists []. cbn. rewrite app_nil_r. repeat split. now exists [].
  - inversion Hin as [| ? ? He Hrest]; subst.
    cbn [seekEntries samplesOfEntries]. rewrite step_onReader.
    pose proof (mem_readFull_spec (u32 (SampleSize e)) (rd s)
                  (proj1 (u32_range _))) as Hrd.
    change (readFull (u32 (SampleSize e)) (rd s))
      with (mem_readFull (u32 (SampleSize e)) (rd s)).
    destruct (mem_readFull (u32 (SampleSize e)) (rd s)) as [r' [buf | err | |]];
      try tauto.
    2:{ destruct Hrd as [Hd Hio]. cbn [fst snd rd moofOffset].
        split; [exact Hd | split; [reflexivity |]].
        exists []. cbn [map]. rewrite app_nil_r. repeat split; auto. now eexists. }
    destruct Hrd as [-> ->].
    destruct (elapsed >=? maxT).
    { cbn [fst snd rd moofOffset mr_data].
      split; [reflexivity | split; [reflexivity |]].
      exists []. cbn [map]. rewrite app_nil_r. repeat split. now exists []. }
    rewrite partSampleOf_sampleAt by exact He.
    destruct He as (_ & Hsz & _). rewrite (u32_small (SampleSize e)) by exact Hsz.
    rewrite step_if.
    destruct (i64 (i64 elapsed - i64 minT) >=? 0);
      rewrite ?step_setAtLeastOnePartWritten; repeat io_step;
      match goal with |- context [seekEntries minT maxT rest ?el ?s0] =>
        destruct (IH el s0 Hrest) as (Hd & Hm & l & Hw & [tl Hp] & Hr);
        destruct (seekEntries minT maxT rest el s0) as [s1 [el' | err | |]] end;
      cbn [fst snd rd mx moofOffset mr_data mr_pos] in *; try tauto;
      rewrite handed_writeSample in Hw;
      (split; [exact Hd | split; [exact Hm |]]);
      exists ((elapsed, sampleAt (mr_data (rd s)) (mr_pos (rd s)) e) :: l); cbn [map];
      (split; [rewrite Hw; unfold handed, stamped; cbn [fst snd]; now rewrite <- app_assoc |]);
      (split; [exists tl; now rewrite Hp | now rewrite ?Hr]).
Qed.


Section SamplesTrace.

Context {L : BoxLibrary}.

Variable data : list byte.
Variable maxT : Z.
Variable stamp : Z -> Z.
Variable loop : list TrunEntry -> Z -> io (env memReader recMuxer) Z.

Hypothesis loop_hands : loopHands maxT stamp loop.

Definition onData (s : env memReader recMuxer) : Prop := mr_data (rd s) = data.

(** After a visit of the boxes of the track fragments [ts], each with the
    offset of its [moof], started in [s]: the samples handed over since are
    a prefix of those expected of [ts] and of whatever follows; all of those
    of [ts] if the visit went through; all there are if it was ended by the
    early termination. The file is the same. *)
Definition handedTo (ts : list (Z * trackFragment)) (s : env memReader recMuxer)
    (x : env memReader recMuxer * result unit) : Prop :=
  onData (fst x)
  /\ exists l,
       handed (fst x) = handed s ++ map (stamped stamp) l
       /\ (forall more, exists rest, samplesOfTrafs data maxT (ts ++ more) = l ++ rest)
       /\ match snd x with
          | Ok _ => forall more,
              samplesOfTrafs data maxT (ts ++ more) = l ++ samplesOfTrafs data maxT more
          | Err e =>
              if error_eqb e errTerminated
              then forall more, samplesOfTrafs data maxT (ts ++ more) = l
              else True
          | _ => True
          end.

Lemma handedTo_bind (Inv : env memReader recMuxer -> Prop) ts1 ts2
    (m1 m2 : io (env memReader recMuxer) unit) s :
  handedTo ts1 s (m1 s) ->
  (snd (m1 s) = Ok tt -> Inv (fst (m1 s))) ->
  (forall s1, onData s1 -> Inv s1 -> handedTo ts2 s1 (m2 s1)) ->
  handedTo (ts1 ++ ts2) s ((m1 ;; m2) s).
Proof.
  intros (Hd1 & l1 & Hw1 & Hp1 & Hr1) HI H2. unfold bind.
  destruct (m1 s) as [s1 [[] | e | |]]; unfold handedTo; cbn [fst snd] in *.
  - destruct (H2 s1 Hd1 (HI eq_refl)) as (Hd2 & l2 & Hw2 & Hp2 & Hr2).
    split; [exact Hd2 |].
    exists (l1 ++ l2). split; [| split].
    + now rewrite Hw2, Hw1, map_app, app_assoc.
    + intros more. destruct (Hp2 more) as [rest Hrest]. exists rest.
      now rewrite <- !app_assoc, Hr1, Hrest.
    + destruct (snd (m2 s1)) as [[] | e | |]; auto.
      * intros more. now rewrite <- !app_assoc, Hr1, Hr2.
      * destruct (error_eqb e errTerminated); auto.
        intros more. now rewrite <- app_assoc, Hr1, Hr2.
  - split; [exact Hd1 |]. exists l1. split; [exact Hw1 | split].
    + intros more. rewrite <- app_assoc. apply Hp1.
    + destruct (error_eqb e errTerminated); auto.
      intros more. rewrite <- app_assoc. apply Hr1.
  - split; [exact Hd1 |]. exists l1. split; [exact Hw1 | split; [| exact I]].
    intros more. rewrite <- app_assoc. apply Hp1.
  - split; [exact Hd1 |]. exists l1. split; [exact Hw1 | split; [| exact I]].
    intros more. rewrite <- app_assoc. apply Hp1.
Qed.

(** The visit may as well be told from another state that has handed over
    the same samples. *)
Lemma handedTo_from ts s s' x : handed s' = handed s -> handedTo ts s x -> handedTo ts s' x.
Proof. intros E (Hd & l & Hw & Hrest). split; [exact Hd |]. exists l. now rewrite E. Qed.

Lemma handedTo_silent s (x : env memReader recMuxer * result unit) :
  onData (fst x) ->
  handed (fst x) = handed s ->
  match snd x with
  | Err e => error_eqb e errTerminated = false
  | _ => True
  end ->
  handedTo [] s x.
Proof.
  intros Hd Hw Hr. split; [exact Hd |]. exists []. split; [| split].
  - now rewrite Hw, app_nil_r.
  - intros more. now exists (samplesOfTrafs data maxT more).
  - destruct (snd x) as [[] | e | |]; auto. now rewrite Hr.
Qed.

Lemma handedTo_access s : onData s -> handedTo [] s (libraryAccess s).
Proof.
  intros Hd. apply handedTo_silent; [| reflexivity | exact I].
  unfold onData, libraryAccess. cbn [fst rd]. now rewrite runCalls_data.
Qed.

Lemma handedTo_before ts (m1 m2 : io (env memReader recMuxer) unit) s :
  handedTo [] s (m1 s) ->
  (forall s1, onData s1 -> handedTo ts s1 (m2 s1)) ->
  handedTo ts s ((m1 ;; m2) s).
Proof.
  intros H1 H2. apply (handedTo_bind (fun _ => True) [] ts); auto.
Qed.

Lemma handedTo_after ts (m1 m2 : io (env memReader recMuxer) unit) s :
  handedTo ts s (m1 s) ->
  (forall s1, onData s1 -> handedTo [] s1 (m2 s1)) ->
  handedTo ts s ((m1 ;; m2) s).
Proof.
  intros H1 H2. rewrite <- (app_nil_r ts).
  apply (handedTo_bind (fun _ => True) ts []); auto.
Qed.

Lemma ignored_handed ty off pl children s :
  onData s ->
  String.eqb ty "moof" = false -> String.eqb ty "traf" = false ->
  String.eqb ty "tfhd" = false -> String.eqb ty "tfdt" = false ->
  String.eqb ty "trun" = false -> String.eqb ty "mdat" = false ->
  handedTo [] s (visitBox (partsHandler maxT loop) (Box ty off pl children) s).
Proof.
  intros Hd E1 E2 E3 E4 E5 E6. rewrite visitBox_Box. unfold partsHandler.
  rewrite E1, E2, E3, E4, E5, E6.
  repeat io_step. io_last. apply handedTo_silent; [| reflexivity | exact I].
  unfold onData. cbn [fst rd]. now rewrite !runCalls_data.
Qed.

(** A track fragment leaves the offset of its [moof] as it is. *)
Definition trafHanded (o : Z) (t : trackFragment) (s : env memReader recMuxer)
    (x : env memReader recMuxer * result unit) : Prop :=
  handedTo [(o, t)] s x /\ (snd x = Ok tt -> moofOffset (fst x) = o).

Lemma traf_handed o t s :
  onData s -> moofOffset s = o -> 0 <= o < 2 ^ 62 -> trafInRange t ->
  trafHanded o t s (visitBox (partsHandler maxT loop) (trafBox t) s).
Proof.
  intros Hd Ho Hrange [Hoff Hentries]. unfold trafBox.
  repeat (rewrite visitBox_Box; unfold partsHandler at 1;
          cbn [String.eqb Ascii.eqb Bool.eqb visitBoxes]).
  unfold readPayload. repeat io_step.
  unfold trafHanded, handedTo, onData. cbn [app samplesOfTrafs tf_base tf_entries].
  rewrite step_if.
  destruct (Z.geb_spec (u64 (tf_base t)) maxT) as [Hge | Hlt].
  { rewrite step_fail. cbn [fst snd error_eqb rd].
    split; [| intros [=]].
    split; [now rewrite !runCalls_data |].
    exists []. split; [now rewrite app_nil_r | split].
    - intros more. now exists [].
    - now intros. }
  repeat io_step. rewrite step_onReader.
  cbn [rd mx moofOffset tfhd tfdt maxElapsed atLeastOnePartWritten accesses].
  rewrite Ho, dataOffset_exact by assumption.
  change (seek ?a SeekStart ?r) with (mem_seek a SeekStart r).
  unfold mem_seek. rewrite !runCalls_data, Hd.
  destruct (o + tf_dataOffset t <? 0).
  { cbn [fst snd rd error_eqb]. split; [| intros [=]].
    split; [now rewrite !runCalls_data |].
    exists []. split; [| split].
    - now rewrite handed_setTrack, app_nil_r.
    - intros more. now eexists.
    - exact I. }
  rewrite bind_assoc, bind_run.
  match goal with |- context [loop ?es ?el ?s0] =>
    pose proof (loop_hands es el s0 Hentries) as Hl; cbv zeta in Hl;
    destruct (loop es el s0) as [s1 [el' | err | |]] end;
    cbn [fst snd rd mx moofOffset mr_data mr_pos] in Hl;
    destruct Hl as (Hd1 & Hm1 & l & Hw & [rest Hp] & Hr); try tauto;
    rewrite handed_setTrack in Hw.
  - subst l.
    repeat io_step. rewrite step_if.
    destruct (el' >? maxElapsed s1); repeat io_step; io_last;
      rewrite ?runCalls_data;
      (split; [| intros _; exact Hm1]);
      (split; [exact Hd1 |]);
      exists (samplesOfEntries data maxT (u64 (tf_base t)) (o + tf_dataOffset t)
                (tf_entries t));
      (split; [exact Hw | split; [intros more; now eexists | reflexivity]]).
  - cbn [fst snd]. split; [| intros [=]]. split; [exact Hd1 |].
    exists l. split; [exact Hw | split].
    + intros more. exists (rest ++ samplesOfTrafs data maxT more).
      now rewrite Hp, <- app_assoc.
    + now rewrite io_error_not_terminated.
Qed.

Lemma trafs_handed o ts : forall s,
  onData s -> moofOffset s = o -> 0 <= o < 2 ^ 62 -> Forall trafInRange ts ->
  handedTo (map (pair o) ts) s (visitBoxes (partsHandler maxT loop) (map trafBox ts) s).
Proof.
  induction ts as [| t ts IH]; intros s Hd Ho Hrange Hts.
  - apply handedTo_silent; cbn; auto.
  - inversion Hts as [| ? ? Ht Hts']; subst. cbn [map visitBoxes].
    destruct (traf_handed (moofOffset s) t s Hd eq_refl Hrange Ht) as [H1 H2].
    apply (handedTo_bind (fun s1 => moofOffset s1 = moofOffset s)
             [(moofOffset s, t)] (map (pair (moofOffset s)) ts));
      [exact H1 | exact H2 | intros s1 Hd1 Ho1].
    apply IH; auto.
Qed.

Lemma moof_handed f s :
  onData s -> fragmentInRange f ->
  handedTo (map (pair (fg_offset f)) (fg_trafs f)) s
    (visitBox (partsHandler maxT loop)
       (Box "moof" (fg_offset f) PlOther
          (Box "mfhd" 0 PlOther [] :: map trafBox (fg_trafs f))) s).
Proof.
  intros Hd [Ho Hts]. rewrite visitBox_Box. unfold partsHandler at 1.
  cbn [String.eqb Ascii.eqb Bool.eqb].
  apply handedTo_before; [now apply handedTo_access | intros s1 Hd1].
  apply handedTo_after; [| intros s2 Hd2; now apply handedTo_access].
  cbn [visitBoxes]. rewrite visitBox_Box. unfold partsHandler at 1.
  cbn [String.eqb Ascii.eqb Bool.eqb visitBoxes].
  repeat io_step.
  match goal with |- handedTo _ _ (_ ?s0) =>
    apply (handedTo_from _ s0); [reflexivity |] end.
  apply trafs_handed; auto.
  unfold onData. cbn [rd]. now rewrite !runCalls_data.
Qed.

Lemma mdat_handed s :
  onData s ->
  handedTo [] s (visitBox (partsHandler maxT loop) (Box "mdat" 0 PlOther []) s).
Proof.
  intros Hd. rewrite visitBox_Box. unfold partsHandler.
  cbn [String.eqb Ascii.eqb Bool.eqb].
  repeat io_step. rewrite step_muxerFlush.
  change (flush (mx ?x)) with (rec_flush (mx x)). unfold rec_flush.
  cbn [rd mx moofOffset tfhd tfdt maxElapsed atLeastOnePartWritten accesses].
  destruct (rm_flush (mx s)) as [| [c |] tl]; repeat io_step; io_last;
    (apply handedTo_silent; [| | cbn [snd error_eqb]; auto]);
    try (unfold onData; cbn [fst rd]; now rewrite !runCalls_data);
    unfold handed; cbn [fst mx rm_calls]; now rewrite writtenSamples_app, app_nil_r.
Qed.

Lemma fragments_handed seg (rest : io (env memReader recMuxer) unit) : forall s,
  onData s -> Forall fragmentInRange seg ->
  (forall s1, onData s1 -> handedTo [] s1 (rest s1)) ->
  handedTo (trafsWithOffset seg) s
    ((visitBoxes (partsHandler maxT loop) (flat_map fragmentBoxes seg) ;; rest) s).
Proof.
  induction seg as [| f seg IH]; intros s Hd Hseg Hrest.
  - cbn [trafsWithOffset flat_map visitBoxes]. rewrite step_ret. now apply Hrest.
  - inversion Hseg as [| ? ? Hf Hseg']; subst.
    unfold trafsWithOffset. cbn [flat_map]. fold (trafsWithOffset seg).
    unfold fragmentBoxes at 1. cbn [app visitBoxes].
    rewrite bind_assoc. cbv beta.
    apply (handedTo_bind (fun _ => True) (map (pair (fg_offset f)) (fg_trafs f))
             (trafsWithOffset seg));
      [now apply moof_handed | auto | intros s1 Hd1 _].
    rewrite bind_assoc. cbv beta.
    apply handedTo_before; [now apply mdat_handed | intros s2 Hd2]. now apply IH.
Qed.

Lemma segment_handed seg r w :
  mr_data r = data -> Forall fragmentInRange seg ->
  handedTo (trafsWithOffset seg) (newEnv r w)
    (ReadBoxStructure (partsHandler maxT loop) (segmentBoxes seg) (newEnv r w)).
Proof.
  intros Hd Hseg.
  unfold ReadBoxStructure, segmentBoxes. cbn [visitBoxes].
  apply handedTo_before; [now apply handedTo_access | intros s1 Hd1].
  rewrite bind_assoc. cbv beta.
  apply handedTo_before; [now apply ignored_handed | intros s2 Hd2].
  rewrite bind_assoc. cbv beta.
  apply handedTo_before; [now apply ignored_handed | intros s3 Hd3].
  apply fragments_handed; auto. intros s4 Hd4. now apply handedTo_access.
Qed.

End SamplesTrace.

(** The samples handed over by a walk of [partsHandler] over a well-formed
    segment in memory, against those the spec expects. *)
Lemma parts_handed {L : BoxLibrary} maxT stamp loop seg data pos fl s res :
  loopHands maxT stamp loop ->
  Forall fragmentInRange seg ->
  ReadBoxStructure (partsHandler maxT loop) (segmentBoxes seg)
    (newEnv (MemReader data pos) (RecMuxer [] fl))
  = (s, res) ->
  (exists rest, map (stamped stamp) (emittedSamples data maxT seg) = handed s ++ rest)
  /\ (res = Ok tt \/ res = Err errTerminated ->
      handed s = map (stamped stamp) (emittedSamples data maxT seg)).
Proof.
  intros Hloop Hseg Hrun.
  pose proof (segment_handed data maxT stamp loop Hloop seg (MemReader data pos)
                (RecMuxer [] fl) eq_refl Hseg) as Hw.
  rewrite Hrun in Hw. destruct Hw as (_ & l & Hl & Hp & Hr). cbn [fst snd] in *.
  change (handed (newEnv (MemReader data pos) (RecMuxer [] fl)))
    with (@nil (Z * PartSample)) in Hl.
  cbn [app] in Hl. unfold emittedSamples. split.
  - destruct (Hp []) as [rest Hrest]. rewrite app_nil_r in Hrest.
    exists (map (stamped stamp) rest). now rewrite Hl, Hrest, map_app.
  - intros [-> | ->]; cbn [error_eqb] in Hr; specialize (Hr []);
      rewrite app_nil_r in Hr; cbn [samplesOfTrafs] in Hr;
      rewrite ?app_nil_r in Hr; now rewrite Hl, Hr.
Qed.

(** The media times of the samples are those of [emittedElapsed]. *)
Lemma samplesOfEntries_elapsed data maxT entries : forall elapsed pos,
  map fst (samplesOfEntries data maxT elapsed pos entries)
  = elapsedOfEntries maxT elapsed entries.
Proof.
  induction entries as [| e rest IH]; intros elapsed pos; [reflexivity |].
  cbn [samplesOfEntries elapsedOfEntries].
  destruct (elapsed >=? maxT); [reflexivity |]. cbn [map fst]. now rewrite IH.
Qed.

Lemma emittedSamples_elapsed data maxT seg :
  map fst (emittedSamples data maxT seg) = emittedElapsed maxT seg.
Proof.
  unfold emittedSamples, emittedElapsed, trafsWithOffset.
  induction seg as [| f seg IH]; [reflexivity |].
  cbn [flat_map]. induction (fg_trafs f) as [| t ts IHt]; [exact IH |].
  cbn [map app samplesOfTrafs elapsedOfTrafs].
  destruct (u64 (tf_base t) >=? maxT); [reflexivity |].
  now rewrite map_app, samplesOfEntries_elapsed, IHt.
Qed.

(** What the result of the two functions tells about the walk. *)
Lemma seek_parts_outcome {R M : Type} `{ReadSeeker R} `{Muxer M} {L : BoxLibrary}
    bs (r : R) (minTime maxTime : Duration) (w : M) s res :
  ReadBoxStructure (seekHandler (durationGoToMp4 minTime fmp4Timescale)
                      (durationGoToMp4 maxTime fmp4Timescale)) bs (newEnv r w)
  = (s, res) ->
  let out := segmentFMP4SeekAndMuxParts bs r minTime maxTime w in
  fst out = s
  /\ ((exists d, snd out = Ok d) \/ snd out = Err errNoSegmentsFound ->
      res = Ok tt \/ res = Err errTerminated).
Proof.
  intros Ewalk. cbv zeta.
  pose proof (seek_walk_result (durationGoToMp4 minTime fmp4Timescale)
                (durationGoToMp4 maxTime fmp4Timescale) bs (newEnv r w)) as Hres.
  unfold segmentFMP4SeekAndMuxParts. rewrite Ewalk in *. cbn [snd] in Hres.
  destruct res as [[] | e | |].
  - split; [now destruct (negb (atLeastOnePartWritten s)) | now left].
  - destruct (error_eqb e errTerminated) eqn:Et.
    + split; [now destruct (negb (atLeastOnePartWritten s)) |].
      intros _. right. destruct e; try discriminate. reflexivity.
    + cbn [fst snd]. split; [reflexivity |].
      intros [[d [=]] | [= ->]]. discriminate Hres.
  - cbn [fst snd]. split; [reflexivity |]. intros [[d [=]] | [=]].
  - cbn [fst snd]. split; [reflexivity |]. intros [[d [=]] | [=]].
Qed.


(** ** C1: the window of segmentFMP4SeekAndMuxParts *)

Example seek_window :
  exists s,
    segmentFMP4SeekAndMuxParts (L := headerReads)
      (segmentBoxes (oneTrack 0 [entry 90000 1; entry 90000 1; entry 90000 1; entry 90000 1]))
      (MemReader [x01; x02; x03; x04] 0) (1 * Second) (3 * Second) newRecMuxer
    = (s, Ok (2 * Second))
    /\ handed s
       = [(-90000, {| Duration_ := 90000; PTSOffset := 0; IsNonSyncSample := false;
                      Payload := [x01] |});
          (0, {| Duration_ := 90000; PTSOffset := 0; IsNonSyncSample := false;
                 Payload := [x02] |});
          (90000, {| Duration_ := 90000; PTSOffset := 0; IsNonSyncSample := false;
                     Payload := [x03] |})].
Proof. eexists. split; [vm_compute; reflexivity | reflexivity]. Qed.

(** No sample reaches [minTime]: the two samples before it are handed to
    the muxer all the same, and the call fails. *)
Example seek_before_window :
  exists s,
    segmentFMP4SeekAndMuxParts (L := headerReads)
      (segmentBoxes (oneTrack 0 [entry 45000 1; entry 45000 1]))
      (MemReader [x01; x02] 0) (5 * Second) (10 * Second) newRecMuxer
    = (s, Err errNoSegmentsFound)
    /\ written s = [-450000; -405000].
Proof. eexists. split; [vm_compute; reflexivity | reflexivity]. Qed.

(** C1, corrected. On a well-formed segment, the samples handed to the
    muxer are the samples at media times below [maxTime] that come before
    the first track fragment starting at or after [maxTime], in file order;
    each is written with the timestamp [elapsed - minT], which is negative
    for a sample before [minTime] (such samples are delivered too, and only
    do not count as a part written): those samples are all handed over
    whenever the call returns a duration or [errNoSegmentsFound], and a
    prefix of them when it fails otherwise. A sample whose elapsed time is
    [maxTime] or more is not delivered: for times in range, every timestamp
    written lies in [[-minT, maxT - minT)]. On a file in memory, each sample
    handed over has the duration, the composition-time offset and the
    non-sync mark of its [trun] entry, and as payload the bytes of the file
    at its place after [moofOffset + trun.DataOffset]. *)
Theorem C1_seek_window :
  (forall (R : Type) (RS : ReadSeeker R) (L : BoxLibrary) seg (r : R)
          (minTime maxTime : Duration) fl,
     let minT := durationGoToMp4 minTime fmp4Timescale in
     let maxT := durationGoToMp4 maxTime fmp4Timescale in
     let out := segmentFMP4SeekAndMuxParts (segmentBoxes seg) r minTime maxTime
                  (RecMuxer [] fl) in
     let expected := map (fun el => i64 (i64 el - i64 minT)) (emittedElapsed maxT seg) in
     (exists rest, expected = written (fst out) ++ rest)
     /\ ((exists d, snd out = Ok d) \/ snd out = Err errNoSegmentsFound ->
         written (fst out) = expected)
     /\ Forall (fun el => 0 <= el < maxT) (emittedElapsed maxT seg)
     /\ (0 <= minTime < 2 ^ 63 -> 0 <= maxTime < 2 ^ 63 ->
         expected = map (fun el => el - minT) (emittedElapsed maxT seg)
         /\ Forall (fun ts => - minT <= ts < maxT - minT) (written (fst out))))
  /\ (forall (L : BoxLibrary) seg (data : list byte) (pos : Z)
             (minTime maxTime : Duration) fl,
        Forall fragmentInRange seg ->
        let minT := durationGoToMp4 minTime fmp4Timescale in
        let maxT := durationGoToMp4 maxTime fmp4Timescale in
        let out := segmentFMP4SeekAndMuxParts (segmentBoxes seg) (MemReader data pos)
                     minTime maxTime (RecMuxer [] fl) in
        let expected := map (stamped (fun el => i64 (i64 el - i64 minT)))
                            (emittedSamples data maxT seg) in
        (exists rest, expected = handed (fst out) ++ rest)
        /\ ((exists d, snd out = Ok d) \/ snd out = Err errNoSegmentsFound ->
            handed (fst out) = expected)).
Proof.
  split.
  - intros R RS L seg r minTime maxTime fl minT maxT out expected.
    destruct (ReadBoxStructure (seekHandler minT maxT) (segmentBoxes seg)
                (newEnv r (RecMuxer [] fl))) as [s res] eqn:Ewalk.
    pose proof Ewalk as Ewalk'. rewrite seekHandler_parts in Ewalk'.
    destruct (parts_written maxT (fun el => i64 (i64 el - i64 minT)) _ seg r fl s res
                (seekEntries_writes minT maxT) Ewalk') as [Hprefix Hall].
    destruct (seek_parts_outcome _ r minTime maxTime _ s res Ewalk) as [Hs Hout].
    fold out in Hs, Hout.
    pose proof (elapsedOfTrafs_range maxT (flat_map fg_trafs seg)) as Hrange.
    fold (emittedElapsed maxT seg) in Hrange.
    split; [| split; [| split]].
    + rewrite Hs. exact Hprefix.
    + intros Hd. rewrite Hs. apply Hall. now apply Hout.
    + exact Hrange.
    + intros Hmin Hmax.
      pose proof (goToMp4_bounds minTime ltac:(unfold two63; lia)) as HminT.
      pose proof (goToMp4_bounds maxTime ltac:(unfold two63; lia)) as HmaxT.
      fold minT in HminT. fold maxT in HmaxT.
      assert (Hq1 : minTime / Second <= 9223372036)
        by (unfold Second; apply Z.lt_succ_r, Z.div_lt_upper_bound; lia).
      assert (Hq2 : maxTime / Second <= 9223372036)
        by (unfold Second; apply Z.lt_succ_r, Z.div_lt_upper_bound; lia).
      assert (Hexact : expected = map (fun el => el - minT) (emittedElapsed maxT seg)).
      { subst expected. apply map_ext_in. intros el Hin.
        rewrite Forall_forall in Hrange. specialize (Hrange el Hin).
        apply i64_sub_exact; unfold two63; lia. }
      split; [exact Hexact |].
      rewrite Hs. destruct Hprefix as [rest Hrest]. fold expected in Hrest.
      assert (Hf : Forall (fun ts => - minT <= ts < maxT - minT) expected).
      { rewrite Hexact. apply Forall_map. revert Hrange. apply Forall_impl.
        intros el Hel. lia. }
      rewrite Hrest in Hf. apply Forall_app in Hf. tauto.
  - intros L seg data pos minTime maxTime fl Hseg minT maxT out expected.
    destruct (ReadBoxStructure (seekHandler minT maxT) (segmentBoxes seg)
                (newEnv (MemReader data pos) (RecMuxer [] fl))) as [s res] eqn:Ewalk.
    pose proof Ewalk as Ewalk'. rewrite seekHandler_parts in Ewalk'.
    destruct (parts_handed maxT (fun el => i64 (i64 el - i64 minT)) _ seg data pos fl s res
                (seekEntries_hands minT maxT) Hseg Ewalk') as [Hprefix Hall].
    destruct (seek_parts_outcome _ (MemReader data pos) minTime maxTime _ s res Ewalk)
      as [Hs Hout].
    fold out in Hs, Hout.
    split.
    + rewrite Hs. exact Hprefix.
    + intros Hd. rewrite Hs. apply Hall. now apply Hout.
Qed.

Lemma C1_seek_window_witness :
  Forall (fun ts => - 90000 <= ts < 270000 - 90000)
    (written (fst (segmentFMP4SeekAndMuxParts (L := headerReads)
       (segmentBoxes (oneTrack 0 [entry 90000 1; entry 90000 1; entry 90000 1; entry 90000 1]))
       (MemReader [x01; x02; x03; x04] 0) (1 * Second) (3 * Second) newRecMuxer)))
  /\ handed (fst (segmentFMP4SeekAndMuxParts (L := headerReads)
       (segmentBoxes (oneTrack 0 [entry 45000 1; entry 45000 1]))
       (MemReader [x01; x02] 0) (5 * Second) (10 * Second) newRecMuxer))
     = map (stamped (fun el => i64 (i64 el - i64 (durationGoToMp4 (5 * Second) fmp4Timescale))))
         (emittedSamples [x01; x02] (durationGoToMp4 (10 * Second) fmp4Timescale)
            (oneTrack 0 [entry 45000 1; entry 45000 1])).
Proof.
  assert (Hmin : 0 <= 1 * Second < 2 ^ 63) by (unfold Second; lia).
  assert (Hmax : 0 <= 3 * Second < 2 ^ 63) by (unfold Second; lia).
  assert (Hseg : Forall fragmentInRange (oneTrack 0 [entry 45000 1; entry 45000 1])).
  { repeat constructor; cbn; lia. }
  destruct C1_seek_window as [Hstamps Hsamples].
  split.
  - destruct (Hstamps memReader _ headerReads
                (oneTrack 0 [entry 90000 1; entry 90000 1; entry 90000 1; entry 90000 1])
                (MemReader [x01; x02; x03; x04] 0) (1 * Second) (3 * Second) [])
      as (_ & _ & _ & Hrange).
    destruct (Hrange Hmin Hmax) as [_ Hf]. exact Hf.
  - destruct (Hsamples headerReads (oneTrack 0 [entry 45000 1; entry 45000 1])
                [x01; x02] 0 (5 * Second) (10 * Second) [] Hseg) as [_ Hall].
    apply Hall. right. reflexivity.
Defined.

(** The sample at media time 0 is before [minTime] = 1 s, and is written
    with the timestamp -90000. *)
Lemma C1_seek_window_counterexample :
  ~ (forall (L : BoxLibrary) seg (r : memReader) (minTime maxTime : Duration),
       Forall (fun ts => 0 <= ts)
         (written (fst (segmentFMP4SeekAndMuxParts (segmentBoxes seg) r minTime maxTime
                          newRecMuxer)))).
Proof.
  intros Hclaim.
  specialize (Hclaim headerReads
    (oneTrack 0 [entry 90000 1; entry 90000 1; entry 90000 1; entry 90000 1])
    (MemReader [x01; x02; x03; x04] 0) (1 * Second) (3 * Second)).
  destruct seek_window as (s & Erun & Hw).
  rewrite Erun in Hclaim. cbn [fst] in Hclaim.
  unfold written in Hclaim. rewrite writtenSamples_timestamps in Hclaim.
  fold (handed s) in Hclaim. rewrite Hw in Hclaim.
  inversion Hclaim as [| ? ? Hneg _]. cbn in Hneg. lia.
Qed.

(** ** C8: the offset of segmentFMP4WriteParts *)

Example write_offset :
  exists s,
    segmentFMP4WriteParts (L := headerReads)
      (segmentBoxes (oneTrack 0 [entry 90000 1; entry 90000 1]))
      (MemReader [x01; x02] 0) (10 * Second) (100 * Second) newRecMuxer
    = (s, Ok (2 * Second))
    /\ handed s
       = [(900000, {| Duration_ := 90000; PTSOffset := 0; IsNonSyncSample := false;
                      Payload := [x01] |});
          (990000, {| Duration_ := 90000; PTSOffset := 0; IsNonSyncSample := false;
                      Payload := [x02] |})].
Proof. eexists. split; [vm_compute; reflexivity | reflexivity]. Qed.

(** A start half a second before zero: [durationGoToMp4] makes
    18446699073 ticks of it, and this is where the first sample goes; half a
    second is 45000 ticks. *)
Example write_negative_start :
  exists s,
    segmentFMP4WriteParts (L := headerReads)
      (segmentBoxes (oneTrack 0 [entry 90000 1]))
      (MemReader [x01] 0) (- 500 * Millisecond) (100 * Second) newRecMuxer
    = (s, Ok (1 * Second))
    /\ written s = [18446699073].
Proof. eexists. split; [vm_compute; reflexivity | reflexivity]. Qed.



(** With [startTime] = -0.5 s the first sample, at media time 0, is written
    at 18446699073 and not at -45000. *)
Lemma C8_write_parts_offset_counterexample :
  ~ (forall (L : BoxLibrary) seg (r : memReader) (startTime maxTime : Duration) d,
       let out := segmentFMP4WriteParts (segmentBoxes seg) r startTime maxTime
                    newRecMuxer in
       snd out = Ok d ->
       written (fst out)
       = map (fun el => el + startTime * fmp4Timescale / Second)
           (emittedElapsed (durationGoToMp4 maxTime fmp4Timescale) seg)).
Proof.
  intros Hclaim.
  specialize (Hclaim headerReads (oneTrack 0 [entry 90000 1]) (MemReader [x01] 0)
                (- 500 * Millisecond) (100 * Second) (1 * Second)).
  destruct write_negative_start as (s & Erun & Hw).
  cbv zeta in Hclaim. rewrite Erun in Hclaim. cbn [fst snd] in Hclaim.
  specialize (Hclaim eq_refl). rewrite Hw in Hclaim.
  vm_compute in Hclaim. discriminate Hclaim.
Qed.

(** ** segmentFMP4WriteParts at the early termination *)




(** ** Well-formed segments are walked without a panic *)

Section PartsSettled.

Context {R : Type} `{ReadSeeker R} {L : BoxLibrary}.

Variable maxT : Z.
Variable loop : list TrunEntry -> Z -> io (env R recMuxer) Z.

Hypothesis loop_result : forall entries elapsed s,
  returns_io (snd (loop entries elapsed s)).

Lemma settled_bind (m1 m2 : io (env R recMuxer) unit) s :
  settled (snd (m1 s)) -> (forall s1, settled (snd (m2 s1))) ->
  settled (snd ((m1 ;; m2) s)).
Proof.
  intros H1 H2. unfold bind. destruct (m1 s) as [s1 [[] | e | |]]; auto.
Qed.

Lemma settled_access (s : env R recMuxer) : settled (snd (libraryAccess s)).
Proof. exact I. Qed.

Lemma ignored_settled ty off pl children s :
  String.eqb ty "moof" = false -> String.eqb ty "traf" = false ->
  String.eqb ty "tfhd" = false -> String.eqb ty "tfdt" = false ->
  String.eqb ty "trun" = false -> String.eqb ty "mdat" = false ->
  settled (snd (visitBox (partsHandler maxT loop) (Box ty off pl children) s)).
Proof.
  intros E1 E2 E3 E4 E5 E6. rewrite visitBox_Box. unfold partsHandler.
  rewrite E1, E2, E3, E4, E5, E6.
  repeat io_step. io_last. exact I.
Qed.

Lemma traf_settled t s :
  settled (snd (visitBox (partsHandler maxT loop) (trafBox t) s)).
Proof.
  unfold trafBox.
  repeat (rewrite visitBox_Box; unfold partsHandler at 1;
          cbn [String.eqb Ascii.eqb Bool.eqb visitBoxes]).
  unfold readPayload. repeat io_step. rewrite step_if.
  destruct (u64 (tf_base t) >=? maxT); [rewrite step_fail; exact I |].
  repeat io_step. rewrite step_onReader.
  cbn [rd mx moofOffset tfhd tfdt maxElapsed atLeastOnePartWritten accesses].
  pose_seek_io.
  destruct (seek _ SeekStart _) as [r' [p | err | |]]; env_simpl; cbn [settled]; try tauto.
  rewrite bind_assoc, bind_run.
  match goal with |- context [loop ?es ?el ?s0] =>
    pose proof (loop_result es el s0) as Hl;
    destruct (loop es el s0) as [s1 [el' | err | |]] end;
    env_simpl; cbn [settled]; try tauto.
  repeat io_step. rewrite step_if.
  destruct (el' >? maxElapsed s1); repeat io_step; io_last; exact I.
Qed.

Lemma trafs_settled ts : forall s,
  settled (snd (visitBoxes (partsHandler maxT loop) (map trafBox ts) s)).
Proof.
  induction ts as [| t ts IH]; intros s; [exact I |].
  cbn [map visitBoxes]. apply settled_bind; [apply traf_settled | exact IH].
Qed.

Lemma moof_settled f s :
  settled (snd (visitBox (partsHandler maxT loop)
                  (Box "moof" (fg_offset f) PlOther
                     (Box "mfhd" 0 PlOther [] :: map trafBox (fg_trafs f))) s)).
Proof.
  rewrite visitBox_Box. unfold partsHandler at 1.
  cbn [String.eqb Ascii.eqb Bool.eqb].
  apply settled_bind; [apply settled_access | intros s1].
  apply settled_bind; [| intros s2; apply settled_access].
  apply settled_bind; [exact I | intros s2].
  apply settled_bind; [apply settled_access | intros s3].
  cbn [visitBoxes].
  apply settled_bind; [now apply ignored_settled | intros s4].
  apply trafs_settled.
Qed.

Lemma mdat_settled s :
  settled (snd (visitBox (partsHandler maxT loop) (Box "mdat" 0 PlOther []) s)).
Proof.
  rewrite visitBox_Box. unfold partsHandler.
  cbn [String.eqb Ascii.eqb Bool.eqb].
  repeat io_step. rewrite step_muxerFlush.
  destruct (flush _) as [w' [c |]]; repeat io_step; io_last; exact I.
Qed.

Lemma fragments_settled seg : forall s,
  settled (snd (visitBoxes (partsHandler maxT loop) (flat_map fragmentBoxes seg) s)).
Proof.
  induction seg as [| f seg IH]; intros s; [exact I |].
  cbn [flat_map]. unfold fragmentBoxes at 1. cbn [app visitBoxes].
  apply settled_bind; [apply moof_settled | intros s1].
  apply settled_bind; [apply mdat_settled | exact IH].
Qed.

Lemma segment_settled seg s :
  settled (snd (ReadBoxStructure (partsHandler maxT loop) (segmentBoxes seg) s)).
Proof.
  unfold ReadBoxStructure, segmentBoxes. cbn [visitBoxes].
  apply settled_bind; [apply settled_access | intros s1].
  apply settled_bind; [| intros s2; apply settled_access].
  apply settled_bind; [now apply ignored_settled | intros s2].
  apply settled_bind; [now apply ignored_settled | intros s3].
  apply fragments_settled.
Qed.

End PartsSettled.

(** On a well-formed segment neither function panics: each [tfdt] finds the
    [tfhd] of its track fragment, each [trun] its [tfdt]; the call returns a
    duration or an error. *)
Theorem well_formed_no_panic {R : Type} `{ReadSeeker R} {L : BoxLibrary}
    seg (r : R) (w : recMuxer) (t1 t2 : Duration) :
  settled (snd (segmentFMP4SeekAndMuxParts (segmentBoxes seg) r t1 t2 w))
  /\ settled (snd (segmentFMP4WriteParts (segmentBoxes seg) r t1 t2 w)).
Proof.
  split.
  - unfold segmentFMP4SeekAndMuxParts. rewrite seekHandler_parts.
    pose proof (segment_settled (durationGoToMp4 t2 fmp4Timescale)
                  (seekEntries (durationGoToMp4 t1 fmp4Timescale)
                               (durationGoToMp4 t2 fmp4Timescale))
                  (seekEntries_result _ _) seg (newEnv r w)) as Hs.
    destruct (ReadBoxStructure _ (segmentBoxes seg) (newEnv r w)) as [s [[] | e | |]];
      cbn [snd settled] in *; try tauto.
    + destruct (negb (atLeastOnePartWritten s)); exact I.
    + destruct (error_eqb e errTerminated); [| exact I].
      destruct (negb (atLeastOnePartWritten s)); exact I.
  - unfold segmentFMP4WriteParts. rewrite writeHandler_parts.
    pose proof (segment_settled (durationGoToMp4 t2 fmp4Timescale)
                  (writeEntries t1 (durationGoToMp4 t2 fmp4Timescale))
                  (writeEntries_result _ _) seg (newEnv r w)) as Hs.
    destruct (ReadBoxStructure _ (segmentBoxes seg) (newEnv r w)) as [s [[] | e | |]];
      cbn [snd settled] in *; try tauto.
    destruct (error_eqb e errTerminated); exact I.
Qed.

(** ** The two muxing functions side by side *)

(** With [minTime] = 0 and [startTime] = 0 the two functions write the same
    timestamps on a well-formed segment, when both succeed. *)
Theorem seek_and_write_agree_at_zero {R : Type} `{ReadSeeker R} {L : BoxLibrary}
    seg (r r' : R) (maxTime : Duration) fl fl' d d' :
  snd (segmentFMP4SeekAndMuxParts (segmentBoxes seg) r 0 maxTime (RecMuxer [] fl)) = Ok d ->
  snd (segmentFMP4WriteParts (segmentBoxes seg) r' 0 maxTime (RecMuxer [] fl')) = Ok d' ->
  written (fst (segmentFMP4SeekAndMuxParts (segmentBoxes seg) r 0 maxTime (RecMuxer [] fl)))
  = written (fst (segmentFMP4WriteParts (segmentBoxes seg) r' 0 maxTime (RecMuxer [] fl'))).
Proof.
  set (maxT := durationGoToMp4 maxTime fmp4Timescale).
  unfold segmentFMP4SeekAndMuxParts, segmentFMP4WriteParts. fold maxT.
  change (durationGoToMp4 0 fmp4Timescale) with 0.
  destruct (ReadBoxStructure (seekHandler 0 maxT) (segmentBoxes seg)
              (newEnv r (RecMuxer [] fl))) as [s1 res1] eqn:E1.
  destruct (ReadBoxStructure (writeHandler 0 maxT) (segmentBoxes seg)
              (newEnv r' (RecMuxer [] fl'))) as [s2 res2] eqn:E2.
  rewrite seekHandler_parts in E1. rewrite writeHandler_parts in E2.
  destruct (parts_written maxT _ _ seg r fl s1 res1 (seekEntries_writes 0 maxT) E1)
    as [_ H1].
  destruct (parts_written maxT _ _ seg r' fl' s2 res2 (writeEntries_writes 0 maxT) E2)
    as [_ H2].
  intros Hseek Hwrite.
  assert (W1 : written s1 = map (fun el => i64 (i64 el - i64 0)) (emittedElapsed maxT seg)
               /\ fst (match res1 with
                       | Ok _ =>
                           if negb (atLeastOnePartWritten s1)
                           then (s1, Err errNoSegmentsFound)
                           else (s1, Ok (durationMp4ToGo (u64 (maxElapsed s1 - 0))
                                           fmp4Timescale))
                       | Err e =>
                           if error_eqb e errTerminated
                           then if negb (atLeastOnePartWritten s1)
                                then (s1, Err errNoSegmentsFound)
                                else (s1, Ok (durationMp4ToGo (u64 (maxElapsed s1 - 0))
                                                fmp4Timescale))
                           else (s1, Err e)
                       | Panicked => (s1, Panicked)
                       | OutOfFuel => (s1, OutOfFuel)
                       end) = s1).
  { destruct res1 as [[] | e | |]; try discriminate.
    - split; [apply H1; now left |]. now destruct (negb (atLeastOnePartWritten s1)).
    - destruct e; try discriminate. cbn [error_eqb] in *.
      split; [apply H1; now right |]. now destruct (negb (atLeastOnePartWritten s1)). }
  assert (W2 : written s2
               = map (fun el => i64 (i64 el + i64 (durationGoToMp4 0 fmp4Timescale)))
                     (emittedElapsed maxT seg)
               /\ fst (match res2 with
                       | Ok _ => (s2, Ok (durationMp4ToGo (maxElapsed s2) fmp4Timescale))
                       | Err e =>
                           if error_eqb e errTerminated
                           then (s2, Ok (durationMp4ToGo (maxElapsed s2) fmp4Timescale))
                           else (s2, Err e)
                       | Panicked => (s2, Panicked)
                       | OutOfFuel => (s2, OutOfFuel)
                       end) = s2).
  { destruct res2 as [[] | e | |]; try discriminate.
    - split; [apply H2; now left | reflexivity].
    - destruct e; try discriminate. split; [apply H2; now right | reflexivity]. }
  destruct W1 as [W1 ->]. destruct W2 as [W2 ->]. rewrite W1, W2.
  apply map_ext. intros el. reflexivity.
Qed.

Lemma seek_and_write_agree_at_zero_witness :
  written (fst (segmentFMP4SeekAndMuxParts (L := headerReads)
                  (segmentBoxes (oneTrack 0 [entry 90000 1; entry 90000 1]))
                  (MemReader [x01; x02] 0) 0 (10 * Second) (RecMuxer [] [])))
  = written (fst (segmentFMP4WriteParts (L := headerReads)
                    (segmentBoxes (oneTrack 0 [entry 90000 1; entry 90000 1]))
                    (MemReader [x01; x02] 0) 0 (10 * Second) (RecMuxer [] []))).
Proof.
  apply (seek_and_write_agree_at_zero (L := headerReads)
           (oneTrack 0 [entry 90000 1; entry 90000 1])
           (MemReader [x01; x02] 0) (MemReader [x01; x02] 0) (10 * Second) [] []
           (2 * Second) (2 * Second)); vm_compute; reflexivity.
Defined.

(** ** The order of the calls on the muxer *)

(** No sample is written before a track has been selected. *)
Fixpoint trackSelectedFirst (calls : list muxCall) : bool :=
  match calls with
  | [] => true
  | CallSetTrack _ :: _ => true
  | CallWriteSample _ _ :: _ => false
  | CallFlush :: rest => trackSelectedFirst rest
  end.

Definition hasSetTrack (calls : list muxCall) : bool :=
  existsb (fun c => match c with CallSetTrack _ => true | _ => false end) calls.

Lemma trackSelectedFirst_app l l' :
  trackSelectedFirst l = true ->
  hasSetTrack l = true \/ trackSelectedFirst l' = true ->
  trackSelectedFirst (l ++ l') = true.
Proof.
  induction l as [| c l IH]; cbn.
  - intros _ [Hx | Hx]; [discriminate | exact Hx].
  - destruct c; cbn; auto.
Qed.

Lemma hasSetTrack_app l l' :
  hasSetTrack (l ++ l') = hasSetTrack l || hasSetTrack l'.
Proof. unfold hasSetTrack. apply existsb_app. Qed.

Section CallOrder.

Context {R : Type} `{ReadSeeker R} {L : BoxLibrary}.

Variable maxT : Z.
Variable loop : list TrunEntry -> Z -> io (env R recMuxer) Z.

Hypothesis loop_appends : forall entries elapsed s,
  exists l', rm_calls (mx (fst (loop entries elapsed s))) = rm_calls (mx s) ++ l'.

Definition orderKept (s : env R recMuxer) : Prop :=
  trackSelectedFirst (rm_calls (mx s)) = true
  /\ (tfdt s <> None -> hasSetTrack (rm_calls (mx s)) = true).

Definition orderSeen (x : env R recMuxer * result unit) : Prop :=
  trackSelectedFirst (rm_calls (mx (fst x))) = true
  /\ (snd x = Ok tt -> orderKept (fst x)).

Lemma partsHandler_order ty off pl expand :
  (forall s, orderKept s -> orderSeen (expand s)) ->
  forall s, orderKept s -> orderSeen (partsHandler maxT loop ty off pl expand s).
Proof.
  intros Hexp s [Hfirst Hset]. unfold partsHandler.
  destruct (String.eqb ty "moof").
  { run_io. apply Hexp. split; assumption. }
  destruct (String.eqb ty "traf"); [apply Hexp; split; assumption |].
  destruct (String.eqb ty "tfhd").
  { destruct pl; run_io; unfold orderSeen, orderKept; env_simpl;
      (split; [exact Hfirst |]); try discriminate; auto. }
  destruct (String.eqb ty "tfdt").
  { destruct pl as [b | b | b | | c]; run_io; unfold orderSeen, orderKept; env_simpl;
      try (split; [exact Hfirst | discriminate]).
    destruct (u64 (BaseMediaDecodeTimeV1 b) >=? maxT); env_simpl;
      [split; [exact Hfirst | discriminate] |].
    destruct (tfhd s); env_simpl; [| split; [exact Hfirst | discriminate]].
    cbn [setTrack recMuxer_Muxer rm_calls].
    assert (Hnew : trackSelectedFirst (rm_calls (mx s) ++ [CallSetTrack (u32 (TrackID t))])
                   = true)
      by (apply trackSelectedFirst_app; [exact Hfirst | now right]).
    split; [exact Hnew |]. intros _. split; [exact Hnew |]. intros _.
    rewrite hasSetTrack_app. cbn. apply orb_true_r. }
  destruct (String.eqb ty "trun").
  { destruct pl as [b | b | b | | c]; run_io; unfold orderSeen, orderKept; env_simpl;
      try (split; [exact Hfirst | discriminate]).
    destruct (seek _ SeekStart _) as [r' [p | err | |]]; env_simpl;
      try (split; [exact Hfirst | discriminate]).
    destruct (tfdt s) as [td |] eqn:Etd; env_simpl;
      [| split; [exact Hfirst | discriminate]].
    specialize (Hset ltac:(discriminate)).
    match goal with |- context [loop ?es ?el ?s0] =>
      destruct (loop_appends es el s0) as [l' Hl];
      destruct (loop es el s0) as [s1 [el' | err | |]] end;
      env_simpl; rewrite ?Hl;
      assert (Hnew : trackSelectedFirst (rm_calls (mx s) ++ l') = true)
        by (apply trackSelectedFirst_app; [exact Hfirst | now left]);
      try (split; [exact Hnew | discriminate]).
    assert (Hhas : hasSetTrack (rm_calls (mx s) ++ l') = true)
      by (rewrite hasSetTrack_app, Hset; reflexivity).
    destruct (el' >? maxElapsed s1); env_simpl; rewrite ?Hl;
      (split; [exact Hnew | intros _; split; [exact Hnew | intros _; exact Hhas]]). }
  destruct (String.eqb ty "mdat").
  { run_io. change (flush (mx s)) with (rec_flush (mx s)). unfold rec_flush.
    assert (Hnew : trackSelectedFirst (rm_calls (mx s) ++ [CallFlush]) = true)
      by (apply trackSelectedFirst_app; [exact Hfirst | now right]).
    destruct (rm_flush (mx s)) as [| [c |] tl]; unfold orderSeen, orderKept; env_simpl;
      cbn [rm_calls]; (split; [exact Hnew |]); try discriminate;
      intros _; (split; [exact Hnew |]); intros Ht;
      rewrite hasSetTrack_app, (Hset Ht); reflexivity. }
  run_io. split; [exact Hfirst | intros _; split; assumption].
Qed.

Lemma parts_walk_order bs (r : R) fl :
  orderSeen (ReadBoxStructure (partsHandler maxT loop) bs (newEnv r (RecMuxer [] fl))).
Proof.
  apply (walk_post orderKept orderSeen).
  - intros s [_ Hk]. now apply Hk.
  - intros s Hs. split; [apply Hs | intros _; exact Hs].
  - intros s c Hs. split; [apply Hs | discriminate].
  - apply partsHandler_order.
  - intros s Hs. exact Hs.
  - split; [reflexivity |]. intros Hn. now elim Hn.
Qed.

End CallOrder.

Lemma seekEntries_appends {R} `{ReadSeeker R} {L : BoxLibrary} minT maxT entries :
  forall elapsed (s : env R recMuxer),
    exists l', rm_calls (mx (fst (seekEntries minT maxT entries elapsed s)))
               = rm_calls (mx s) ++ l'.
Proof.
  induction entries as [| e rest IH]; intros elapsed s.
  - exists []. cbn. now rewrite app_nil_r.
  - cbn [seekEntries]. run_io.
    destruct (readFull (u32 (SampleSize e)) (rd s)) as [r' [data | err | |]];
      env_simpl; try (exists []; now rewrite app_nil_r).
    destruct (elapsed >=? maxT); env_simpl; [exists []; now rewrite app_nil_r |].
    destruct (i64 (i64 elapsed - i64 minT) >=? 0); env_simpl;
      match goal with |- context [seekEntries minT maxT rest ?el ?s0] =>
        destruct (IH el s0) as [l' Hl];
        destruct (seekEntries minT maxT rest el s0) as [s1 res] end;
      cbn [fst mx rm_calls writeSample recMuxer_Muxer] in *;
      eexists; destruct res; cbn [fst]; rewrite Hl, <- app_assoc; reflexivity.
Qed.

Lemma writeEntries_appends {R} `{ReadSeeker R} {L : BoxLibrary} startTime maxT entries :
  forall elapsed (s : env R recMuxer),
    exists l', rm_calls (mx (fst (writeEntries startTime maxT entries elapsed s)))
               = rm_calls (mx s) ++ l'.
Proof.
  induction entries as [| e rest IH]; intros elapsed s.
  - exists []. cbn. now rewrite app_nil_r.
  - cbn [writeEntries]. run_io.
    destruct (readFull (u32 (SampleSize e)) (rd s)) as [r' [data | err | |]];
      env_simpl; try (exists []; now rewrite app_nil_r).
    destruct (elapsed >=? maxT); env_simpl; [exists []; now rewrite app_nil_r |].
    match goal with |- context [writeEntries startTime maxT rest ?el ?s0] =>
      destruct (IH el s0) as [l' Hl];
      destruct (writeEntries startTime maxT rest el s0) as [s1 res] end;
      cbn [fst mx rm_calls writeSample recMuxer_Muxer] in *;
      eexists; destruct res; cbn [fst]; rewrite Hl, <- app_assoc; reflexivity.
Qed.

(** Whatever the boxes are and however the call ends, the muxer is never
    handed a sample before [setTrack] has been called: a [trun] is only
    read with a [tfdt] at hand, and a [tfdt] that is kept has selected its
    track. *)
Theorem track_selected_before_samples {R : Type} `{ReadSeeker R} {L : BoxLibrary}
    bs (r : R) (t1 t2 : Duration) fl :
  trackSelectedFirst
    (rm_calls (mx (fst (segmentFMP4SeekAndMuxParts bs r t1 t2 (RecMuxer [] fl))))) = true
  /\ trackSelectedFirst
       (rm_calls (mx (fst (segmentFMP4WriteParts bs r t1 t2 (RecMuxer [] fl))))) = true.
Proof.
  split.
  - unfold segmentFMP4SeekAndMuxParts. rewrite seekHandler_parts.
    destruct (parts_walk_order (durationGoToMp4 t2 fmp4Timescale) _
                (seekEntries_appends (durationGoToMp4 t1 fmp4Timescale)
                                     (durationGoToMp4 t2 fmp4Timescale)) bs r fl)
      as [Hfirst _].
    destruct (ReadBoxStructure _ bs (newEnv r (RecMuxer [] fl))) as [s [[] | e | |]];
      cbn [fst] in *; auto.
    + now destruct (negb (atLeastOnePartWritten s)).
    + destruct (error_eqb e errTerminated); auto.
      now destruct (negb (atLeastOnePartWritten s)).
  - unfold segmentFMP4WriteParts. rewrite writeHandler_parts.
    destruct (parts_walk_order (durationGoToMp4 t2 fmp4Timescale) _
                (writeEntries_appends t1 (durationGoToMp4 t2 fmp4Timescale)) bs r fl)
      as [Hfirst _].
    destruct (ReadBoxStructure _ bs (newEnv r (RecMuxer [] fl))) as [s [[] | e | |]];
      cbn [fst] in *; auto.
    now destruct (error_eqb e errTerminated).
Qed.

(** ** More on the RTSP source worker *)

Module RTSPMore.
Import RTSP RTSPFacts.

(** *** Ready and not-ready alternate *)

(** Going through a trace with the readiness the parent holds: an accepted
    [onSourceStaticSetReady] must find the source not ready, a
    [OnSourceStaticSetNotReady] must find it ready. *)
Fixpoint alternates (ready : bool) (evs : list event) : option bool :=
  match evs with
  | [] => Some ready
  | EvSetReady true :: rest => if ready then None else alternates true rest
  | EvSetNotReady :: rest => if ready then alternates false rest else None
  | _ :: rest => alternates ready rest
  end.

Lemma alternates_app b l1 l2 :
  alternates b (l1 ++ l2)
  = match alternates b l1 with Some b' => alternates b' l2 | None => None end.
Proof.
  revert b. induction l1 as [| e l1 IH]; intros b; [reflexivity |].
  destruct e as [l m | [|] | | | d | | |]; cbn [app alternates]; try apply IH;
    destruct b; try reflexivity; apply IH.
Qed.

Lemma alternates_insert mid l1 l2 :
  (forall b rest, alternates b (mid :: rest) = alternates b rest) ->
  forall b, alternates b (l1 ++ mid :: l2) = alternates b (l1 ++ l2).
Proof.
  intros Hmid. induction l1 as [| e l1 IH]; intros b; [apply Hmid |].
  destruct e as [l m | [|] | | | d | | |]; cbn [app alternates]; try apply IH;
    destruct b; try reflexivity; apply IH.
Qed.

Lemma session_alternates a k mid :
  (forall b rest, alternates b (mid :: rest) = alternates b rest) ->
  alternates false (firstn k (fst (session a)) ++ [mid] ++ skipn k (fst (session a)))
  = Some false.
Proof.
  intros Hmid. cbn [app]. rewrite alternates_insert by exact Hmid.
  rewrite firstn_skipn. unfold session.
  destruct (optionsErr a); [| destruct (describeRes a);
    [| destruct (setupTracks (setupErr a) l);
       [| destruct (setReadyErr a); [| destruct (playErr a)]]]];
    reflexivity.
Qed.

Lemma runInner_alternates a : alternates false (fst (runInner a)) = Some false.
Proof.
  unfold runInner.
  destruct (parseURLErr a); [reflexivity |].
  destruct (startErr a); [reflexivity |].
  pose proof (session_alternates a) as Hk.
  destruct (session a) as [evs out]. cbn [fst] in Hk.
  destruct (cancelAt a) as [k |], out; cbn [fst]; cbn [alternates log].
  - apply Hk. reflexivity.
  - apply Hk. reflexivity.
  - specialize (Hk (List.length evs) (logErr err) (fun _ _ => eq_refl)).
    now rewrite firstn_all, skipn_all, app_nil_r in Hk.
  - specialize (Hk (List.length evs) (log Debug "x") (fun _ _ => eq_refl)).
    rewrite firstn_all, skipn_all, app_nil_r, alternates_app in Hk.
    destruct (alternates false evs) as [[|] |]; cbn in Hk; congruence.
Qed.

(** In every run the accepted ready calls and the not-ready calls
    alternate, starting with a ready call and ending with a not-ready call:
    the parent never holds the source ready twice over, is never told
    "not ready" about a source that is not ready, and is left with a source
    that is not ready. *)
Theorem ready_not_ready_alternate script :
  alternates false (fst (run script)) = Some false.
Proof.
  assert (Hloop : alternates false (fst (retryLoop script)) = Some false).
  { induction script as [| a rest IH]; [reflexivity |].
    cbn [retryLoop]. pose proof (runInner_alternates a) as Ha.
    destruct (runInner a) as [evs [[|] | e]]; cbn [fst] in *; try exact Ha.
    destruct (pauseCancelled a).
    - cbn [fst]. now rewrite alternates_app, Ha.
    - destruct (retryLoop rest) as [evs' st]. cbn [fst] in *.
      now rewrite alternates_app, Ha. }
  unfold run. destruct (retryLoop script) as [evs [| e |]]; cbn [fst] in *;
    try exact Hloop.
  now rewrite alternates_app, Hloop.
Qed.

(** *** Cancellation *)

(** Once the context is seen done, in the [select] of [runInner] or in the
    [select] of the pause, no further attempt is made: what the script
    holds after this attempt plays no part, and the run has ended. *)
Theorem cancellation_never_retries a rest :
  pauseCancelled a = true
  \/ (parseURLErr a = None /\ startErr a = None /\ cancelAt a <> None) ->
  run (a :: rest) = run [a] /\ snd (run (a :: rest)) <> Retrying.
Proof.
  intros Hc. unfold run. cbn [retryLoop].
  assert (Hinner : pauseCancelled a = true \/ snd (runInner a) <> InnerReturn true).
  { destruct Hc as [Hp | (Hu & Hs & Hk)]; [now left | right].
    unfold runInner. rewrite Hu, Hs.
    destruct (session a) as [evs out].
    destruct (cancelAt a) as [k |]; [| now elim Hk].
    destruct out; cbn; discriminate. }
  destruct (runInner a) as [evs [[|] | e]]; cbn [snd] in *.
  - destruct Hinner as [-> | Hx]; [| now elim Hx].
    split; [reflexivity | discriminate].
  - split; [reflexivity | discriminate].
  - split; [reflexivity | discriminate].
Qed.

Lemma cancellation_never_retries_witness :
  run [parentRefuses; streaming] = run [parentRefuses]
  /\ snd (run [parentRefuses; streaming]) <> Retrying.
Proof.
  apply (cancellation_never_retries parentRefuses [streaming]). now left.
Defined.

(** *** Attempts and pauses *)

Definition isConnecting (e : event) : bool :=
  match e with
  | EvLog Debug msg => String.eqb msg "[rtsp source] connecting"
  | _ => false
  end.

Definition pauseIsFiveSeconds (e : event) : bool :=
  match e with
  | EvRetryPause d => d =? 5000000000
  | _ => true
  end.

Lemma session_quiet a :
  count isConnecting (fst (session a)) = 0%nat
  /\ count isRetryPause (fst (session a)) = 0%nat
  /\ forallb pauseIsFiveSeconds (fst (session a)) = true.
Proof.
  unfold session.
  destruct (optionsErr a); [| destruct (describeRes a);
    [| destruct (setupTracks (setupErr a) l);
       [| destruct (setReadyErr a); [| destruct (playErr a)]]]];
    cbn; auto.
Qed.

Lemma forallb_firstn_skipn {A} (p : A -> bool) k l :
  forallb p (firstn k l) && forallb p (skipn k l) = forallb p l.
Proof. now rewrite <- forallb_app, firstn_skipn. Qed.

Lemma runInner_one_attempt a :
  count isConnecting (fst (runInner a)) = 1%nat
  /\ count isRetryPause (fst (runInner a)) = 0%nat
  /\ forallb pauseIsFiveSeconds (fst (runInner a)) = true.
Proof.
  unfold runInner.
  destruct (parseURLErr a); [cbn; auto |].
  destruct (startErr a); [cbn; auto |].
  destruct (session_quiet a) as (Hc & Hp & Hf).
  destruct (session a) as [evs out]. cbn [fst] in *.
  destruct (cancelAt a) as [k |], out; cbn [fst];
    change (?x :: ?l) with ([x] ++ l);
    rewrite ?count_app, ?forallb_app; cbn [app];
    rewrite ?count_app, ?forallb_app, ?count_firstn_skipn, ?Hc, ?Hp;
    repeat split; try reflexivity;
    try (rewrite Hf; reflexivity);
    try (cbn [forallb pauseIsFiveSeconds andb];
         rewrite <- (forallb_firstn_skipn pauseIsFiveSeconds k evs) in Hf;
         apply andb_true_iff in Hf; destruct Hf as [-> ->]; reflexivity).
Qed.

(** Every attempt logs "connecting" once; between two attempts the worker
    has always gone through the retry pause, and every pause is of 5
    seconds: the attempts of a run are at most one more than its pauses. *)
Theorem attempts_and_pauses script :
  (count isRetryPause (fst (run script)) <= count isConnecting (fst (run script))
   <= count isRetryPause (fst (run script)) + 1)%nat
  /\ forallb pauseIsFiveSeconds (fst (run script)) = true.
Proof.
  assert (Hloop :
    (count isConnecting (fst (retryLoop script)) = count isRetryPause (fst (retryLoop script))
     \/ (snd (retryLoop script) <> Retrying
         /\ count isConnecting (fst (retryLoop script))
            = S (count isRetryPause (fst (retryLoop script)))))
    /\ forallb pauseIsFiveSeconds (fst (retryLoop script)) = true).
  { induction script as [| a rest IH]; [split; [now left | reflexivity] |].
    cbn [retryLoop]. destruct (runInner_one_attempt a) as (Hc & Hp & Hf).
    destruct (runInner a) as [evs [[|] | e]]; cbn [fst snd] in *.
    - destruct (pauseCancelled a); cbn [fst snd].
      + rewrite !count_app, forallb_app, Hc, Hp, Hf. cbn. split; [now left | reflexivity].
      + destruct (retryLoop rest) as [evs' st]. cbn [fst snd] in *.
        destruct IH as [IHc IHf].
        rewrite !count_app, !forallb_app, Hc, Hp, Hf, IHf. cbn.
        split; [| reflexivity].
        destruct IHc as [E | [Hst E]]; [left | right; split; [exact Hst |]]; lia.
    - split; [right; split; [discriminate | lia] | exact Hf].
    - split; [right; split; [discriminate | lia] | exact Hf]. }
  unfold run. destruct (retryLoop script) as [evs st]. cbn [fst snd] in *.
  destruct Hloop as [Hc Hf].
  destruct st; cbn [fst]; rewrite ?count_app, ?forallb_app, ?Hf; cbn;
    (split; [| reflexivity]); destruct Hc as [E | [_ E]]; lia.
Qed.

End RTSPMore.

(** ** segmentFMP4ReadMaxDuration on a well-formed file *)

Lemma byteZ_byteOfZ z : byteZ (byteOfZ z) = z mod 256.
Proof.
  unfold byteZ, byteOfZ.
  pose proof (Z.mod_pos_bound z 256 ltac:(lia)) as Hm.
  destruct (Byte.of_N (Z.to_N (z mod 256))) as [b |] eqn:E.
  - apply Byte.to_of_N in E. rewrite E. apply Z2N.id. lia.
  - apply Byte.of_N_None_iff in E. lia.
Qed.

Lemma boxSize_of_boxHeader n tag :
  0 <= n < 2 ^ 32 -> boxSize (boxHeader n tag) = n.
Proof.
  intros Hn. unfold boxHeader, be32. cbn [app].
  rewrite boxSize_value.
  rewrite !byteZ_byteOfZ, !Z.shiftr_div_pow2 by lia.
  change (2 ^ 24) with 16777216. change (2 ^ 16) with 65536. change (2 ^ 8) with 256.
  assert (H24 : n / 16777216 < 256) by (apply Z.div_lt_upper_bound; lia).
  assert (H24' : 0 <= n / 16777216) by (apply Z.div_pos; lia).
  rewrite (Z.mod_small (n / 16777216)) by lia.
  pose proof (Z.div_mod n 16777216 ltac:(lia)) as E1.
  pose proof (Z.mod_pos_bound n 16777216 ltac:(lia)) as B1.
  pose proof (Z.div_mod n 65536 ltac:(lia)) as E2.
  pose proof (Z.mod_pos_bound n 65536 ltac:(lia)) as B2.
  pose proof (Z.div_mod n 256 ltac:(lia)) as E3.
  pose proof (Z.mod_pos_bound n 256 ltac:(lia)) as B3.
  pose proof (Z.div_mod (n / 65536) 256 ltac:(lia)) as E4.
  pose proof (Z.mod_pos_bound (n / 65536) 256 ltac:(lia)) as B4.
  pose proof (Z.div_mod (n / 256) 256 ltac:(lia)) as E5.
  pose proof (Z.mod_pos_bound (n / 256) 256 ltac:(lia)) as B5.
  assert (D1 : n / 65536 / 256 = n / 16777216)
    by (rewrite Z.div_div by lia; reflexivity).
  assert (D2 : n / 256 / 256 = n / 65536)
    by (rewrite Z.div_div by lia; reflexivity).
  rewrite D1 in E4. rewrite D2 in E5. lia.
Qed.

(** A reader in memory with the bytes [pre] behind it and [suf] ahead. *)
Definition cursor (pre suf : list byte) : memReader :=
  MemReader (pre ++ suf) (Z.of_nat (List.length pre)).

Lemma cursor_shift pre x suf :
  MemReader (pre ++ x ++ suf) (Z.of_nat (List.length pre) + Z.of_nat (List.length x))
  = cursor (pre ++ x) suf.
Proof.
  unfold cursor. rewrite <- app_assoc, length_app, Nat2Z.inj_add. reflexivity.
Qed.

Lemma cursor_read pre x suf :
  mem_readFull (Z.of_nat (List.length x)) (cursor pre (x ++ suf))
  = (cursor (pre ++ x) suf, Ok x).
Proof.
  destruct x as [| b x].
  - cbn [List.length Z.of_nat app]. unfold mem_readFull. cbn [Z.leb Z.compare].
    now rewrite app_nil_r.
  - unfold cursor at 1. rewrite mem_readFull_at by discriminate.
    now rewrite cursor_shift.
Qed.

Lemma cursor_skip pre x suf :
  mem_seek (Z.of_nat (List.length x)) SeekCurrent (cursor pre (x ++ suf))
  = (cursor (pre ++ x) suf, Ok (Z.of_nat (List.length (pre ++ x)))).
Proof.
  unfold cursor at 1, mem_seek. cbn [mr_data mr_pos].
  destruct (Z.ltb_spec (Z.of_nat (List.length pre) + Z.of_nat (List.length x)) 0);
    [lia |].
  rewrite cursor_shift. f_equal. f_equal. rewrite length_app. lia.
Qed.

Lemma cursor_tell pre suf :
  mem_seek 0 SeekCurrent (cursor pre suf) = (cursor pre suf, Ok (Z.of_nat (List.length pre))).
Proof. unfold cursor. rewrite mem_tell by (cbn; lia). reflexivity. Qed.

Lemma cursor_seek_start pre suf pre' suf' :
  pre ++ suf = pre' ++ suf' ->
  mem_seek (Z.of_nat (List.length pre')) SeekStart (cursor pre suf)
  = (cursor pre' suf', Ok (Z.of_nat (List.length pre'))).
Proof.
  intros E. unfold cursor, mem_seek. cbn [mr_data mr_pos].
  destruct (Z.ltb_spec (Z.of_nat (List.length pre')) 0); [lia |].
  now rewrite E.
Qed.

Lemma boxHeader_length n tag :
  String.length tag = 4%nat -> List.length (boxHeader n tag) = 8%nat.
Proof.
  intros Ht. unfold boxHeader, be32. cbn [List.length app].
  destruct tag as [| a [| b [| c [| d [| e t]]]]]; try discriminate. reflexivity.
Qed.

Lemma read_box_header pre n tag suf :
  String.length tag = 4%nat ->
  mem_readFull 8 (cursor pre (boxHeader n tag ++ suf))
  = (cursor (pre ++ boxHeader n tag) suf, Ok (boxHeader n tag)).
Proof.
  intros Ht. pose proof (cursor_read pre (boxHeader n tag) suf) as E.
  rewrite boxHeader_length in E by exact Ht. exact E.
Qed.

Lemma skip_box_body pre body suf :
  mem_seek (8 + Z.of_nat (List.length body) - 8) SeekCurrent (cursor pre (body ++ suf))
  = (cursor (pre ++ body) suf, Ok (Z.of_nat (List.length (pre ++ body)))).
Proof.
  replace (8 + Z.of_nat (List.length body) - 8) with (Z.of_nat (List.length body)) by lia.
  apply cursor_skip.
Qed.

(** A fragment as bytes: a [moof] box and an [mdat] box, each with the body
    given. *)
Definition fragmentBytes (f : list byte * list byte) : list byte :=
  mkBox "moof" (fst f) ++ mkBox "mdat" (snd f).

Definition boxFits (body : list byte) : Prop :=
  8 + Z.of_nat (List.length body) < 2 ^ 32.

(** The offset of the last of the fragments [fs] that start at [pos]. *)
Fixpoint lastMoofOf (fs : list (list byte * list byte)) (pos last : Z) : Z :=
  match fs with
  | [] => last
  | f :: rest => lastMoofOf rest (pos + Z.of_nat (List.length (fragmentBytes f))) pos
  end.

Lemma scanPairs_fragments fs : forall fuel last pre tail,
  (List.length fs < fuel)%nat ->
  Forall (fun f => boxFits (fst f) /\ boxFits (snd f)) fs ->
  (List.length tail < 8)%nat ->
  exists r',
    scanPairs fuel last (cursor pre (flat_map fragmentBytes fs ++ tail))
    = (r', Ok (lastMoofOf fs (Z.of_nat (List.length pre)) last)).
Proof.
  induction fs as [| [mbody dbody] rest IH]; intros fuel last pre tail Hfuel Hfit Htail;
    (destruct fuel as [| fuel]; [cbn in Hfuel; lia |]).
  - cbn [flat_map app lastMoofOf]. rewrite scanPairs_unfold.
    change (@seek memReader _) with mem_seek.
    change (@readFull memReader _) with mem_readFull.
    rewrite cursor_tell.
    destruct (mem_readFull_short 8 (cursor pre tail)) as (r' & e & -> & _); [lia | |].
    + unfold cursor, mr_len. cbn [mr_data mr_pos]. rewrite length_app. lia.
    + now exists r'.
  - inversion Hfit as [| ? ? [Hm Hd] Hrest]; subst. cbn [fst snd] in *.
    unfold boxFits in Hm, Hd.
    cbn [flat_map lastMoofOf]. unfold fragmentBytes at 1. cbn [fst snd].
    unfold mkBox. rewrite <- !app_assoc.
    rewrite scanPairs_unfold.
    change (@seek memReader _) with mem_seek.
    change (@readFull memReader _) with mem_readFull.
    rewrite cursor_tell.
    rewrite read_box_header by reflexivity.
    change (hasTag (boxHeader (8 + Z.of_nat (List.length mbody)) "moof") "moof") with true.
    cbn [negb]. rewrite boxSize_of_boxHeader by lia.
    rewrite skip_box_body.
    rewrite read_box_header by reflexivity.
    change (hasTag (boxHeader (8 + Z.of_nat (List.length dbody)) "mdat") "mdat") with true.
    cbn [negb]. rewrite boxSize_of_boxHeader by lia.
    rewrite skip_box_body.
    destruct (IH fuel (Z.of_nat (List.length pre))
                ((((pre ++ boxHeader (8 + Z.of_nat (List.length mbody)) "moof") ++ mbody)
                  ++ boxHeader (8 + Z.of_nat (List.length dbody)) "mdat") ++ dbody)
                tail ltac:(cbn in Hfuel; lia) Hrest Htail) as [r' Hr'].
    exists r'. rewrite Hr'. f_equal. f_equal. f_equal.
    unfold fragmentBytes, mkBox. cbn [fst snd].
    rewrite !length_app. lia.
Qed.

(** A track fragment as bytes, with what go-mp4 parses out of its [tfdt]
    and [trun] payloads. *)
Record trafLayout : Type := {
  tl_tfhdBody : list byte;
  tl_tfdtPayload : list byte;
  tl_trunPayload : list byte;
  tl_tfdt : Tfdt;
  tl_trun : Trun
}.

Definition trafBytes (t : trafLayout) : list byte :=
  mkBox "traf" (mkBox "tfhd" (tl_tfhdBody t) ++ mkBox "tfdt" (tl_tfdtPayload t)
                ++ mkBox "trun" (tl_trunPayload t)).

(** The larger of [m] and the ends of the track fragments: for each, its
    base media decode time plus the durations of its samples. *)
Definition maxElapsedOf (trafs : list trafLayout) (m : Z) : Z :=
  fold_left
    (fun m t =>
       let elapsed :=
         sumDurations (u64 (BaseMediaDecodeTimeV1 (tl_tfdt t))) (Entries (tl_trun t)) in
       if elapsed >? m then elapsed else m)
    trafs m.

Section LastFragment.

Variable unmarshalTfdt : list byte -> option Tfdt.
Variable unmarshalTrun : list byte -> option Trun.

Definition trafParses (t : trafLayout) : Prop :=
  unmarshalTfdt (tl_tfdtPayload t) = Some (tl_tfdt t)
  /\ unmarshalTrun (tl_trunPayload t) = Some (tl_trun t)
  /\ boxFits (tl_tfhdBody t) /\ boxFits (tl_tfdtPayload t) /\ boxFits (tl_trunPayload t).

Lemma read_payload pre body suf :
  boxFits body ->
  mem_readFull (u32 (8 + Z.of_nat (List.length body) - 8)) (cursor pre (body ++ suf))
  = (cursor (pre ++ body) suf, Ok body).
Proof.
  intros Hfit. unfold boxFits in Hfit.
  replace (8 + Z.of_nat (List.length body) - 8) with (Z.of_nat (List.length body)) by lia.
  rewrite u32_small by (unfold two32; lia).
  apply cursor_read.
Qed.

Lemma scanTrafs_trafs trafs : forall fuel m pre mdatSize suf,
  (List.length trafs < fuel)%nat ->
  Forall trafParses trafs ->
  exists r',
    scanTrafs unmarshalTfdt unmarshalTrun fuel m
      (cursor pre (flat_map trafBytes trafs ++ boxHeader mdatSize "mdat" ++ suf))
    = (r', Ok (maxElapsedOf trafs m)).
Proof.
  induction trafs as [| t rest IH]; intros fuel m pre mdatSize suf Hfuel Hparse;
    (destruct fuel as [| fuel]; [cbn in Hfuel; lia |]).
  - cbn [flat_map app maxElapsedOf fold_left scanTrafs].
    unfold bind, ret, fail.
    change (@readFull memReader _) with mem_readFull.
    rewrite read_box_header by reflexivity.
    change (hasTag (boxHeader mdatSize "mdat") "traf") with false.
    change (hasTag (boxHeader mdatSize "mdat") "mdat") with true.
    cbn [negb]. eexists. reflexivity.
  - inversion Hparse as [| ? ? (Htfdt & Htrun & F1 & F2 & F3) Hrest]; subst.
    cbn [flat_map]. unfold trafBytes at 1. unfold mkBox. rewrite <- !app_assoc.
    cbn [scanTrafs]. unfold readHeader, bind, ret, fail.
    change (@seek memReader _) with mem_seek.
    change (@readFull memReader _) with mem_readFull.
    rewrite read_box_header by reflexivity.
    match goal with |- context [hasTag (boxHeader ?n "traf") "traf"] =>
      change (hasTag (boxHeader n "traf") "traf") with true end.
    cbn [negb].
    rewrite read_box_header by reflexivity.
    match goal with |- context [hasTag (boxHeader ?n "tfhd") "tfhd"] =>
      change (hasTag (boxHeader n "tfhd") "tfhd") with true end.
    cbn [negb]. unfold boxFits in F1, F2, F3.
    rewrite boxSize_of_boxHeader by lia.
    rewrite skip_box_body.
    rewrite read_box_header by reflexivity.
    match goal with |- context [hasTag (boxHeader ?n "tfdt") "tfdt"] =>
      change (hasTag (boxHeader n "tfdt") "tfdt") with true end.
    cbn [negb]. rewrite boxSize_of_boxHeader by lia.
    rewrite read_payload by exact F2. rewrite Htfdt.
    rewrite read_box_header by reflexivity.
    match goal with |- context [hasTag (boxHeader ?n "trun") "trun"] =>
      change (hasTag (boxHeader n "trun") "trun") with true end.
    cbn [negb]. rewrite boxSize_of_boxHeader by lia.
    rewrite read_payload by exact F3. rewrite Htrun.
    match goal with |- context [scanTrafs _ _ fuel ?m' (cursor ?pre' _)] =>
      destruct (IH fuel m' pre' mdatSize suf ltac:(cbn in Hfuel; lia) Hrest) as [r' Hr'] end.
    exists r'. rewrite Hr'. reflexivity.
Qed.

End LastFragment.

Lemma lastMoofOf_app fs f : forall pos last,
  lastMoofOf (fs ++ [f]) pos last
  = pos + Z.of_nat (List.length (flat_map fragmentBytes fs)).
Proof.
  induction fs as [| g fs IH]; intros pos last.
  - cbn. lia.
  - cbn [app lastMoofOf flat_map]. rewrite IH, length_app. lia.
Qed.

Lemma hasTag_boxHeader n tag :
  String.length tag = 4%nat -> hasTag (boxHeader n tag) tag = true.
Proof.
  intros Ht.
  destruct tag as [| a [| b [| c [| d [| e t]]]]]; try discriminate.
  unfold hasTag, boxHeader, be32. cbn.
  rewrite !byte_dec_lb by reflexivity. reflexivity.
Qed.

(** A segment file: the [ftyp] and [moov] boxes, the earlier fragments, the
    last fragment (an [mfhd] box and the track fragments in its [moof], then
    its [mdat]), and a tail too short to hold a box header. *)
Definition segmentBytes (ftypBody moovBody : list byte)
    (earlier : list (list byte * list byte)) (mfhdBody : list byte)
    (trafs : list trafLayout) (mdatBody tail : list byte) : list byte :=
  mkBox "ftyp" ftypBody ++ mkBox "moov" moovBody
  ++ flat_map fragmentBytes
       (earlier ++ [(mkBox "mfhd" mfhdBody ++ flat_map trafBytes trafs, mdatBody)])
  ++ tail.

(** The maximum duration of a well-formed segment is read off its last
    fragment alone: the largest, over the track fragments of the last [moof],
    of the base media decode time plus the sample durations, converted from
    the 90 kHz timescale. Earlier fragments and the bytes of the [mdat] boxes
    have no part in it. *)
Theorem readMaxDuration_last_fragment
    (unmarshalTfdt : list byte -> option Tfdt) (unmarshalTrun : list byte -> option Trun)
    (ftypBody moovBody : list byte) (earlier : list (list byte * list byte))
    (mfhdBody : list byte) (trafs : list trafLayout) (mdatBody tail : list byte)
    (fuel : nat) :
  boxFits ftypBody -> boxFits moovBody ->
  Forall (fun f => boxFits (fst f) /\ boxFits (snd f)) earlier ->
  List.length mfhdBody = 8%nat ->
  boxFits (mkBox "mfhd" mfhdBody ++ flat_map trafBytes trafs) ->
  boxFits mdatBody ->
  Forall (trafParses unmarshalTfdt unmarshalTrun) trafs ->
  (List.length tail < 8)%nat ->
  (S (List.length earlier) < fuel)%nat -> (List.length trafs < fuel)%nat ->
  snd (segmentFMP4ReadMaxDuration unmarshalTfdt unmarshalTrun fuel
         (MemReader (segmentBytes ftypBody moovBody earlier mfhdBody trafs mdatBody tail) 0))
  = Ok (durationMp4ToGo (maxElapsedOf trafs 0) fmp4Timescale).
Proof.
  intros Fftyp Fmoov Fearlier Lmfhd Fmoof Fmdat Hparse Ltail Hfuel1 Hfuel2.
  set (lastMoof := mkBox "mfhd" mfhdBody ++ flat_map trafBytes trafs) in *.
  set (frags := flat_map fragmentBytes (earlier ++ [(lastMoof, mdatBody)])).
  set (data := segmentBytes ftypBody moovBody earlier mfhdBody trafs mdatBody tail).
  set (init := mkBox "ftyp" ftypBody ++ mkBox "moov" moovBody).
  assert (Edata : data = init ++ frags ++ tail).
  { unfold data, segmentBytes, init. now rewrite <- app_assoc. }
  unfold boxFits in Fftyp, Fmoov.
  (* the init boxes are skipped *)
  assert (Einit : skipInit (MemReader data 0) = (cursor init (frags ++ tail), Ok tt)).
  { unfold data, segmentBytes. fold lastMoof. fold frags. unfold mkBox at 1 2.
    rewrite <- !app_assoc.
    rewrite skipInit_mem;
      try (apply boxHeader_length; reflexivity);
      try (apply hasTag_boxHeader; reflexivity);
      try (apply boxSize_of_boxHeader; lia).
    f_equal. unfold cursor, init, mkBox. rewrite <- !app_assoc. f_equal.
    rewrite !length_app, !boxHeader_length by reflexivity. lia. }
  (* the scan ends on the last fragment *)
  assert (Ffrags : Forall (fun f => boxFits (fst f) /\ boxFits (snd f))
                     (earlier ++ [(lastMoof, mdatBody)])).
  { apply Forall_app. split; [exact Fearlier |]. constructor; [| constructor].
    split; assumption. }
  destruct (scanPairs_fragments (earlier ++ [(lastMoof, mdatBody)]) fuel (-1) init tail
              ltac:(rewrite length_app; cbn [List.length]; lia) Ffrags Ltail)
    as [r1 Hscan].
  fold frags in Hscan. rewrite lastMoofOf_app in Hscan.
  assert (Hr1 : mr_data r1 = data).
  { pose proof (scanPairs_onFile data fuel (-1) (cursor init (frags ++ tail))) as Hon.
    rewrite Hscan in Hon. apply Hon. split; [now rewrite Edata | cbn; lia]. }
  set (earlierBytes := flat_map fragmentBytes earlier) in *.
  set (lastPos := Z.of_nat (List.length init) + Z.of_nat (List.length earlierBytes)) in *.
  set (afterLast := boxHeader (8 + Z.of_nat (List.length mdatBody)) "mdat"
                    ++ mdatBody ++ tail).
  set (moofHeader := boxHeader (8 + Z.of_nat (List.length lastMoof)) "moof").
  assert (Efrags : frags ++ tail
                   = earlierBytes ++ moofHeader ++ mkBox "mfhd" mfhdBody
                     ++ flat_map trafBytes trafs ++ afterLast).
  { unfold frags, earlierBytes, moofHeader, afterLast.
    rewrite flat_map_app. cbn [flat_map]. rewrite app_nil_r.
    unfold fragmentBytes at 2. cbn [fst snd]. unfold mkBox at 1 2. unfold lastMoof.
    now rewrite <- !app_assoc. }
  (* the last moof is opened eight bytes after its start *)
  assert (Eopen : mem_seek (lastPos + 8) SeekStart r1
                  = (cursor (init ++ earlierBytes ++ moofHeader)
                       (mkBox "mfhd" mfhdBody ++ flat_map trafBytes trafs ++ afterLast),
                     Ok (lastPos + 8))).
  { unfold mem_seek. destruct (Z.ltb_spec (lastPos + 8) 0); [unfold lastPos in *; lia |].
    rewrite Hr1, Edata, Efrags. f_equal. unfold cursor. f_equal.
    - now rewrite <- !app_assoc.
    - unfold lastPos, moofHeader.
      rewrite !length_app, boxHeader_length by reflexivity. lia. }
  destruct (scanTrafs_trafs unmarshalTfdt unmarshalTrun trafs fuel 0
              (((init ++ earlierBytes ++ moofHeader)
                ++ boxHeader (8 + Z.of_nat (List.length mfhdBody)) "mfhd") ++ mfhdBody)
              (8 + Z.of_nat (List.length mdatBody)) (mdatBody ++ tail) Hfuel2 Hparse)
    as [r2 Htrafs].
  fold afterLast in Htrafs.
  unfold segmentFMP4ReadMaxDuration, bind.
  rewrite Einit, Hscan. fold lastPos.
  destruct (Z.ltb_spec lastPos 0); [unfold lastPos in *; lia |].
  unfold parseLastMoof, readHeader, bind, ret, fail.
  change (@seek memReader _) with mem_seek.
  change (@readFull memReader _) with mem_readFull.
  rewrite Eopen. unfold mkBox at 1. rewrite <- !app_assoc.
  rewrite read_box_header by reflexivity.
  rewrite hasTag_boxHeader by reflexivity. cbn [negb].
  change (mem_seek 8 SeekCurrent) with (mem_seek (Z.of_nat 8) SeekCurrent).
  rewrite <- Lmfhd at 1.
  rewrite cursor_skip, Htrafs. reflexivity.
Qed.

(** Stand-ins for go-mp4's decoders: a [tfdt] payload of one byte counts
    seconds, each byte of a [trun] payload is a sample in half seconds. *)
Definition secondsTfdt (buf : list byte) : option Tfdt :=
  match buf with
  | [b] => Some {| BaseMediaDecodeTimeV1 := byteZ b * 90000 |}
  | _ => None
  end.

Definition halfSecondsTrun (buf : list byte) : option Trun :=
  Some {| DataOffset := 0;
          Entries := map (fun b => {| SampleDuration := byteZ b * 45000;
                                      SampleSize := 0; SampleFlags := 0;
                                      SampleCompositionTimeOffsetV1 := 0 |}) buf |}.

Definition lateTraf : trafLayout :=
  {| tl_tfhdBody := [x00; x00; x00; x01];
     tl_tfdtPayload := [x05];
     tl_trunPayload := [x03; x04];
     tl_tfdt := {| BaseMediaDecodeTimeV1 := 450000 |};
     tl_trun := {| DataOffset := 0;
                   Entries := [ {| SampleDuration := 135000; SampleSize := 0;
                                   SampleFlags := 0; SampleCompositionTimeOffsetV1 := 0 |};
                                {| SampleDuration := 180000; SampleSize := 0;
                                   SampleFlags := 0; SampleCompositionTimeOffsetV1 := 0 |} ] |} |}.

Definition earlyTraf : trafLayout :=
  {| tl_tfhdBody := [];
     tl_tfdtPayload := [x02];
     tl_trunPayload := [x01];
     tl_tfdt := {| BaseMediaDecodeTimeV1 := 180000 |};
     tl_trun := {| DataOffset := 0;
                   Entries := [ {| SampleDuration := 45000; SampleSize := 0;
                                   SampleFlags := 0; SampleCompositionTimeOffsetV1 := 0 |} ] |} |}.

(** A segment of two fragments; the first holds bytes that are no boxes, the
    last has a track that ends at 8.5 s and one that ends at 2.5 s. *)
Lemma readMaxDuration_last_fragment_witness :
  snd (segmentFMP4ReadMaxDuration secondsTfdt halfSecondsTrun 3
         (MemReader
            (segmentBytes [x69; x73; x6f; x6d] [] [([xff; xff], [x01])]
               [x00; x00; x00; x00; x00; x00; x00; x07] [lateTraf; earlyTraf]
               [xaa; xbb] [x00; x00; x00]) 0))
  = Ok (8 * Second + 500 * Millisecond).
Proof.
  refine (eq_trans
            (readMaxDuration_last_fragment secondsTfdt halfSecondsTrun
               [x69; x73; x6f; x6d] [] [([xff; xff], [x01])]
               [x00; x00; x00; x00; x00; x00; x00; x07] [lateTraf; earlyTraf]
               [xaa; xbb] [x00; x00; x00] 3 _ _ _ _ _ _ _ _ _ _) _).
  - vm_compute. reflexivity.
  - vm_compute. reflexivity.
  - repeat constructor.
  - reflexivity.
  - vm_compute. reflexivity.
  - vm_compute. reflexivity.
  - repeat constructor.
  - cbn. lia.
  - cbn. lia.
  - cbn. lia.
  - vm_compute. reflexivity.
Defined.
